(** * Orchestration core of the agent team system

    A shallow embedding of the three core components
    - [core/autonomy_controller.py]  (module [Autonomy]),
    - [core/state_manager.py]        (module [StateStore]),
    - [core/orchestrator.py], with the priorities of [core/agent_base.py]
      (module [Orchestrator]),
    followed by the properties of the specification that concern them and
    by further properties of the code (modules [AutonomyProps],
    [StateStoreProps], [OrchestratorProps]).

    Python dictionaries used as maps are [gmap]s, Python sets are [gset]s,
    lists stay lists, and a method that updates its object and may raise
    is a function from the state before the call to an [outcome] and the
    state after it. The clock, the [uuid4] draws and the agents are the
    environment: functions of the number of earlier readings. Text is
    ASCII text. A call of a method, like a turn of a loop, runs to its end
    before the next one begins; logging is left out. *)

From Stdlib Require Import ZArith NArith Ascii String List DecimalString Sorted.
From Stdlib Require Import DecimalPos.
From stdpp Require Import base decidable option list gmap strings fin_maps.

#[local] Open Scope string_scope.
#[local] Open Scope Z_scope.

(** ** Python values and exceptions shared by the three components *)

(** The exception classes that the modelled code can raise. [SystemExit]
    stands for the classes outside [Exception] ([SystemExit],
    [KeyboardInterrupt], [GeneratorExit]), which [except Exception] lets
    through. *)
Inductive exn : Type :=
| TypeError
| ValueError
| AttributeError
| KeyError
| QueueEmpty
| SystemExit.

#[global] Instance exn_eq_dec : EqDecision exn.
Proof. solve_decision. Defined.

(** The result of a call: a returned value or a raised exception. *)
Inductive outcome (A : Type) : Type :=
| Returns (a : A)
| Raises (e : exn).
Arguments Returns {A} a.
Arguments Raises {A} e.

(** The scalar values of a context dictionary, of task parameters and of
    an agent's result. *)
Inductive pyval : Type :=
| PNone
| PBool (b : bool)
| PInt (n : Z)
| PStr (s : string).

#[global] Instance pyval_eq_dec : EqDecision pyval.
Proof. solve_decision. Defined.

(** Python truth value of a scalar. *)
Definition truthy (v : pyval) : bool :=
  match v with
  | PNone => false
  | PBool b => b
  | PInt n => negb (n =? 0)
  | PStr s => negb (String.eqb s "")
  end.

(** ** Strings: [str.lower] on ASCII text and the [in] substring test *)

Definition lower_ascii (c : ascii) : ascii :=
  let n := N_of_ascii c in
  if ((65 <=? n) && (n <=? 90))%N then ascii_of_N (n + 32) else c.

Fixpoint lower (s : string) : string :=
  match s with
  | EmptyString => EmptyString
  | String c s' => String (lower_ascii c) (lower s')
  end.

(** [contains pat s] is Python's [pat in s]. *)
Fixpoint contains (pat s : string) : bool :=
  String.prefix pat s ||
  match s with
  | EmptyString => false
  | String _ s' => contains pat s'
  end.

(** ** Methods that update an object and may raise

    A method of an object with state [S] is a function from the state
    before the call to the outcome of the call and the state after it (at
    the point of the [raise], when it raises). *)

Definition M (S A : Type) : Type := S -> outcome A * S.

#[global] Instance M_ret {S} : MRet (M S) :=
  fun A a s => (Returns a, s).

#[global] Instance M_bind {S} : MBind (M S) :=
  fun A B f c s =>
    match c s with
    | (Returns a, s') => f a s'
    | (Raises e, s') => (Raises e, s')
    end.

Definition get {S} : M S S := fun s => (Returns s, s).
Definition modify {S} (f : S -> S) : M S unit := fun s => (Returns tt, f s).
Definition raise {S A} (e : exn) : M S A := fun s => (Raises e, s).
Definition lift {S A} (o : outcome A) : M S A := fun s => (o, s).

(** [try: c except Exception: pass]: an exception outside [Exception]
    goes on to the caller. *)
Definition try_except {S} (c : M S unit) : M S unit :=
  fun s =>
    match c s with
    | (Returns _, s') => (Returns tt, s')
    | (Raises e, s') =>
        if bool_decide (e = SystemExit) then (Raises e, s') else (Returns tt, s')
    end.

(** A hexadecimal digit in lower case. *)
Definition hex_digit (n : N) : ascii :=
  if (n <? 10)%N then ascii_of_N (48 + n) else ascii_of_N (87 + n).

(** ** Integers as text: [str(n)], [int(s)] and [s.split(sep)] *)

Definition str_of_Z (n : Z) : string := NilZero.string_of_int (Z.to_int n).

(** The blanks that [int] skips at both ends of ASCII text: tab, line
    feed, vertical tab, form feed, carriage return and space. *)
Definition is_space (c : ascii) : bool :=
  let n := N_of_ascii c in
  (((9 <=? n) && (n <=? 13)) || (n =? 32))%N.

Definition is_digit (c : ascii) : bool :=
  let n := N_of_ascii c in ((48 <=? n) && (n <=? 57))%N.

Fixpoint lstrip (s : list ascii) : list ascii :=
  match s with
  | c :: s' => if is_space c then lstrip s' else s
  | [] => []
  end.

Definition strip (s : list ascii) : list ascii := rev (lstrip (rev (lstrip s))).

(** Digits with single underscores between them, as [int] accepts;
    [after_digit] tells whether the previous character was a digit. *)
Fixpoint digits_value (after_digit : bool) (acc : Z) (s : list ascii)
  : option Z :=
  match s with
  | [] => if after_digit then Some acc else None
  | c :: s' =>
      if is_digit c
      then digits_value true (10 * acc + (Z.of_N (N_of_ascii c) - 48)) s'
      else if Ascii.eqb c "_" && after_digit
      then match s' with
           | d :: _ => if is_digit d then digits_value false acc s' else None
           | [] => None
           end
      else None
  end.

(** [int(s)] in base ten for ASCII text; [None] stands for [ValueError].
    In other text [int] also reads the digits and the blanks of other
    scripts; and CPython's limit on the number of digits of an integer
    read or printed (4300 by default from Python 3.11 on) is left out:
    integers are unbounded here. *)
Definition py_int (s : string) : option Z :=
  match strip (list_ascii_of_string s) with
  | "-"%char :: ds => Z.opp <$> digits_value false 0 ds
  | "+"%char :: ds => digits_value false 0 ds
  | ds => digits_value false 0 ds
  end.

(** [s.isascii()] *)
Definition isascii (s : string) : bool :=
  forallb (fun c => (N_of_ascii c <? 128)%N) (list_ascii_of_string s).

(** [s.split(sep)] for a one-character separator. *)
Fixpoint split_on (sep : ascii) (s : string) : list string :=
  match s with
  | EmptyString => [EmptyString]
  | String c s' =>
      if Ascii.eqb c sep then EmptyString :: split_on sep s'
      else match split_on sep s' with
           | part :: parts => String c part :: parts
           | [] => [String c EmptyString]
           end
  end.

(** ** JSON text as [json.dump(data, f, indent=2)] writes it *)

#[local] Set Warnings "-register-all".
Inductive json : Type :=
| JNull
| JInt (n : Z)
| JStr (s : string)
| JList (items : list json)
| JObj (members : list (string * json)).

(** One character of a string literal, with [ensure_ascii] escaping. *)
Definition escape_char (c : ascii) : string :=
  let n := N_of_ascii c in
  if (n =? 34)%N then String "\" (String c "")
  else if (n =? 92)%N then "\\"
  else if (n =? 10)%N then "\n"
  else if (n =? 13)%N then "\r"
  else if (n =? 9)%N then "\t"
  else if (n =? 8)%N then "\b"
  else if (n =? 12)%N then "\f"
  else if ((n <? 32) || (126 <? n))%N
  then "\u00" +:+ String (hex_digit (n / 16)) (String (hex_digit (n mod 16)) "")
  else String c "".

Fixpoint escape (s : string) : string :=
  match s with
  | EmptyString => EmptyString
  | String c s' => escape_char c +:+ escape s'
  end.

Definition quoted (s : string) : string :=
  String (ascii_of_N 34) (escape s +:+ String (ascii_of_N 34) "").

(** A line break followed by the indentation of nesting depth [level]. *)
Definition newline_indent (level : nat) : string :=
  String (ascii_of_N 10) (String.concat "" (repeat "  " level)).

Fixpoint dumps_at (level : nat) (j : json) : string :=
  match j with
  | JNull => "null"
  | JInt n => str_of_Z n
  | JStr s => quoted s
  | JList [] => "[]"
  | JList items =>
      "[" +:+ newline_indent (S level)
      +:+ String.concat ("," +:+ newline_indent (S level))
            (map (dumps_at (S level)) items)
      +:+ newline_indent level +:+ "]"
  | JObj [] => "{}"
  | JObj members =>
      "{" +:+ newline_indent (S level)
      +:+ String.concat ("," +:+ newline_indent (S level))
            (map (fun kv => quoted kv.1 +:+ ": " +:+ dumps_at (S level) kv.2)
                 members)
      +:+ newline_indent level +:+ "}"
  end.

Definition json_dump (j : json) : string := dumps_at 0 j.

(** ** SHA-256, as [hashlib.sha256] computes it *)

Module SHA256.
#[local] Open Scope N_scope.

Definition mask32 : N := 0xFFFFFFFF.
Definition add32 (a b : N) : N := N.land (a + b) mask32.
Definition rotr (n x : N) : N :=
  N.lor (N.shiftr x n) (N.land (N.shiftl x (32 - n)) mask32).
Definition Ch (x y z : N) : N :=
  N.lxor (N.land x y) (N.land (N.lxor x mask32) z).
Definition Maj (x y z : N) : N :=
  N.lxor (N.lxor (N.land x y) (N.land x z)) (N.land y z).
Definition Sigma0 (x : N) : N := N.lxor (N.lxor (rotr 2 x) (rotr 13 x)) (rotr 22 x).
Definition Sigma1 (x : N) : N := N.lxor (N.lxor (rotr 6 x) (rotr 11 x)) (rotr 25 x).
Definition sigma0 (x : N) : N := N.lxor (N.lxor (rotr 7 x) (rotr 18 x)) (N.shiftr x 3).
Definition sigma1 (x : N) : N := N.lxor (N.lxor (rotr 17 x) (rotr 19 x)) (N.shiftr x 10).

(** The first [count] prime numbers. *)
Definition is_prime (n : N) : bool :=
  (1 <? n)
  && forallb (fun d => negb (n mod N.of_nat d =? 0))
       (seq 2 (N.to_nat (N.sqrt n) - 1)).

Definition primes (count : nat) : list N :=
  take count (filter (fun n => is_prime n = true) (map N.of_nat (seq 2 400))).

(** The integer cube root, found bit by bit from bit 40 downwards. *)
Definition cube_root (n : N) : N :=
  foldl (fun r i => let r' := r + N.shiftl 1 (N.of_nat i) in
                    if r' * r' * r' <=? n then r' else r)
        0 (rev (seq 0 41)).

(** The round constants: the first 32 bits of the fractional parts of the
    cube roots of the first 64 primes. *)
Definition K : list N :=
  Eval vm_compute in
    map (fun p => N.land (cube_root (N.shiftl p 96)) mask32) (primes 64).

(** The initial hash value: the same for the square roots of the first
    8 primes. *)
Definition H0 : list N :=
  Eval vm_compute in
    map (fun p => N.land (N.sqrt (N.shiftl p 64)) mask32) (primes 8).

(** Padding: the byte 0x80, zero bytes up to 56 modulo 64, then the bit
    length as eight big-endian bytes. *)
Definition be_bytes (count : nat) (x : N) : list N :=
  map (fun i => N.land (N.shiftr x (8 * N.of_nat i)) 0xFF) (rev (seq 0 count)).

Definition pad (msg : list N) : list N :=
  let len := N.of_nat (length msg) in
  let zeros := N.to_nat ((119 - len mod 64) mod 64) in
  msg ++ [0x80] ++ repeat 0 zeros ++ be_bytes 8 (8 * len).

Fixpoint words (fuel : nat) (bytes : list N) : list N :=
  match fuel, bytes with
  | S fuel', b0 :: b1 :: b2 :: b3 :: rest =>
      (N.shiftl b0 24 + N.shiftl b1 16 + N.shiftl b2 8 + b3) :: words fuel' rest
  | _, _ => []
  end.

Fixpoint blocks (fuel : nat) (ws : list N) : list (list N) :=
  match fuel, ws with
  | S fuel', _ :: _ => take 16 ws :: blocks fuel' (drop 16 ws)
  | _, _ => []
  end.

(** The message schedule, kept with the newest word first. *)
Fixpoint schedule (count : nat) (w : list N) : list N :=
  match count with
  | O => w
  | S count' =>
      let x := add32 (add32 (sigma1 (nth 1 w 0)) (nth 6 w 0))
                     (add32 (sigma0 (nth 14 w 0)) (nth 15 w 0)) in
      schedule count' (x :: w)
  end.

Definition round (s : list N) (kw : N * N) : list N :=
  match s with
  | [a; b; c; d; e; f; g; h] =>
      let t1 := add32 (add32 (add32 h (Sigma1 e)) (add32 (Ch e f g) kw.1)) kw.2 in
      let t2 := add32 (Sigma0 a) (Maj a b c) in
      [add32 t1 t2; a; b; c; add32 d t1; e; f; g]
  | _ => s
  end.

Definition compress (h : list N) (block : list N) : list N :=
  let w := rev (schedule 48 (rev block)) in
  zip_with add32 h (foldl round h (zip K w)).

Definition hex32 (x : N) : string :=
  string_of_list_ascii
    (map (fun i => hex_digit (N.land (N.shiftr x (4 * N.of_nat i)) 0xF))
         (rev (seq 0 8))).

Definition bytes_of_string (s : string) : list N :=
  map N_of_ascii (list_ascii_of_string s).

(** [hashlib.sha256(data).hexdigest()] *)
Definition hexdigest (data : string) : string :=
  let bytes := pad (bytes_of_string data) in
  let ws := words (length bytes) bytes in
  let h := foldl compress H0 (blocks (length ws) ws) in
  String.concat "" (map hex32 h).

End SHA256.

(** A clock for the examples: the [n]-th reading of [datetime.utcnow()]
    is [n] seconds past midnight. *)
Definition demo_clock (n : nat) : string :=
  "2024-01-01T00:00:" +:+ (if (n <? 10)%nat then "0" else "")
  +:+ str_of_Z (Z.of_nat n).

(* ===================================================================== *)
(** * core/autonomy_controller.py *)
(* ===================================================================== *)

Module Autonomy.

Inductive OperationCategory : Type :=
| READ_FILE
| WRITE_FILE
| DELETE_FILE
| EXECUTE_COMMAND
| NETWORK_REQUEST
| DATABASE_QUERY
| DATABASE_WRITE
| GIT_COMMIT
| GIT_PUSH
| INSTALL_PACKAGE
| MODIFY_CONFIG
| CREATE_BACKUP
| RESTORE_BACKUP.

#[global] Instance OperationCategory_eq_dec : EqDecision OperationCategory.
Proof. solve_decision. Defined.

Definition category_index (c : OperationCategory) : nat :=
  match c with
  | READ_FILE => 0 | WRITE_FILE => 1 | DELETE_FILE => 2
  | EXECUTE_COMMAND => 3 | NETWORK_REQUEST => 4 | DATABASE_QUERY => 5
  | DATABASE_WRITE => 6 | GIT_COMMIT => 7 | GIT_PUSH => 8
  | INSTALL_PACKAGE => 9 | MODIFY_CONFIG => 10 | CREATE_BACKUP => 11
  | RESTORE_BACKUP => 12
  end%nat.

Definition category_of_index (n : nat) : OperationCategory :=
  match n with
  | 0 => READ_FILE | 1 => WRITE_FILE | 2 => DELETE_FILE
  | 3 => EXECUTE_COMMAND | 4 => NETWORK_REQUEST | 5 => DATABASE_QUERY
  | 6 => DATABASE_WRITE | 7 => GIT_COMMIT | 8 => GIT_PUSH
  | 9 => INSTALL_PACKAGE | 10 => MODIFY_CONFIG | 11 => CREATE_BACKUP
  | _ => RESTORE_BACKUP
  end%nat.

#[global] Instance OperationCategory_countable : Countable OperationCategory.
Proof.
  refine (inj_countable' category_index category_of_index _).
  by intros [].
Defined.

Inductive OperationRisk : Type :=
| SAFE
| LOW
| MEDIUM
| HIGH
| CRITICAL.

#[global] Instance OperationRisk_eq_dec : EqDecision OperationRisk.
Proof. solve_decision. Defined.

(** The document that [_save_config] writes to [config_file]
    (its [last_updated] stamp is left out). *)
Record ConfigDoc : Type := mkConfigDoc {
  doc_autonomy_level : string;
  doc_approved_categories : gmap string (gset OperationCategory);
  doc_always_require_approval : gset OperationCategory;
}.

Record AutonomyController : Type := mkController {
  autonomy_level : string;
  approved_categories : gmap string (gset OperationCategory);
  always_require_approval : gset OperationCategory;
  config_file : option ConfigDoc;
}.

(** [self.operation_risks], a table that is never updated. *)
Definition operation_risks (op : OperationCategory) : OperationRisk :=
  match op with
  | READ_FILE => SAFE
  | WRITE_FILE => LOW
  | DELETE_FILE => HIGH
  | EXECUTE_COMMAND => MEDIUM
  | NETWORK_REQUEST => MEDIUM
  | DATABASE_QUERY => SAFE
  | DATABASE_WRITE => MEDIUM
  | GIT_COMMIT => LOW
  | GIT_PUSH => HIGH
  | INSTALL_PACKAGE => MEDIUM
  | MODIFY_CONFIG => MEDIUM
  | CREATE_BACKUP => SAFE
  | RESTORE_BACKUP => HIGH
  end.

Definition _save_config (c : AutonomyController) : AutonomyController :=
  {| autonomy_level := autonomy_level c;
     approved_categories := approved_categories c;
     always_require_approval := always_require_approval c;
     config_file :=
       Some {| doc_autonomy_level := autonomy_level c;
               doc_approved_categories := approved_categories c;
               doc_always_require_approval := always_require_approval c |} |}.

Definition semi_auto_defaults : gset OperationCategory :=
  {[READ_FILE; WRITE_FILE; EXECUTE_COMMAND; DATABASE_QUERY; CREATE_BACKUP]}.

Definition full_auto_defaults : gset OperationCategory :=
  {[READ_FILE; WRITE_FILE; DELETE_FILE; EXECUTE_COMMAND; NETWORK_REQUEST;
    DATABASE_QUERY; DATABASE_WRITE; GIT_COMMIT; CREATE_BACKUP; MODIFY_CONFIG]}.

(** The controller that [__init__] builds when no configuration file
    exists yet: the defaults, saved at once by [_load_config]. *)
Definition default_controller : AutonomyController :=
  _save_config
    {| autonomy_level := "semi_auto";
       approved_categories :=
         <["manual" := ∅]>
         (<["semi_auto" := semi_auto_defaults]>
         (<["full_auto" := full_auto_defaults]> ∅));
       always_require_approval := {[GIT_PUSH; RESTORE_BACKUP]};
       config_file := None |}.

Definition set_autonomy_level (level : string) (c : AutonomyController)
  : outcome AutonomyController :=
  if bool_decide (level ∈ ["manual"; "semi_auto"; "full_auto"]) then
    Returns (_save_config
      {| autonomy_level := level;
         approved_categories := approved_categories c;
         always_require_approval := always_require_approval c;
         config_file := config_file c |})
  else Raises ValueError.

Definition protected_patterns : list string :=
  [".git/"; "config/"; ".env"; "secrets"; "credentials"].

Definition _is_protected_path (path : string) : bool :=
  let path_lower := lower path in
  existsb (fun pattern => contains pattern path_lower) protected_patterns.

(** A context is [None] or a dictionary, whose values are [None],
    booleans, integers and strings here; [if context:] holds for a
    dictionary with at least one key. *)
Definition context_given (context : option (gmap string pyval)) : bool :=
  match context with
  | None => false
  | Some d => negb (bool_decide (d = ∅))
  end.

Definition requires_approval (c : AutonomyController)
    (operation : OperationCategory) (context : option (gmap string pyval))
  : outcome bool :=
  if bool_decide (operation ∈ always_require_approval c) then Returns true
  else if String.eqb (autonomy_level c) "manual" then Returns true
  else
    let approved := default ∅ (approved_categories c !! autonomy_level c) in
    if negb (bool_decide (operation ∈ approved)) then Returns true
    else if context_given context then
      let d := default ∅ context in
      let risk := operation_risks operation in
      if String.eqb (autonomy_level c) "semi_auto"
         && bool_decide (risk ∈ [HIGH; CRITICAL]) then Returns true
      else if truthy (default PNone (d !! "force_approval")) then Returns true
      else if bool_decide (operation ∈ [WRITE_FILE; DELETE_FILE]) then
        match default (PStr "") (d !! "path") with
        | PStr path =>
            if _is_protected_path path then Returns true else Returns false
        | _ => Raises AttributeError
        end
      else Returns false
    else Returns false.

(** [approve_operation] returns the approval id built from the clock
    reading [stamp] (the [%Y%m%d%H%M%S] rendering of [utcnow]). *)
Definition approve_operation (operation : OperationCategory) (stamp : string)
    (c : AutonomyController) : string * AutonomyController :=
  let approved' :=
    match approved_categories c !! autonomy_level c with
    | Some s => <[autonomy_level c := s ∪ {[operation]}]> (approved_categories c)
    | None => approved_categories c
    end in
  ("approval_" +:+ stamp,
   _save_config
     {| autonomy_level := autonomy_level c;
        approved_categories := approved';
        always_require_approval := always_require_approval c;
        config_file := config_file c |}).

(** [revoke_approval] walks over every level of [approved_categories]. *)
Definition revoke_approval (operation : OperationCategory)
    (c : AutonomyController) : AutonomyController :=
  _save_config
    {| autonomy_level := autonomy_level c;
       approved_categories :=
         (fun s => s ∖ {[operation]}) <$> approved_categories c;
       always_require_approval := always_require_approval c;
       config_file := config_file c |}.

Definition get_approved_operations (c : AutonomyController)
  : gset OperationCategory :=
  default ∅ (approved_categories c !! autonomy_level c).

(** The controller after [approve_operation(DELETE_FILE)] at the default
    level [semi_auto]. *)
Definition delete_approved : AutonomyController :=
  (approve_operation DELETE_FILE "20240101000000" default_controller).2.

(** [_generate_safety_recommendations(approved_operations)] *)
Definition _generate_safety_recommendations (c : AutonomyController)
    (approved_operations : gset OperationCategory) : list string :=
  let high_risk_ops :=
    filter (fun op => operation_risks op ∈ [HIGH; CRITICAL])
      (elements approved_operations) in
  let recommendations :=
    ((if negb (bool_decide (high_risk_ops = []))
         && String.eqb (autonomy_level c) "full_auto"
      then ["Consider switching to semi_auto mode due to approved high-risk operations"]
      else [])
     ++ (if bool_decide (DELETE_FILE ∈ approved_operations)
         then ["DELETE_FILE is approved - ensure backup system is active"]
         else [])
     ++ (if bool_decide (GIT_PUSH ∈ approved_operations)
         then ["GIT_PUSH is approved - ensure proper branch protection is configured"]
         else []))%list in
  if bool_decide (recommendations = [])
  then ["Current configuration appears safe"]
  else recommendations.

(** ** Sequences of calls

    A call of one of the three methods that change the controller. *)
Inductive call : Type :=
| SetLevel (level : string)
| Approve (operation : OperationCategory) (stamp : string)
| Revoke (operation : OperationCategory).

(** The controller after a call; [set_autonomy_level] leaves it as it was
    when it raises. *)
Definition after_call (k : call) (c : AutonomyController) : AutonomyController :=
  match k with
  | SetLevel level =>
      match set_autonomy_level level c with
      | Returns c' => c'
      | Raises _ => c
      end
  | Approve operation stamp => (approve_operation operation stamp c).2
  | Revoke operation => revoke_approval operation c
  end.

Definition after_calls (ks : list call) (c : AutonomyController)
  : AutonomyController :=
  foldl (fun c k => after_call k c) c ks.

(** No level has [op] in its approved set. *)
Definition unapproved (op : OperationCategory) (c : AutonomyController) : Prop :=
  forall (level : string) s, approved_categories c !! level = Some s -> op ∉ s.


End Autonomy.

(** ** [sorted]: a stable sort *)

(** [insert_sorted ahead x l] puts [x] behind the leading elements [y] of
    [l] that must stay ahead of it ([ahead y x]); [py_sorted] inserts the
    elements from the right, so that equal elements keep their order, as
    [sorted] guarantees. *)
Fixpoint insert_sorted {A} (ahead : A -> A -> bool) (x : A) (l : list A)
  : list A :=
  match l with
  | [] => [x]
  | y :: l' =>
      if ahead y x then y :: insert_sorted ahead x l' else x :: y :: l'
  end.

Definition py_sorted {A} (ahead : A -> A -> bool) (l : list A) : list A :=
  foldr (insert_sorted ahead) [] l.

(** [l[:k]] and [l[k:]] for any integer [k]. *)
Definition slice_to {A} (k : Z) (l : list A) : list A :=
  if 0 <=? k then take (Z.to_nat k) l
  else take (Z.to_nat (Z.of_nat (length l) + k)) l.

Definition slice_from {A} (k : Z) (l : list A) : list A :=
  if 0 <=? k then drop (Z.to_nat k) l
  else drop (Z.to_nat (Z.of_nat (length l) + k)) l.

(* ===================================================================== *)
(** * core/state_manager.py *)
(* ===================================================================== *)

Module StateStore.

(** A path below a directory, as the list of its components; [Path]
    objects compare component by component. *)
Fixpoint path_ltb (p q : list string) : bool :=
  match p, q with
  | [], [] => false
  | [], _ :: _ => true
  | _ :: _, [] => false
  | a :: p', b :: q' =>
      match String.compare a b with
      | Lt => true
      | Gt => false
      | Eq => path_ltb p' q'
      end
  end.

(** One entry of the version history. The metadata of a snapshot are a
    dictionary from strings to strings here, which [json.dump] always
    writes; the code takes any dictionary. *)
Record VersionEntry : Type := mkEntry {
  version : string;
  label : option string;
  timestamp : string;
  increment_type : string;
  state_hash : string;
  file_count : nat;
  metadata : list (string * string);
  snapshot_dir : string;
}.

(** The state manager together with the part of the disk it works on:
    - [state_files]: the [*.json] files below [state_dir], by relative
      path, with their bytes ([versions.json] is one of them);
    - [backups]: the snapshot directories that exist, by the path string
      that a history entry records, each with its [*.json] files;
    - [clock]: how often [datetime.utcnow()] has been read.
    Reading and writing files does not fail. *)
Record StateManager : Type := mkManager {
  backup_dir : string;
  current_version : string;
  versions : list VersionEntry;
  state_files : gmap (list string) string;
  backups : gmap string (gmap (list string) string);
  clock : nat;
}.

Definition set_current_version (v : string) (m : StateManager) : StateManager :=
  mkManager (backup_dir m) v (versions m) (state_files m) (backups m) (clock m).
Definition set_versions (vs : list VersionEntry) (m : StateManager)
  : StateManager :=
  mkManager (backup_dir m) (current_version m) vs (state_files m) (backups m)
    (clock m).
Definition set_state_files (fs : gmap (list string) string) (m : StateManager)
  : StateManager :=
  mkManager (backup_dir m) (current_version m) (versions m) fs (backups m)
    (clock m).
Definition set_backups (bs : gmap string (gmap (list string) string))
    (m : StateManager) : StateManager :=
  mkManager (backup_dir m) (current_version m) (versions m) (state_files m) bs
    (clock m).
Definition set_clock (n : nat) (m : StateManager) : StateManager :=
  mkManager (backup_dir m) (current_version m) (versions m) (state_files m)
    (backups m) n.

(** [self.versions_file], relative to [state_dir]. *)
Definition versions_file : list string := ["versions.json"].

Definition entry_json (e : VersionEntry) : json :=
  JObj [("version", JStr (version e));
        ("label", match label e with Some l => JStr l | None => JNull end);
        ("timestamp", JStr (timestamp e));
        ("increment_type", JStr (increment_type e));
        ("state_hash", JStr (state_hash e));
        ("file_count", JInt (Z.of_nat (file_count e)));
        ("metadata", JObj (map (fun kv => (kv.1, JStr kv.2)) (metadata e)));
        ("snapshot_dir", JStr (snapshot_dir e))].

Section Clock.

(** [utcnow n] is the ISO text of the [n]-th reading of the clock. *)
Variable utcnow : nat -> string.

Definition utc_now : M StateManager string :=
  fun m => (Returns (utcnow (clock m)), set_clock (S (clock m)) m).

Definition _save_version_history : M StateManager unit :=
  m ← get;
  last_updated ← utc_now;
  let data :=
    JObj [("current_version", JStr (current_version m));
          ("versions", JList (map entry_json (versions m)));
          ("last_updated", JStr last_updated)] in
  modify (fun m => set_state_files
                     (<[versions_file := json_dump data]> (state_files m)) m).

Definition _increment_version (version increment : string) : outcome string :=
  match map py_int (split_on "." version) with
  | [Some major; Some minor; Some patch] =>
      let '(major, minor, patch) :=
        if String.eqb increment "major" then (major + 1, 0, 0)
        else if String.eqb increment "minor" then (major, minor + 1, 0)
        else (major, minor, patch + 1) in
      Returns (str_of_Z major +:+ "." +:+ str_of_Z minor +:+ "."
               +:+ str_of_Z patch)
  | _ => Raises ValueError
  end.

(** [state_dir.rglob("*.json")] *)
Definition _collect_state_files (m : StateManager) : gmap (list string) string :=
  state_files m.

(** The files in the order of [sorted(state_files)], with their bytes. *)
Definition sorted_files (files : gmap (list string) string)
  : list (list string * string) :=
  py_sorted (fun y x => path_ltb y.1 x.1) (map_to_list files).

Definition _calculate_state_hash (files : gmap (list string) string) : string :=
  SHA256.hexdigest (String.concat "" ((sorted_files files).*2)).

Definition create_snapshot (label : option string) (increment : string)
    (metadata : list (string * string)) : M StateManager string :=
  m ← get;
  new_version ← lift (_increment_version (current_version m) increment);
  let files := _collect_state_files m in
  let snapshot_dir := backup_dir m +:+ "/v" +:+ new_version in
  (* mkdir(exist_ok=True), then copy each state file over *)
  modify (fun m =>
    set_backups (<[snapshot_dir := files ∪ default ∅ (backups m !! snapshot_dir)]>
                   (backups m)) m);;
  let state_hash := _calculate_state_hash files in
  now ← utc_now;
  let version_entry :=
    {| version := new_version;
       label := label;
       timestamp := now;
       increment_type := increment;
       state_hash := state_hash;
       file_count := size files;
       metadata := metadata;
       snapshot_dir := snapshot_dir |} in
  modify (fun m => set_versions (versions m ++ [version_entry]) m);;
  modify (set_current_version new_version);;
  _save_version_history;;
  mret new_version.

Definition restore_snapshot (version_wanted : string) : M StateManager bool :=
  m ← get;
  match find (fun v => String.eqb (version v) version_wanted) (versions m) with
  | None => mret false
  | Some version_entry =>
      let snapshot_dir := snapshot_dir version_entry in
      if negb (bool_decide (is_Some (backups m !! snapshot_dir))) then
        mret false
      else
        create_snapshot (Some ("Before restore to v" +:+ version_wanted))
          "patch" [];;
        (* clear the current state, then copy the snapshot's files back *)
        modify (set_state_files ∅);;
        modify (fun m =>
          set_state_files
            (default ∅ (backups m !! snapshot_dir) ∪ state_files m) m);;
        modify (set_current_version version_wanted);;
        _save_version_history;;
        mret true
  end.

Definition get_version_history (m : StateManager) : list VersionEntry :=
  versions m.

Definition cleanup_old_snapshots (keep_count : Z) : M StateManager unit :=
  m ← get;
  if Z.of_nat (length (versions m)) <=? keep_count then mret tt
  else
    let sorted_versions :=
      py_sorted (fun y x => String.ltb (timestamp x) (timestamp y))
        (versions m) in
    let keep_versions := slice_to keep_count sorted_versions in
    let remove_versions := slice_from keep_count sorted_versions in
    modify (fun m =>
      set_backups
        (foldl (fun bs v => delete (snapshot_dir v) bs) (backups m)
           remove_versions) m);;
    modify (set_versions keep_versions);;
    _save_version_history.

End Clock.

(** A manager as [__init__] leaves it in a fresh workspace: no state file
    yet, no snapshot, version [1.0.0]. *)
Definition fresh (backup_dir : string) : StateManager :=
  {| backup_dir := backup_dir;
     current_version := "1.0.0";
     versions := [];
     state_files := ∅;
     backups := ∅;
     clock := 0 |}.

(** The text that [_save_version_history] writes. *)
Definition index_text (current : string) (vs : list VersionEntry)
    (last_updated : string) : string :=
  json_dump
    (JObj [("current_version", JStr current);
           ("versions", JList (map entry_json vs));
           ("last_updated", JStr last_updated)]).

(** The entry that [create_snapshot] appends. *)
Definition new_entry utcnow (label : option string) (increment : string)
    (metadata : list (string * string)) (new_version : string)
    (m : StateManager) : VersionEntry :=
  {| version := new_version;
     label := label;
     timestamp := utcnow (clock m);
     increment_type := increment;
     state_hash := _calculate_state_hash (state_files m);
     file_count := size (state_files m);
     metadata := metadata;
     snapshot_dir := backup_dir m +:+ "/v" +:+ new_version |}.

(** ** A workspace for the examples *)

(** A workspace whose state directory holds one file, [a.json]. *)
Definition ws0 : StateManager :=
  set_state_files {[ ["a.json"] := "{}" ]} (fresh "/ws/backups/system").

(** [create_snapshot()], twice. *)
Definition ws1 : StateManager := (create_snapshot demo_clock None "patch" [] ws0).2.
Definition ws2 : StateManager := (create_snapshot demo_clock None "patch" [] ws1).2.
(** [restore_snapshot("1.0.1")] *)
Definition ws3 : StateManager := (restore_snapshot demo_clock "1.0.1" ws2).2.

(** The same workspace when [a.json] is edited between the first two
    snapshots. *)
Definition edited1 : StateManager :=
  set_state_files (<[ ["a.json"] := "[1]" ]> (state_files ws1)) ws1.
Definition edited2 : StateManager :=
  (create_snapshot demo_clock None "patch" [] edited1).2.
Definition edited3 : StateManager :=
  (restore_snapshot demo_clock "1.0.1" edited2).2.
Definition edited4 : StateManager :=
  (create_snapshot demo_clock None "patch" [] edited3).2.

(** The file [p] of the snapshot directory [dir]. *)
Definition snapshot_file (m : StateManager) (dir : string) (p : list string)
  : option string :=
  backups m !! dir ≫= (.!! p).

(** The entries in the order in which [cleanup_old_snapshots] ranks them:
    latest timestamp first. *)
Definition by_timestamp_desc (vs : list VersionEntry) : list VersionEntry :=
  py_sorted (fun y x => String.ltb (timestamp x) (timestamp y)) vs.

(** [map(int, version.split('.'))], the numbers that [_increment_version]
    unpacks. *)
Definition version_numbers (version : string) : list (option Z) :=
  map py_int (split_on "." version).

(** A version string from which [_increment_version] gets three numbers. *)
Definition well_formed (version : string) : Prop :=
  exists major minor patch,
    version_numbers version = [Some major; Some minor; Some patch].

(** The current version and the versions of the history are well formed. *)
Definition well_versioned (m : StateManager) : Prop :=
  well_formed (current_version m)
  /\ forall e, e ∈ versions m -> well_formed (version e).

(** The numbers after an increment. *)
Definition incremented (increment : string) (n : Z * Z * Z) : Z * Z * Z :=
  let '(major, minor, patch) := n in
  if String.eqb increment "major" then (major + 1, 0, 0)
  else if String.eqb increment "minor" then (major, minor + 1, 0)
  else (major, minor, patch + 1).

(** The order of version numbers: by major, then minor, then patch. *)
Definition version_lt (n n' : Z * Z * Z) : Prop :=
  let '(major, minor, patch) := n in
  let '(major', minor', patch') := n' in
  major < major'
  \/ (major = major' /\ (minor < minor' \/ (minor = minor' /\ patch < patch'))).

Section Calls.
Variable utcnow : nat -> string.

(** ** Sequences of calls *)
Inductive call : Type :=
| CreateSnapshot (label : option string) (increment : string)
    (metadata : list (string * string))
| RestoreSnapshot (version : string)
| CleanupOldSnapshots (keep_count : Z).

Definition perform (k : call) : M StateManager unit :=
  match k with
  | CreateSnapshot label increment metadata =>
      create_snapshot utcnow label increment metadata;; mret tt
  | RestoreSnapshot version => restore_snapshot utcnow version;; mret tt
  | CleanupOldSnapshots keep_count => cleanup_old_snapshots utcnow keep_count
  end.

(** The calls one after the other, as a caller without [try] makes them:
    the first exception ends the run. *)
Fixpoint perform_all (ks : list call) : M StateManager unit :=
  match ks with
  | [] => mret tt
  | k :: ks => perform k;; perform_all ks
  end.

End Calls.

End StateStore.

(* ===================================================================== *)
(** * core/agent_base.py and core/orchestrator.py *)
(* ===================================================================== *)

Module Orchestrator.

Inductive AgentPriority : Type :=
| LOW
| MEDIUM
| HIGH
| CRITICAL.

(** [priority.value] *)
Definition value (p : AgentPriority) : Z :=
  match p with
  | LOW => 1
  | MEDIUM => 2
  | HIGH => 3
  | CRITICAL => 4
  end.

Inductive AutonomyLevel : Type :=
| MANUAL
| SEMI_AUTO
| FULL_AUTO.

Definition level_value (l : AutonomyLevel) : string :=
  match l with
  | MANUAL => "manual"
  | SEMI_AUTO => "semi_auto"
  | FULL_AUTO => "full_auto"
  end.

Inductive TaskStatus : Type :=
| QUEUED
| WAITING_APPROVAL
| APPROVED
| RUNNING
| COMPLETED
| FAILED
| CANCELLED.

#[global] Instance AgentPriority_eq_dec : EqDecision AgentPriority.
Proof. solve_decision. Defined.
#[global] Instance AutonomyLevel_eq_dec : EqDecision AutonomyLevel.
Proof. solve_decision. Defined.
#[global] Instance TaskStatus_eq_dec : EqDecision TaskStatus.
Proof. solve_decision. Defined.

(** ** Dictionaries of scalars and their [==] *)

(** [True == 1] and [False == 0] in Python. *)
Definition as_number (v : pyval) : pyval :=
  match v with
  | PBool b => PInt (if b then 1 else 0)
  | _ => v
  end.

Definition dict_eqb (d1 d2 : gmap string pyval) : bool :=
  bool_decide (as_number <$> d1 = as_number <$> d2).

Definition option_eqb {A} (eqb : A -> A -> bool) (o1 o2 : option A) : bool :=
  match o1, o2 with
  | Some a1, Some a2 => eqb a1 a2
  | None, None => true
  | _, _ => false
  end.

(** ** Tasks and task wrappers *)

(** The task dictionary of a caller: its ["id"] entry when it has one,
    its ["name"] entry, and its ["params"]. *)
Record Task : Type := mkTask {
  id : option string;
  name : option string;
  params : gmap string pyval;
}.

Definition task_eqb (t1 t2 : Task) : bool :=
  bool_decide (id t1 = id t2) && bool_decide (name t1 = name t2)
  && dict_eqb (params t1) (params t2).

(** The dictionary that [submit_task] builds around a task. *)
Record TaskWrapper : Type := mkWrapper {
  task_id : string;
  agent_name : string;
  task : Task;
  priority : AgentPriority;
  dependencies : list string;
  requires_approval : bool;
  status : TaskStatus;
  submitted_at : string;
  started_at : option string;
  completed_at : option string;
  result : option (gmap string pyval);
}.

Definition set_status (st : TaskStatus) (w : TaskWrapper) : TaskWrapper :=
  mkWrapper (task_id w) (agent_name w) (task w) (priority w) (dependencies w)
    (requires_approval w) st (submitted_at w) (started_at w) (completed_at w)
    (result w).
Definition set_started_at (t : string) (w : TaskWrapper) : TaskWrapper :=
  mkWrapper (task_id w) (agent_name w) (task w) (priority w) (dependencies w)
    (requires_approval w) (status w) (submitted_at w) (Some t) (completed_at w)
    (result w).
Definition set_completed_at (t : string) (w : TaskWrapper) : TaskWrapper :=
  mkWrapper (task_id w) (agent_name w) (task w) (priority w) (dependencies w)
    (requires_approval w) (status w) (submitted_at w) (started_at w) (Some t)
    (result w).
Definition set_result (r : gmap string pyval) (w : TaskWrapper) : TaskWrapper :=
  mkWrapper (task_id w) (agent_name w) (task w) (priority w) (dependencies w)
    (requires_approval w) (status w) (submitted_at w) (started_at w)
    (completed_at w) (Some r).

(** [w1 == w2] on two wrapper dictionaries. *)
Definition wrapper_eqb (w1 w2 : TaskWrapper) : bool :=
  bool_decide (task_id w1 = task_id w2)
  && bool_decide (agent_name w1 = agent_name w2)
  && task_eqb (task w1) (task w2)
  && bool_decide (priority w1 = priority w2)
  && bool_decide (dependencies w1 = dependencies w2)
  && bool_decide (requires_approval w1 = requires_approval w2)
  && bool_decide (status w1 = status w2)
  && bool_decide (submitted_at w1 = submitted_at w2)
  && bool_decide (started_at w1 = started_at w2)
  && bool_decide (completed_at w1 = completed_at w2)
  && option_eqb dict_eqb (result w1) (result w2).

(** ** The priority queue

    [queue.PriorityQueue] keeps its entries in a list ordered as a binary
    heap and maintains it with [heapq.heappush] and [heapq.heappop], here
    as CPython's [_heapq] runs them: an entry moves by exchanging places
    with its parent or child, so that a comparison that raises leaves all
    entries in the list. An entry is the tuple [(priority, task_wrapper)]. *)

(** [a < b] on two entries: the numbers decide when they differ; when
    they are equal the wrappers are compared, and two unequal
    dictionaries have no order ([TypeError]). *)
Definition entry_lt (a b : Z * TaskWrapper) : outcome bool :=
  if a.1 =? b.1 then
    if wrapper_eqb a.2 b.2 then Returns false else Raises TypeError
  else Returns (a.1 <? b.1).

(** Exchanges the entries at [i] and [j]. *)
Definition swap {A} (i j : nat) (l : list A) : list A :=
  match l !! i, l !! j with
  | Some x, Some y => <[j := x]> (<[i := y]> l)
  | _, _ => l
  end.

(** [_siftdown(heap, startpos, pos)]: the entry at [pos] moves towards
    the root while it is smaller than its parent. [pos] decreases at each
    turn of the loop, so [fuel = pos] turns are enough. *)
Fixpoint siftdown_loop (fuel : nat) (heap : list (Z * TaskWrapper))
    (startpos pos : nat) : outcome unit * list (Z * TaskWrapper) :=
  match fuel with
  | O => (Returns tt, heap)
  | S fuel' =>
      if (startpos <? pos)%nat then
        let parentpos := ((pos - 1) / 2)%nat in
        match heap !! pos, heap !! parentpos with
        | Some newitem, Some parent =>
            match entry_lt newitem parent with
            | Raises e => (Raises e, heap)
            | Returns false => (Returns tt, heap)
            | Returns true =>
                siftdown_loop fuel' (swap pos parentpos heap) startpos parentpos
            end
        | _, _ => (Returns tt, heap)
        end
      else (Returns tt, heap)
  end.

Definition _siftdown (heap : list (Z * TaskWrapper)) (startpos pos : nat)
  : outcome unit * list (Z * TaskWrapper) :=
  siftdown_loop pos heap startpos pos.

(** The loop of [_siftup(heap, pos)]: the smaller child moves up until a
    leaf is reached; the result is the final position. [pos] grows at each
    turn and stays below the length, so [fuel = len(heap)] is enough. *)
Fixpoint siftup_loop (fuel : nat) (heap : list (Z * TaskWrapper)) (pos : nat)
  : outcome nat * list (Z * TaskWrapper) :=
  match fuel with
  | O => (Returns pos, heap)
  | S fuel' =>
      let endpos := length heap in
      if (pos <? endpos / 2)%nat then
        let childpos := (2 * pos + 1)%nat in
        let chosen :=
          if (childpos + 1 <? endpos)%nat then
            match heap !! childpos, heap !! (childpos + 1)%nat with
            | Some a, Some b =>
                match entry_lt a b with
                | Raises e => Raises e
                | Returns true => Returns childpos
                | Returns false => Returns (childpos + 1)%nat
                end
            | _, _ => Returns childpos
            end
          else Returns childpos in
        match chosen with
        | Raises e => (Raises e, heap)
        | Returns childpos => siftup_loop fuel' (swap pos childpos heap) childpos
        end
      else (Returns pos, heap)
  end.

Definition _siftup (heap : list (Z * TaskWrapper)) (pos : nat)
  : outcome unit * list (Z * TaskWrapper) :=
  match siftup_loop (length heap) heap pos with
  | (Returns pos', heap') => _siftdown heap' pos pos'
  | (Raises e, heap') => (Raises e, heap')
  end.

(** [heapq.heappush(heap, item)] *)
Definition heappush (heap : list (Z * TaskWrapper)) (item : Z * TaskWrapper)
  : outcome unit * list (Z * TaskWrapper) :=
  _siftdown (heap ++ [item])%list 0 (length heap).

(** [heapq.heappop(heap)] on a heap that is not empty ([None] when it is:
    the worker loop only pops after [empty()] was false). *)
Definition heappop (heap : list (Z * TaskWrapper))
  : option (outcome (Z * TaskWrapper) * list (Z * TaskWrapper)) :=
  match last heap with
  | None => None
  | Some lastelt =>
      let heap := removelast heap in
      match heap with
      | [] => Some (Returns lastelt, heap)
      | returnitem :: _ =>
          match _siftup (<[0%nat := lastelt]> heap) 0 with
          | (Returns _, heap') => Some (Returns returnitem, heap')
          | (Raises e, heap') => Some (Raises e, heap')
          end
      end
  end.


(** ** What [json.dump] is given *)

(** The objects that [_save_state] hands to [json.dump]: the JSON types,
    and the members of the two enumerations. *)
#[local] Set Warnings "-register-all".
Inductive pyobj : Type :=
| ONone
| OBool (b : bool)
| OInt (n : Z)
| OStr (s : string)
| OList (items : list pyobj)
| ODict (members : list (string * pyobj))
| OStatus (s : TaskStatus)
| OPriority (p : AgentPriority).

(** [json.dump] raises [TypeError] on an object that is not of a JSON
    type; a plain [Enum] member is not. *)
Fixpoint json_serializable (o : pyobj) : bool :=
  match o with
  | ONone | OBool _ | OInt _ | OStr _ => true
  | OList items => forallb json_serializable items
  | ODict members => forallb (fun kv => json_serializable kv.2) members
  | OStatus _ | OPriority _ => false
  end.

Definition scalar_obj (v : pyval) : pyobj :=
  match v with
  | PNone => ONone
  | PBool b => OBool b
  | PInt n => OInt n
  | PStr s => OStr s
  end.

Definition dict_obj (d : gmap string pyval) : pyobj :=
  ODict (map (fun kv => (kv.1, scalar_obj kv.2)) (map_to_list d)).

Definition option_obj {A} (f : A -> pyobj) (o : option A) : pyobj :=
  match o with
  | Some a => f a
  | None => ONone
  end.

Definition task_obj (t : Task) : pyobj :=
  ODict ([("params", dict_obj (params t))]
         ++ match name t with Some n => [("name", OStr n)] | None => [] end
         ++ match id t with Some i => [("id", OStr i)] | None => [] end)%list.

(** The members of a wrapper dictionary, in the order of its keys. *)
Definition wrapper_members (w : TaskWrapper) : list (string * pyobj) :=
  [("task_id", OStr (task_id w));
   ("agent_name", OStr (agent_name w));
   ("task", task_obj (task w));
   ("priority", OPriority (priority w));
   ("dependencies", OList (map OStr (dependencies w)));
   ("requires_approval", OBool (requires_approval w));
   ("status", OStatus (status w));
   ("submitted_at", OStr (submitted_at w));
   ("started_at", option_obj OStr (started_at w));
   ("completed_at", option_obj OStr (completed_at w));
   ("result", option_obj dict_obj (result w))].

Definition wrapper_obj (w : TaskWrapper) : pyobj := ODict (wrapper_members w).

(** ** The orchestrator *)

(** What the orchestrator reads of a registered agent (its [state], a
    string in the saved document, is left out). *)
Record Agent : Type := mkAgent {
  agent_id : string;
  agent_label : string;    (* [agent.name] *)
  agent_type : string;     (* [type(agent).__name__] *)
}.

(** What [agent.execute_task(task)] does: it returns a result dictionary,
    or raises an [Exception] with the given message, or raises an
    exception outside [Exception] ([SystemExit], [KeyboardInterrupt]),
    which the [except Exception] of [_execute_task] does not catch. *)
Inductive agent_outcome : Type :=
| AgentReturns (r : gmap string pyval)
| AgentRaises (message : string)
| AgentExits.

(** [state/orchestrator_state.json]: absent, cut short by a [json.dump]
    that raised, or a complete document. *)
Inductive StateFile : Type :=
| NoFile
| Truncated
| Document (data : pyobj).

(** The fields of the orchestrator, its state file, and the readings of
    its environment:
    - [agents] is the dictionary [agent_id -> agent] in insertion order;
    - [task_queue] is the heap list of the [PriorityQueue];
    - [clock], [draws] and [calls] count the readings of [utcnow], the
      [uuid4] draws and the calls of [agent.execute_task];
    - [dispatched] lists the wrappers whose task was handed to an agent,
      oldest first. *)
Record Orchestrator : Type := mkOrchestrator {
  orchestrator_id : string;
  autonomy_level : AutonomyLevel;
  agents : list (string * Agent);
  task_queue : list (Z * TaskWrapper);
  pending_approval : list TaskWrapper;
  active_tasks : gmap string TaskWrapper;
  completed_tasks : list TaskWrapper;
  task_graph : gmap string (gset string);
  state_file : StateFile;
  clock : nat;
  draws : nat;
  calls : nat;
  dispatched : list TaskWrapper;
}.

Definition set_autonomy (l : AutonomyLevel) (s : Orchestrator) : Orchestrator :=
  mkOrchestrator (orchestrator_id s) l (agents s) (task_queue s)
    (pending_approval s) (active_tasks s) (completed_tasks s) (task_graph s)
    (state_file s) (clock s) (draws s) (calls s) (dispatched s).
Definition set_agents (a : list (string * Agent)) (s : Orchestrator)
  : Orchestrator :=
  mkOrchestrator (orchestrator_id s) (autonomy_level s) a (task_queue s)
    (pending_approval s) (active_tasks s) (completed_tasks s) (task_graph s)
    (state_file s) (clock s) (draws s) (calls s) (dispatched s).
Definition set_task_queue (q : list (Z * TaskWrapper)) (s : Orchestrator)
  : Orchestrator :=
  mkOrchestrator (orchestrator_id s) (autonomy_level s) (agents s) q
    (pending_approval s) (active_tasks s) (completed_tasks s) (task_graph s)
    (state_file s) (clock s) (draws s) (calls s) (dispatched s).
Definition set_pending_approval (p : list TaskWrapper) (s : Orchestrator)
  : Orchestrator :=
  mkOrchestrator (orchestrator_id s) (autonomy_level s) (agents s)
    (task_queue s) p (active_tasks s) (completed_tasks s) (task_graph s)
    (state_file s) (clock s) (draws s) (calls s) (dispatched s).
Definition set_active_tasks (a : gmap string TaskWrapper) (s : Orchestrator)
  : Orchestrator :=
  mkOrchestrator (orchestrator_id s) (autonomy_level s) (agents s)
    (task_queue s) (pending_approval s) a (completed_tasks s) (task_graph s)
    (state_file s) (clock s) (draws s) (calls s) (dispatched s).
Definition set_completed_tasks (c : list TaskWrapper) (s : Orchestrator)
  : Orchestrator :=
  mkOrchestrator (orchestrator_id s) (autonomy_level s) (agents s)
    (task_queue s) (pending_approval s) (active_tasks s) c (task_graph s)
    (state_file s) (clock s) (draws s) (calls s) (dispatched s).
Definition set_task_graph (g : gmap string (gset string)) (s : Orchestrator)
  : Orchestrator :=
  mkOrchestrator (orchestrator_id s) (autonomy_level s) (agents s)
    (task_queue s) (pending_approval s) (active_tasks s) (completed_tasks s) g
    (state_file s) (clock s) (draws s) (calls s) (dispatched s).
Definition set_state_file (f : StateFile) (s : Orchestrator) : Orchestrator :=
  mkOrchestrator (orchestrator_id s) (autonomy_level s) (agents s)
    (task_queue s) (pending_approval s) (active_tasks s) (completed_tasks s)
    (task_graph s) f (clock s) (draws s) (calls s) (dispatched s).
Definition set_clock (n : nat) (s : Orchestrator) : Orchestrator :=
  mkOrchestrator (orchestrator_id s) (autonomy_level s) (agents s)
    (task_queue s) (pending_approval s) (active_tasks s) (completed_tasks s)
    (task_graph s) (state_file s) n (draws s) (calls s) (dispatched s).
Definition set_draws (n : nat) (s : Orchestrator) : Orchestrator :=
  mkOrchestrator (orchestrator_id s) (autonomy_level s) (agents s)
    (task_queue s) (pending_approval s) (active_tasks s) (completed_tasks s)
    (task_graph s) (state_file s) (clock s) n (calls s) (dispatched s).
Definition record_call (w : TaskWrapper) (s : Orchestrator) : Orchestrator :=
  mkOrchestrator (orchestrator_id s) (autonomy_level s) (agents s)
    (task_queue s) (pending_approval s) (active_tasks s) (completed_tasks s)
    (task_graph s) (state_file s) (clock s) (draws s) (S (calls s))
    (dispatched s ++ [w]).

(** The orchestrator that [__init__] builds in a new workspace. *)
Definition initial (orchestrator_id : string) (level : AutonomyLevel)
  : Orchestrator :=
  {| orchestrator_id := orchestrator_id;
     autonomy_level := level;
     agents := [];
     task_queue := [];
     pending_approval := [];
     active_tasks := ∅;
     completed_tasks := [];
     task_graph := ∅;
     state_file := NoFile;
     clock := 0;
     draws := 0;
     calls := 0;
     dispatched := [] |}.

(** [d[k] = v] on a dictionary kept in insertion order. *)
Fixpoint dict_set {V} (k : string) (v : V) (d : list (string * V))
  : list (string * V) :=
  match d with
  | [] => [(k, v)]
  | (k', v') :: d' =>
      if String.eqb k k' then (k, v) :: d' else (k', v') :: dict_set k v d'
  end.

Definition state_data (s : Orchestrator) (stamp : string) : pyobj :=
  ODict [("orchestrator_id", OStr (orchestrator_id s));
         ("autonomy_level", OStr (level_value (autonomy_level s)));
         ("agents",
          ODict (map (fun ka =>
                        (ka.1, ODict [("name", OStr (agent_label ka.2));
                                      ("type", OStr (agent_type ka.2))]))
                     (agents s)));
         ("active_tasks",
          ODict (map (fun kw => (kw.1, wrapper_obj kw.2))
                     (map_to_list (active_tasks s))));
         ("completed_tasks",
          OList (map wrapper_obj
                   (drop (length (completed_tasks s) - 100) (completed_tasks s))));
         ("pending_approval", OList (map wrapper_obj (pending_approval s)));
         ("timestamp", OStr stamp)].

(** [t["status"] == TaskStatus.COMPLETED] for [t] in [completed_tasks] *)
Definition completed_ids (s : Orchestrator) : gset string :=
  list_to_set
    (task_id <$> filter (fun t => status t = COMPLETED) (completed_tasks s)).

Definition _dependencies_met (task_id : string) (s : Orchestrator) : bool :=
  match task_graph s !! task_id with
  | None => true
  | Some dependencies => bool_decide (dependencies ⊆ completed_ids s)
  end.

Definition _find_agent_by_name (agent_name : string) (s : Orchestrator)
  : option Agent :=
  snd <$> find (fun ka => String.eqb (agent_label ka.2) agent_name) (agents s).

Section Environment.

(** The environment: the [n]-th reading of the clock, the first eight
    hexadecimal digits of the [n]-th [uuid4], and what the [n]-th call of
    [execute_task] does, given the agent and the task. *)
Variable utcnow : nat -> string.
Variable uuid4_hex8 : nat -> string.
Variable agent_execute : nat -> Agent -> Task -> agent_outcome.

Definition utc_now : M Orchestrator string :=
  fun s => (Returns (utcnow (clock s)), set_clock (S (clock s)) s).

Definition uuid4 : M Orchestrator string :=
  fun s => (Returns (uuid4_hex8 (draws s)), set_draws (S (draws s)) s).

Definition execute_task (agent : Agent) (w : TaskWrapper)
  : M Orchestrator agent_outcome :=
  fun s => (Returns (agent_execute (calls s) agent (task w)), record_call w s).

Definition _save_state : M Orchestrator unit :=
  stamp ← utc_now;
  s ← get;
  let data := state_data s stamp in
  if json_serializable data then modify (set_state_file (Document data))
  else modify (set_state_file Truncated);; raise TypeError.

(** [self.task_queue.put(item)] and [self.task_queue.get(timeout=1)], which
    raises [queue.Empty] when the queue stays empty. *)
Definition queue_put (item : Z * TaskWrapper) : M Orchestrator unit :=
  fun s =>
    let '(r, heap) := heappush (task_queue s) item in
    (r, set_task_queue heap s).

Definition queue_get : M Orchestrator (Z * TaskWrapper) :=
  fun s =>
    match heappop (task_queue s) with
    | Some (r, heap) => (r, set_task_queue heap s)
    | None => (Raises QueueEmpty, s)
    end.

Definition register_agent (agent : Agent) : M Orchestrator unit :=
  modify (fun s => set_agents (dict_set (agent_id agent) agent (agents s)) s);;
  _save_state.

Definition unregister_agent (agent_id : string) : M Orchestrator unit :=
  s ← get;
  if existsb (fun ka => String.eqb ka.1 agent_id) (agents s) then
    modify (set_agents
              (filter (fun ka => ka.1 <> agent_id) (agents s)));;
    _save_state
  else mret tt.

Definition submit_task (agent_name : string) (task : Task)
    (priority : AgentPriority) (dependencies : option (list string))
    (requires_approval : bool) : M Orchestrator string :=
  generated ← uuid4;
  let task_id := default ("task_" +:+ generated) (id task) in
  let task := mkTask (Some task_id) (name task) (params task) in
  s ← get;
  now ← utc_now;
  let task_wrapper :=
    {| task_id := task_id;
       agent_name := agent_name;
       task := task;
       priority := priority;
       dependencies := default [] dependencies;
       requires_approval :=
         requires_approval || bool_decide (autonomy_level s = MANUAL);
       status := QUEUED;
       submitted_at := now;
       started_at := None;
       completed_at := None;
       result := None |} in
  (* Store dependencies *)
  match dependencies with
  | Some (d :: ds) =>
      modify (fun s => set_task_graph
                         (<[task_id := list_to_set (d :: ds)]> (task_graph s)) s)
  | _ => mret tt
  end;;
  (* Check if approval needed *)
  (if requires_approval || bool_decide (autonomy_level s = MANUAL) then
     modify (fun s =>
       set_pending_approval
         (pending_approval s ++ [set_status WAITING_APPROVAL task_wrapper]) s)
   else
     queue_put (value priority, task_wrapper));;
  _save_state;;
  mret task_id.

Definition approve_task (wanted : string) : M Orchestrator bool :=
  s ← get;
  match list_find (fun w => task_id w = wanted) (pending_approval s) with
  | Some (i, task_wrapper) =>
      modify (set_pending_approval (delete i (pending_approval s)));;
      let task_wrapper := set_status APPROVED task_wrapper in
      queue_put (value (priority task_wrapper), task_wrapper);;
      _save_state;;
      mret true
  | None => mret false
  end.

Definition reject_task (wanted : string) (reason : string)
  : M Orchestrator bool :=
  s ← get;
  match list_find (fun w => task_id w = wanted) (pending_approval s) with
  | Some (i, task_wrapper) =>
      modify (set_pending_approval (delete i (pending_approval s)));;
      let task_wrapper :=
        set_result {["error" := PStr reason]}
          (set_status CANCELLED task_wrapper) in
      modify (fun s =>
        set_completed_tasks (completed_tasks s ++ [task_wrapper]) s);;
      _save_state;;
      mret true
  | None => mret false
  end.

Definition get_pending_approvals (s : Orchestrator) : list TaskWrapper :=
  pending_approval s.

Definition set_autonomy_level (level : AutonomyLevel) : M Orchestrator unit :=
  modify (set_autonomy level);;
  _save_state.

Definition _execute_task (task_wrapper : TaskWrapper) : M Orchestrator unit :=
  s ← get;
  match _find_agent_by_name (agent_name task_wrapper) s with
  | None =>
      let task_wrapper :=
        set_result
          {["error" := PStr ("Agent not found: " +:+ agent_name task_wrapper)]}
          (set_status FAILED task_wrapper) in
      modify (fun s =>
        set_completed_tasks (completed_tasks s ++ [task_wrapper]) s)
  | Some agent =>
      (* Update status *)
      started ← utc_now;
      let task_wrapper :=
        set_started_at started (set_status RUNNING task_wrapper) in
      modify (fun s =>
        set_active_tasks
          (<[task_id task_wrapper := task_wrapper]> (active_tasks s)) s);;
      (* try: execute the task on the agent; except: record the failure *)
      outcome ← execute_task agent task_wrapper;
      finished ←
        match outcome with
        | AgentReturns r =>
            let task_wrapper := set_result r task_wrapper in
            match r !! "status" with
            | Some st =>
                completed ← utc_now;
                mret (set_completed_at completed
                        (set_status
                           (if bool_decide (st = PStr "success")
                            then COMPLETED else FAILED)
                           task_wrapper))
            | None =>
                mret (set_result {["error" := PStr "'status'"]}
                        (set_status FAILED task_wrapper))
            end
        | AgentRaises message =>
            mret (set_result {["error" := PStr message]}
                    (set_status FAILED task_wrapper))
        | AgentExits => mret task_wrapper
        end;
      (* finally: move to completed *)
      modify (fun s =>
        set_active_tasks (delete (task_id task_wrapper) (active_tasks s)) s);;
      modify (fun s =>
        set_completed_tasks (completed_tasks s ++ [finished]) s);;
      _save_state;;
      (* an exception that no [except] has caught goes on *)
      match outcome with
      | AgentExits => raise SystemExit
      | _ => mret tt
      end
  end.

(** One turn of the [while self.running] loop of [_worker_loop]. *)
Definition _worker_loop_turn : M Orchestrator unit :=
  try_except
    (s ← get;
     if negb (bool_decide (task_queue s = [])) then
       item ← queue_get;
       let '(priority, task_wrapper) := item in
       (* Check dependencies *)
       s ← get;
       if negb (_dependencies_met (task_id task_wrapper) s) then
         (* Re-queue with lower priority *)
         queue_put (priority + 1, task_wrapper)
       else
         (* Execute task *)
         _execute_task task_wrapper
     else mret tt).

(** One turn of the loop of [_monitor_loop]: the health checks only log. *)
Definition _monitor_loop_turn : M Orchestrator unit :=
  try_except _save_state.

Definition get_task_status (wanted : string) (s : Orchestrator)
  : option TaskWrapper :=
  match active_tasks s !! wanted with
  | Some w => Some w
  | None =>
      match find (fun w => String.eqb (task_id w) wanted) (completed_tasks s) with
      | Some w => Some w
      | None =>
          find (fun w => String.eqb (task_id w) wanted) (pending_approval s)
      end
  end.

(** ** Executions

    What can happen to an orchestrator: a call of one of its public
    methods by a user, or a turn of one of its two loops. *)
Inductive action : Type :=
| RegisterAgent (agent : Agent)
| UnregisterAgent (agent_id : string)
| SubmitTask (agent_name : string) (task : Task) (priority : AgentPriority)
    (dependencies : option (list string)) (requires_approval : bool)
| ApproveTask (task_id : string)
| RejectTask (task_id : string) (reason : string)
| SetAutonomyLevel (level : AutonomyLevel)
| WorkerTurn
| MonitorTurn.

(** The state after an action; an exception that a method raises goes to
    its caller and leaves the state as it was when it was raised. *)
Definition perform (a : action) (s : Orchestrator) : Orchestrator :=
  match a with
  | RegisterAgent agent => (register_agent agent s).2
  | UnregisterAgent agent_id => (unregister_agent agent_id s).2
  | SubmitTask agent_name task priority dependencies requires_approval =>
      (submit_task agent_name task priority dependencies requires_approval s).2
  | ApproveTask task_id => (approve_task task_id s).2
  | RejectTask task_id reason => (reject_task task_id reason s).2
  | SetAutonomyLevel level => (set_autonomy_level level s).2
  | WorkerTurn => (_worker_loop_turn s).2
  | MonitorTurn => (_monitor_loop_turn s).2
  end.

Definition execution (actions : list action) (s : Orchestrator) : Orchestrator :=
  foldl (fun s a => perform a s) s actions.

(** The wrapper that [submit_task] builds. *)
Definition new_wrapper (agent_name : string) (task : Task)
    (priority : AgentPriority) (dependencies : option (list string))
    (requires_approval : bool) (s : Orchestrator) : TaskWrapper :=
  let task_id := default ("task_" +:+ uuid4_hex8 (draws s)) (id task) in
  {| task_id := task_id;
     agent_name := agent_name;
     task := mkTask (Some task_id) (name task) (params task);
     priority := priority;
     dependencies := default [] dependencies;
     requires_approval :=
       requires_approval || bool_decide (autonomy_level s = MANUAL);
     status := QUEUED;
     submitted_at := utcnow (clock s);
     started_at := None;
     completed_at := None;
     result := None |}.

(** The id that [submit_task] gives to a task in state [s]. *)
Definition assigned_id (s : Orchestrator) (task : Task) : string :=
  default ("task_" +:+ uuid4_hex8 (draws s)) (id task).

(** The ids that the [submit_task] calls of an execution assign. *)
Definition action_ids (a : action) (s : Orchestrator) : list string :=
  match a with
  | SubmitTask _ task _ _ _ => [assigned_id s task]
  | _ => []
  end.

Fixpoint submitted_ids (actions : list action) (s : Orchestrator)
  : list string :=
  match actions with
  | [] => []
  | a :: rest =>
      (action_ids a s ++ submitted_ids rest (perform a s))%list
  end.

End Environment.

(** ** Waiting tasks and their dependencies *)

(** The dependencies of a wrapper are on record in [task_graph]. *)
Definition registered (s : Orchestrator) (w : TaskWrapper) : Prop :=
  dependencies w = []
  \/ task_graph s !! task_id w = Some (list_to_set (dependencies w)).

(** What holds of an orchestrator whose tasks got the ids [ids]: every
    wrapper that waits, in the queue or for approval, has one of these ids
    and its dependencies on record, and every wrapper handed to an agent
    has all its dependencies among the completed tasks. *)
Record consistent (ids : list string) (s : Orchestrator) : Prop := {
  queue_registered :
    forall e, e ∈ task_queue s -> registered s e.2 /\ task_id e.2 ∈ ids;
  pending_registered :
    forall w, w ∈ pending_approval s -> registered s w /\ task_id w ∈ ids;
  dispatched_ready :
    forall w d, w ∈ dispatched s -> d ∈ dependencies w -> d ∈ completed_ids s;
}.

(** ** The environment of the examples *)

Definition demo_uuid (n : nat) : string :=
  "a3f0c1d" +:+ str_of_Z (Z.of_nat (n mod 10)).

(** Every agent call succeeds. *)
Definition demo_agents (n : nat) (a : Agent) (t : Task) : agent_outcome :=
  AgentReturns {["status" := PStr "success"]}.

Definition coder : Agent := mkAgent "agent_1" "coder" "CodeGeneratorAgent".

(** A new orchestrator at the default level, with one agent registered. *)
Definition started : Orchestrator :=
  perform demo_clock demo_uuid demo_agents (RegisterAgent coder)
    (initial "orchestrator_0" SEMI_AUTO).

(** The wrappers in line for an agent, and those handed to one, that
    were submitted as requiring approval carry an id that is [approved]. *)
Record gated (approved : string -> Prop) (s : Orchestrator) : Prop := {
  queue_gated :
    forall e, e ∈ task_queue s -> requires_approval e.2 = true ->
      approved (task_id e.2);
  dispatched_gated :
    forall w, w ∈ dispatched s -> requires_approval w = true ->
      approved (task_id w);
}.

(** The statuses of a task that has come to its end. *)
Definition terminal (st : TaskStatus) : Prop :=
  st = COMPLETED \/ st = FAILED \/ st = CANCELLED.

Section Records.
Variable utcnow : nat -> string.
Variable agent_execute : nat -> Agent -> Task -> agent_outcome.

(** The wrapper as [_execute_task] hands it to the agent in state [s]. *)
Definition running_wrapper (w : TaskWrapper) (s : Orchestrator) : TaskWrapper :=
  set_started_at (utcnow (clock s)) (set_status RUNNING w).

(** The wrapper that [_execute_task] appends to [completed_tasks] when
    [agent] has the name that the wrapper asks for. *)
Definition finished_wrapper (agent : Agent) (w : TaskWrapper) (s : Orchestrator)
  : TaskWrapper :=
  let running := running_wrapper w s in
  match agent_execute (calls s) agent (task w) with
  | AgentReturns r =>
      match r !! "status" with
      | Some st =>
          set_completed_at (utcnow (S (clock s)))
            (set_status (if bool_decide (st = PStr "success")
                         then COMPLETED else FAILED)
               (set_result r running))
      | None =>
          set_result {["error" := PStr "'status'"]}
            (set_status FAILED (set_result r running))
      end
  | AgentRaises message =>
      set_result {["error" := PStr message]} (set_status FAILED running)
  | AgentExits => running
  end.

(** A record of [completed_tasks]: a task that has come to its end, or a
    task whose agent raised an exception outside [Exception], which is
    recorded as it was while it ran. *)
Definition recorded (w : TaskWrapper) : Prop :=
  terminal (status w)
  \/ (status w = RUNNING
      /\ exists n agent, agent_execute n agent (task w) = AgentExits).

(** [s'] keeps the completed tasks of [s], with further records behind
    them; and if [s] has a completed task, the state file of [s'] is that
    of [s] or one that was cut short. *)
Definition later (s s' : Orchestrator) : Prop :=
  (exists ws, completed_tasks s' = (completed_tasks s ++ ws)%list
              /\ forall w, w ∈ ws -> recorded w)
  /\ (completed_tasks s <> [] ->
      state_file s' = state_file s \/ state_file s' = Truncated).

End Records.

End Orchestrator.

(* ===================================================================== *)
(** * Properties of the autonomy controller *)
(* ===================================================================== *)

Module AutonomyProps.
Import Autonomy.

Lemma revoke_approval_lookup op c (level : string) :
  approved_categories (revoke_approval op c) !! level
  = (fun s => s ∖ {[op]}) <$> (approved_categories c !! level).
Proof. unfold revoke_approval. simpl. by rewrite lookup_fmap. Qed.

Lemma approve_operation_lookup op stamp c (level : string) :
  approved_categories (approve_operation op stamp c).2 !! level
  = if decide (level = autonomy_level c)
    then (fun s => s ∪ {[op]}) <$> (approved_categories c !! level)
    else approved_categories c !! level.
Proof.
  unfold approve_operation. simpl.
  destruct (approved_categories c !! autonomy_level c) as [s|] eqn:E.
  - case_decide as Hl.
    + subst level. rewrite lookup_insert_eq, E. done.
    + by rewrite lookup_insert_ne.
  - case_decide as Hl; [subst level; by rewrite E | done].
Qed.

(** C4, the claim as stated fails: in the default configuration the
    current level is [semi_auto], yet revoking [READ_FILE] changes the
    approved set of [full_auto]. *)
Lemma revoke_approval_changes_other_level :
  autonomy_level default_controller = "semi_auto" /\
  approved_categories (revoke_approval READ_FILE default_controller)
    !! "full_auto"
  <> approved_categories default_controller !! "full_auto".
Proof.
  split; [reflexivity|].
  rewrite revoke_approval_lookup.
  unfold default_controller, _save_config; cbn [approved_categories].
  rewrite !lookup_insert_ne by done. rewrite lookup_insert_eq.
  cbn [fmap option_fmap option_map].
  intros H.
  assert (H' : full_auto_defaults ∖ {[READ_FILE]} = full_auto_defaults)
    by congruence.
  assert (Hin : READ_FILE ∈ full_auto_defaults)
    by (unfold full_auto_defaults; set_solver).
  rewrite <- H' in Hin. set_solver.
Qed.

(** C4 (amended): [revoke_approval] removes the category from the approved
    set of every level, the current one and all others alike;
    [approve_operation] adds the category to the set of the current level
    (when that level has a set) and leaves the set of every other level
    unchanged; both save the configuration at once. *)
Theorem approve_revoke_effect op stamp c (level : string) :
  approved_categories (revoke_approval op c) !! level
    = (fun s => s ∖ {[op]}) <$> (approved_categories c !! level)
  /\ approved_categories (approve_operation op stamp c).2 !! level
    = (if decide (level = autonomy_level c)
       then (fun s => s ∪ {[op]}) <$> (approved_categories c !! level)
       else approved_categories c !! level)
  /\ (doc_approved_categories <$> config_file (revoke_approval op c))
    = Some (approved_categories (revoke_approval op c))
  /\ (doc_approved_categories <$> config_file (approve_operation op stamp c).2)
    = Some (approved_categories (approve_operation op stamp c).2).
Proof.
  split; [apply revoke_approval_lookup|].
  split; [apply approve_operation_lookup|].
  split; reflexivity.
Qed.

(** With no context, or an empty one, an operation that passed the three
    level checks is never held back. *)
Lemma requires_approval_without_context c op context :
  context_given context = false ->
  op ∉ always_require_approval c ->
  autonomy_level c <> "manual" ->
  op ∈ get_approved_operations c ->
  requires_approval c op context = Returns false.
Proof.
  intros Hctx Halways Hlevel Happ. unfold requires_approval.
  rewrite bool_decide_eq_false_2 by done.
  destruct (String.eqb_spec (autonomy_level c) "manual") as [|_]; [done|].
  unfold get_approved_operations in Happ.
  rewrite (bool_decide_eq_true_2 _ Happ). simpl.
  by rewrite Hctx.
Qed.

(** With a context that has a key, the risk check works as the comment in
    the code says. *)
Lemma requires_approval_high_risk_with_context c op context :
  context_given context = true ->
  autonomy_level c = "semi_auto" ->
  operation_risks op ∈ [HIGH; CRITICAL] ->
  requires_approval c op context = Returns true.
Proof.
  intros Hctx Hlevel Hrisk. unfold requires_approval.
  case_bool_decide; [done|].
  rewrite Hlevel. simpl.
  destruct (negb _); [done|].
  rewrite Hctx. by rewrite (bool_decide_eq_true_2 _ Hrisk).
Qed.

(** C6, evaluated on the code: at level [semi_auto], with [DELETE_FILE]
    (static risk [HIGH]) in the approved set of [semi_auto],
    [requires_approval] answers false when no context or an empty context
    is passed, and true as soon as the context has a key. *)
Theorem requires_approval_high_risk_skipped :
  autonomy_level delete_approved = "semi_auto"
  /\ DELETE_FILE ∈ get_approved_operations delete_approved
  /\ operation_risks DELETE_FILE = HIGH
  /\ requires_approval delete_approved DELETE_FILE None = Returns false
  /\ requires_approval delete_approved DELETE_FILE (Some ∅) = Returns false
  /\ requires_approval delete_approved DELETE_FILE
       (Some {["agent" := PStr "tester"]}) = Returns true.
Proof.
  assert (Hin : DELETE_FILE ∈ get_approved_operations delete_approved).
  { unfold get_approved_operations, delete_approved.
    rewrite approve_operation_lookup.
    unfold approve_operation, default_controller, _save_config;
      cbn [approved_categories autonomy_level snd].
    rewrite decide_True by done.
    rewrite !lookup_insert_ne by done. rewrite lookup_insert_eq.
    cbn [fmap option_fmap option_map default]. set_solver. }
  assert (Hal : DELETE_FILE ∉ always_require_approval delete_approved).
  { unfold delete_approved, approve_operation, default_controller, _save_config;
      cbn [always_require_approval snd]. set_solver. }
  split; [reflexivity|]. split; [exact Hin|]. split; [reflexivity|].
  split; [by apply requires_approval_without_context|].
  split; [by apply requires_approval_without_context|].
  apply requires_approval_high_risk_with_context.
  - unfold context_given. apply negb_true_iff, bool_decide_eq_false_2.
    intros H. apply (f_equal (fun m => m !! "agent")) in H.
    by rewrite lookup_singleton_eq in H.
  - reflexivity.
  - cbn [operation_risks]. set_solver.
Qed.


Lemma after_call_always k c :
  always_require_approval (after_call k c) = always_require_approval c.
Proof.
  destruct k as [level|op stamp|op]; cbn; [|done|done].
  unfold set_autonomy_level. by case_bool_decide.
Qed.

Lemma after_calls_always ks c :
  always_require_approval (after_calls ks c) = always_require_approval c.
Proof.
  revert c. induction ks as [|k ks IH]; intros c; [done|].
  cbn [after_calls foldl]. fold (after_calls ks (after_call k c)).
  by rewrite IH, after_call_always.
Qed.

Lemma requires_approval_always c op context :
  op ∈ always_require_approval c -> requires_approval c op context = Returns true.
Proof. intros H. unfold requires_approval. by rewrite bool_decide_eq_true_2. Qed.

(** X1: an operation of [always_require_approval] requires approval
    whatever was called before: no sequence of [set_autonomy_level],
    [approve_operation] and [revoke_approval] calls lets it pass, at any
    level and with any context. *)
Theorem safety_boundary_holds_after_calls ks c op context :
  op ∈ always_require_approval c ->
  requires_approval (after_calls ks c) op context = Returns true.
Proof.
  intros H. apply requires_approval_always. by rewrite after_calls_always.
Qed.

(** An instance of X1. *)
Lemma safety_boundary_holds_after_calls_witness :
  requires_approval
    (after_calls [SetLevel "full_auto"; Approve GIT_PUSH "20240101000000"]
       default_controller)
    GIT_PUSH None = Returns true.
Proof.
  apply (safety_boundary_holds_after_calls
           [SetLevel "full_auto"; Approve GIT_PUSH "20240101000000"]
           default_controller GIT_PUSH None).
  unfold default_controller, _save_config; cbn [always_require_approval].
  set_solver.
Defined.


(** X2: at level [manual] every operation requires approval, also one
    that [approve_operation] has just approved. *)
Theorem manual_level_requires_approval c op stamp context :
  autonomy_level c = "manual" ->
  requires_approval c op context = Returns true
  /\ requires_approval (approve_operation op stamp c).2 op context = Returns true.
Proof.
  intros Hlevel. split; unfold requires_approval;
    cbn [approve_operation snd _save_config autonomy_level always_require_approval];
    rewrite Hlevel; by case_bool_decide.
Qed.

(** An instance of X2. *)
Lemma manual_level_requires_approval_witness :
  let c := after_call (SetLevel "manual") default_controller in
  requires_approval c READ_FILE None = Returns true
  /\ requires_approval (approve_operation READ_FILE "20240101000000" c).2
       READ_FILE None = Returns true.
Proof.
  apply (manual_level_requires_approval
           (after_call (SetLevel "manual") default_controller) READ_FILE
           "20240101000000" None).
  reflexivity.
Defined.

Lemma unapproved_revoke op c : unapproved op (revoke_approval op c).
Proof.
  intros level s. rewrite revoke_approval_lookup.
  destruct (approved_categories c !! level) as [s'|]; [|done].
  cbn. intros [= <-]. set_solver.
Qed.

Lemma unapproved_after_call op k c :
  (forall stamp, k <> Approve op stamp) ->
  unapproved op c -> unapproved op (after_call k c).
Proof.
  intros Hk Hc. destruct k as [lv|op' stamp|op']; cbn [after_call].
  - unfold set_autonomy_level. by case_bool_decide.
  - intros level s. rewrite approve_operation_lookup.
    case_decide as Hl; [|apply Hc].
    destruct (approved_categories c !! level) as [s'|] eqn:E; [|done].
    cbn. intros [= <-]. apply Hc in E.
    assert (op' <> op) by (intros ->; by eapply Hk). set_solver.
  - intros level s. rewrite revoke_approval_lookup.
    destruct (approved_categories c !! level) as [s'|] eqn:E; [|done].
    cbn. intros [= <-]. apply Hc in E. set_solver.
Qed.

Lemma unapproved_requires_approval op c context :
  unapproved op c -> requires_approval c op context = Returns true.
Proof.
  intros Hc. unfold requires_approval.
  case_bool_decide; [done|].
  destruct (String.eqb _ "manual"); [done|].
  destruct (approved_categories c !! autonomy_level c) as [s|] eqn:E; cbn [default].
  - apply Hc in E. by rewrite bool_decide_eq_false_2.
  - rewrite bool_decide_eq_false_2; [done|set_solver].
Qed.

(** X3: once [revoke_approval(op)] was called, [op] requires approval at
    every level and with every context, until [approve_operation(op)] is
    called again; changing the level, approving or revoking other
    operations does not bring it back. *)
Theorem revoked_operation_requires_approval ks c op context :
  (forall stamp, Approve op stamp ∉ ks) ->
  requires_approval (after_calls ks (revoke_approval op c)) op context
  = Returns true.
Proof.
  intros Hks. apply unapproved_requires_approval.
  assert (H0 := unapproved_revoke op c).
  revert H0. generalize (revoke_approval op c). clear c.
  induction ks as [|k ks IH]; intros c Hc; [done|].
  cbn [after_calls foldl]. fold (after_calls ks (after_call k c)).
  apply IH.
  - intros stamp Hin. apply (Hks stamp). by right.
  - apply unapproved_after_call; [|done].
    intros stamp ->. apply (Hks stamp). by left.
Qed.

(** An instance of X3. *)
Lemma revoked_operation_requires_approval_witness :
  requires_approval
    (after_calls [SetLevel "full_auto"; Approve WRITE_FILE "20240101000000"]
       (revoke_approval READ_FILE default_controller))
    READ_FILE None = Returns true.
Proof.
  apply (revoked_operation_requires_approval
           [SetLevel "full_auto"; Approve WRITE_FILE "20240101000000"]
           default_controller READ_FILE None).
  intros stamp H.
  apply elem_of_cons in H as [H|H]; [discriminate|].
  apply elem_of_cons in H as [H|H]; [discriminate|].
  by apply elem_of_nil in H.
Defined.

(** X4: outside level [manual], [approve_operation(op)] at a level that
    has an approved set lets [op] pass when no context, or an empty one,
    is given, unless [op] is in [always_require_approval]. *)
Theorem approved_operation_passes_without_context c op stamp context :
  context_given context = false ->
  op ∉ always_require_approval c ->
  autonomy_level c <> "manual" ->
  is_Some (approved_categories c !! autonomy_level c) ->
  requires_approval (approve_operation op stamp c).2 op context = Returns false.
Proof.
  intros Hctx Halways Hlevel [s Hs].
  apply requires_approval_without_context; try done.
  unfold get_approved_operations.
  change (autonomy_level (approve_operation op stamp c).2)
    with (autonomy_level c).
  rewrite approve_operation_lookup, decide_True by done.
  rewrite Hs. cbn. set_solver.
Qed.

(** An instance of X4. *)
Lemma approved_operation_passes_without_context_witness :
  requires_approval
    (approve_operation INSTALL_PACKAGE "20240101000000" default_controller).2
    INSTALL_PACKAGE None = Returns false.
Proof.
  apply (approved_operation_passes_without_context default_controller
           INSTALL_PACKAGE "20240101000000" None).
  - reflexivity.
  - unfold default_controller, _save_config; cbn [always_require_approval].
    set_solver.
  - discriminate.
  - unfold default_controller, _save_config;
      cbn [approved_categories autonomy_level].
    rewrite lookup_insert_ne by done. rewrite lookup_insert_eq. by eexists.
Defined.

(** [requires_approval] reads the level, the boundary set and whether the
    operation is approved at the level. *)
Lemma requires_approval_ext c c' op context :
  autonomy_level c' = autonomy_level c ->
  always_require_approval c' = always_require_approval c ->
  (op ∈ get_approved_operations c' <-> op ∈ get_approved_operations c) ->
  requires_approval c' op context = requires_approval c op context.
Proof.
  intros Hl Ha Hop. unfold requires_approval, get_approved_operations in *.
  rewrite Ha.
  rewrite (bool_decide_ext _ _ Hop).
  by rewrite !Hl.
Qed.

(** X5: approving or revoking one operation does not change the answer
    of [requires_approval] for another operation. *)
Theorem other_operations_unaffected c op op' stamp context :
  op' <> op ->
  requires_approval (approve_operation op stamp c).2 op' context
    = requires_approval c op' context
  /\ requires_approval (revoke_approval op c) op' context
    = requires_approval c op' context.
Proof.
  intros Hne. split; apply requires_approval_ext; try done;
    unfold get_approved_operations.
  - change (autonomy_level (approve_operation op stamp c).2)
      with (autonomy_level c).
    rewrite approve_operation_lookup, decide_True by done.
    destruct (approved_categories c !! autonomy_level c); cbn; set_solver.
  - change (autonomy_level (revoke_approval op c)) with (autonomy_level c).
    rewrite revoke_approval_lookup.
    destruct (approved_categories c !! autonomy_level c); cbn; set_solver.
Qed.

(** An instance of X5. *)
Lemma other_operations_unaffected_witness :
  requires_approval
    (approve_operation DELETE_FILE "20240101000000" default_controller).2
    GIT_COMMIT None
    = requires_approval default_controller GIT_COMMIT None
  /\ requires_approval (revoke_approval DELETE_FILE default_controller)
       GIT_COMMIT None
    = requires_approval default_controller GIT_COMMIT None.
Proof.
  apply (other_operations_unaffected default_controller DELETE_FILE GIT_COMMIT
           "20240101000000" None).
  discriminate.
Defined.

(** X6: with a context whose values are [None], booleans, integers and
    strings (the values of this model), [requires_approval] raises in one
    case only: the operation is [WRITE_FILE] or [DELETE_FILE] and the
    context has a ["path"] entry that is not a string, on which
    [path.lower()] raises [AttributeError]. *)
Theorem requires_approval_raises_only_on_path c op context e :
  requires_approval c op context = Raises e ->
  e = AttributeError
  /\ op ∈ [WRITE_FILE; DELETE_FILE]
  /\ exists d v, context = Some d /\ d !! "path" = Some v
                 /\ forall s, v <> PStr s.
Proof.
  unfold requires_approval.
  case_bool_decide; [done|].
  destruct (String.eqb _ "manual"); [done|].
  destruct (negb _); [done|].
  destruct context as [d|]; [|done].
  destruct (context_given (Some d)); [|done].
  change (default ∅ (Some d)) with d.
  destruct (_ && _); [done|].
  destruct (truthy _); [done|].
  case_bool_decide as Hop; [|done].
  destruct (d !! "path") as [v|] eqn:Hv; cbn -[_is_protected_path].
  - destruct v as [|b|n|s]; try (destruct (_is_protected_path _); done);
      intros He; assert (e = AttributeError) as -> by congruence;
      (split; [done|]); (split; [done|]);
      eexists _, _; (split; [done|]); (split; [done|]); done.
  - by destruct (_is_protected_path _).
Qed.

(** An instance of X6. *)
Lemma requires_approval_raises_only_on_path_witness :
  AttributeError = AttributeError
  /\ WRITE_FILE ∈ [WRITE_FILE; DELETE_FILE]
  /\ exists (d : gmap string pyval) v,
       Some {["path" := PInt 7]} = Some d /\ d !! "path" = Some v
       /\ forall s, v <> PStr s.
Proof.
  apply (requires_approval_raises_only_on_path default_controller WRITE_FILE
           (Some {["path" := PInt 7]}) AttributeError).
  vm_compute. reflexivity.
Defined.

(** X7: a context can only add reasons to ask: when an operation requires
    approval without a context, it requires approval with any context. *)
Theorem context_never_waives_approval c op context :
  requires_approval c op None = Returns true ->
  requires_approval c op context = Returns true.
Proof.
  unfold requires_approval.
  case_bool_decide; [done|].
  destruct (String.eqb _ "manual"); [done|].
  destruct (negb _); [done|].
  cbn [context_given]. done.
Qed.

(** An instance of X7. *)
Lemma context_never_waives_approval_witness :
  requires_approval default_controller NETWORK_REQUEST
    (Some {["path" := PStr "notes.txt"]}) = Returns true.
Proof.
  apply (context_never_waives_approval default_controller NETWORK_REQUEST
           (Some {["path" := PStr "notes.txt"]})).
  vm_compute. reflexivity.
Defined.

Lemma lower_app a b : lower (a ++ b) = lower a ++ lower b.
Proof. induction a as [|c a IH]; simpl; [done|]. by rewrite IH. Qed.

Lemma prefix_app pat s b :
  String.prefix pat s = true -> String.prefix pat (s ++ b) = true.
Proof.
  revert s. induction pat as [|c pat IH]; intros [|d s]; simpl; try done.
  - by destruct b.
  - destruct (ascii_dec c d); [apply IH|done].
Qed.

Lemma contains_app_r pat s b :
  contains pat s = true -> contains pat (s ++ b) = true.
Proof.
  induction s as [|d s IH].
  - cbn [contains]. rewrite orb_false_r. intros H.
    destruct pat; [by destruct b|done].
  - cbn [contains String.append]. fold (String.append s b).
    intros [H|H]%orb_true_iff; apply orb_true_iff.
    + left. by apply (prefix_app pat (String d s) b).
    + right. by apply IH.
Qed.

Lemma contains_app_l pat a s :
  contains pat s = true -> contains pat (a ++ s) = true.
Proof.
  intros H. induction a as [|c a IH]; [done|].
  cbn [contains String.append]. fold (String.append a s).
  apply orb_true_iff. by right.
Qed.

(** X8: a path stays protected when text is put before or after it, and
    whatever the case of its letters: a directory named [config/] or
    [.git/] anywhere in the path, but also any file name that contains
    [.env], [secrets] or [credentials]. *)
Theorem protected_path_within_longer_path a p b :
  _is_protected_path p = true -> _is_protected_path (a ++ p ++ b) = true.
Proof.
  unfold _is_protected_path. rewrite !existsb_exists.
  intros (pat & Hin & Hpat). exists pat. split; [done|].
  rewrite !lower_app. by apply contains_app_l, contains_app_r.
Qed.

(** An instance of X8. *)
Lemma protected_path_within_longer_path_witness :
  _is_protected_path ("/srv/app/" ++ "Config/" ++ "settings.yaml") = true.
Proof.
  apply (protected_path_within_longer_path "/srv/app/" "Config/" "settings.yaml").
  vm_compute. reflexivity.
Defined.

(** X9: changing the level with [set_autonomy_level] and changing it
    back restores every answer of [requires_approval]: the approved set of
    each level is kept while another level is in force. *)
Theorem autonomy_level_round_trip c level c1 c2 op context :
  set_autonomy_level level c = Returns c1 ->
  set_autonomy_level (autonomy_level c) c1 = Returns c2 ->
  approved_categories c2 = approved_categories c
  /\ requires_approval c2 op context = requires_approval c op context.
Proof.
  unfold set_autonomy_level.
  case_bool_decide; [|done]. intros [= <-].
  case_bool_decide; [|done]. intros [= <-].
  split; [done|]. by apply requires_approval_ext.
Qed.

(** An instance of X9. *)
Lemma autonomy_level_round_trip_witness :
  let c1 := after_call (SetLevel "full_auto") default_controller in
  let c2 := after_call (SetLevel "semi_auto") c1 in
  approved_categories c2 = approved_categories default_controller
  /\ requires_approval c2 DELETE_FILE None
     = requires_approval default_controller DELETE_FILE None.
Proof.
  apply (autonomy_level_round_trip default_controller "full_auto"
           (after_call (SetLevel "full_auto") default_controller)
           (after_call (SetLevel "semi_auto")
              (after_call (SetLevel "full_auto") default_controller))
           DELETE_FILE None).
  - reflexivity.
  - reflexivity.
Defined.


Lemma high_risk_operation op :
  operation_risks op ∈ [HIGH; CRITICAL]
  <-> op = DELETE_FILE \/ op = GIT_PUSH \/ op = RESTORE_BACKUP.
Proof.
  split.
  - destruct op; cbn [operation_risks]; intros H; try tauto;
      apply elem_of_cons in H as [H|H]; try discriminate;
      apply elem_of_cons in H as [H|H]; try discriminate;
      by apply elem_of_nil in H.
  - intros [->|[->| ->]]; cbn [operation_risks]; by left.
Qed.

Lemma no_high_risk_operation (approved : gset OperationCategory) :
  filter (fun op => operation_risks op ∈ [HIGH; CRITICAL]) (elements approved)
  = []
  <-> (DELETE_FILE ∉ approved) /\ (GIT_PUSH ∉ approved)
      /\ (RESTORE_BACKUP ∉ approved).
Proof.
  split.
  - intros H. split; [|split]; intros Hin; apply elem_of_elements in Hin;
      revert Hin; apply (filter_nil_not_elem_of _ _ _ H), high_risk_operation;
      tauto.
  - intros (Hd & Hg & Hr).
    destruct (filter _ (elements approved)) as [|op l] eqn:E; [done|].
    assert (Hin : op ∈ filter (fun op => operation_risks op ∈ [HIGH; CRITICAL])
                    (elements approved)) by (rewrite E; by left).
    apply list_elem_of_filter in Hin as [Hrisk Hin].
    apply elem_of_elements in Hin.
    apply high_risk_operation in Hrisk as [H|[H|H]]; by subst.
Qed.

(** X10: [_generate_safety_recommendations] never returns an empty list,
    and it reports that the configuration appears safe exactly when
    neither [DELETE_FILE] nor [GIT_PUSH] is among the approved operations
    and, at level [full_auto], [RESTORE_BACKUP] is not either. Below
    [full_auto] an approved [RESTORE_BACKUP] gives no recommendation. *)
Theorem safety_recommendations_cases c (approved : gset OperationCategory) :
  let recommendations := _generate_safety_recommendations c approved in
  recommendations <> []
  /\ ("Current configuration appears safe" ∈ recommendations
      <-> (DELETE_FILE ∉ approved) /\ (GIT_PUSH ∉ approved)
          /\ ((RESTORE_BACKUP ∉ approved) \/ autonomy_level c <> "full_auto")).
Proof.
  cbv zeta. unfold _generate_safety_recommendations.
  assert (Hrisk := no_high_risk_operation approved).
  destruct (String.eqb_spec (autonomy_level c) "full_auto") as [Hl|Hl];
    repeat case_bool_decide; cbn [negb andb app] in *;
    (split; [done|]);
    (split;
     [ intros Hin;
       repeat (apply elem_of_cons in Hin as [Hin|Hin]; [discriminate|]);
       try (by apply elem_of_nil in Hin); try tauto
     | intros (Hd & Hg & Hr); try done; try (by left); try tauto ]).
Qed.

End AutonomyProps.
(* ===================================================================== *)
(** * Properties of [sorted] and of the order on strings *)
(* ===================================================================== *)

Section Sorted.
Context {A : Type} (ahead : A -> A -> bool) (R : A -> A -> Prop).
Hypothesis R_trans : forall a b c, R a b -> R b c -> R a c.
Hypothesis ahead_true : forall y x, ahead y x = true -> R y x.
Hypothesis ahead_false : forall y x, ahead y x = false -> R x y.

Lemma insert_sorted_perm x l : insert_sorted ahead x l ≡ₚ x :: l.
Proof.
  induction l as [|y l IH]; simpl; [done|].
  destruct (ahead y x); [|done].
  rewrite IH. apply Permutation_swap.
Qed.

Lemma py_sorted_perm l : py_sorted ahead l ≡ₚ l.
Proof.
  induction l as [|x l IH]; simpl; [done|].
  fold (py_sorted ahead l). by rewrite insert_sorted_perm, IH.
Qed.

Lemma insert_sorted_sorted x l :
  StronglySorted R l -> StronglySorted R (insert_sorted ahead x l).
Proof.
  induction 1 as [|y l Hl IH Hy]; simpl.
  - repeat constructor.
  - destruct (ahead y x) eqn:E.
    + constructor; [done|].
      rewrite insert_sorted_perm. constructor; [by apply ahead_true | done].
    + apply ahead_false in E.
      constructor; [by constructor|].
      constructor; [done|].
      eapply Forall_impl; [exact Hy|]. intros z Hz. by eapply R_trans.
Qed.

Lemma py_sorted_sorted l : StronglySorted R (py_sorted ahead l).
Proof.
  induction l as [|x l IH]; simpl; [constructor|].
  by apply insert_sorted_sorted.
Qed.

Lemma sorted_app_ordered (l1 l2 : list A) a b :
  StronglySorted R (l1 ++ l2) -> a ∈ l1 -> b ∈ l2 -> R a b.
Proof.
  induction l1 as [|x l1 IH]; simpl; intros Hs Ha Hb.
  - by apply elem_of_nil in Ha.
  - apply StronglySorted_inv in Hs as [Hs Hx].
    apply elem_of_cons in Ha as [->|Ha]; [|by apply IH].
    rewrite Forall_forall in Hx. apply Hx, elem_of_app. by right.
Qed.

End Sorted.

Lemma ascii_compare_lt_trans a b c :
  Ascii.compare a b = Lt -> Ascii.compare b c = Lt -> Ascii.compare a c = Lt.
Proof.
  unfold Ascii.compare. rewrite !N.compare_lt_iff. lia.
Qed.

Lemma ascii_compare_refl a : Ascii.compare a a = Eq.
Proof. unfold Ascii.compare. apply N.compare_refl. Qed.

(** [String.leb] is transitive. *)
Lemma string_leb_trans s1 s2 s3 :
  String.leb s1 s2 = true -> String.leb s2 s3 = true -> String.leb s1 s3 = true.
Proof.
  unfold String.leb. revert s2 s3.
  induction s1 as [|a s1 IH]; intros [|b s2] [|c s3]; simpl; try done.
  destruct (Ascii.compare a b) eqn:Eab; try done;
    destruct (Ascii.compare b c) eqn:Ebc; try done.
  - apply Ascii.compare_eq_iff in Eab, Ebc. subst.
    rewrite ascii_compare_refl. apply IH.
  - apply Ascii.compare_eq_iff in Eab. subst. by rewrite Ebc.
  - apply Ascii.compare_eq_iff in Ebc. subst. by rewrite Eab.
  - by rewrite (ascii_compare_lt_trans _ _ _ Eab Ebc).
Qed.

Lemma string_ltb_leb s1 s2 : String.ltb s1 s2 = true -> String.leb s1 s2 = true.
Proof. unfold String.ltb, String.leb. by destruct (String.compare s1 s2). Qed.

Lemma string_ltb_false_leb s1 s2 :
  String.ltb s1 s2 = false -> String.leb s2 s1 = true.
Proof.
  unfold String.ltb, String.leb. rewrite (String.compare_antisym s2 s1).
  by destruct (String.compare s1 s2).
Qed.

Lemma slice_to_from {A} (k : Z) (l : list A) :
  (slice_to k l ++ slice_from k l)%list = l.
Proof. unfold slice_to, slice_from. destruct (0 <=? k); apply take_drop. Qed.


(** ** [int(str(n))] and [split] on rendered numbers *)

Lemma digits_value_acc d acc :
  digits_value true (Z.pos acc)
    (list_ascii_of_string (NilEmpty.string_of_uint d))
  = Some (Z.pos (Pos.of_uint_acc d acc)).
Proof.
  revert acc. induction d as [|d IH|d IH|d IH|d IH|d IH|d IH|d IH|d IH|d IH|d IH];
    intros acc; [done|..];
    cbn [NilEmpty.string_of_uint list_ascii_of_string digits_value Pos.of_uint_acc];
    match goal with |- context [is_digit ?c] => change (is_digit c) with true end;
    cbn iota; rewrite <- IH; f_equal; cbn; lia.
Qed.

Lemma digits_value_uint d after_digit :
  after_digit = true \/ d <> Decimal.Nil ->
  digits_value after_digit 0
    (list_ascii_of_string (NilEmpty.string_of_uint d))
  = Some (Z.of_N (Pos.of_uint d)).
Proof.
  revert after_digit.
  induction d as [|d IH|d IH|d IH|d IH|d IH|d IH|d IH|d IH|d IH|d IH];
    intros after_digit H;
    [ destruct H as [->|H]; done | ..];
    cbn [NilEmpty.string_of_uint list_ascii_of_string digits_value Pos.of_uint];
    match goal with |- context [is_digit ?c] => change (is_digit c) with true end;
    cbn iota;
    [ apply IH; by left | ..];
    cbn [Z.of_N]; rewrite <- digits_value_acc; f_equal.
Qed.

Lemma lstrip_head c l : is_space c = false -> lstrip (c :: l) = c :: l.
Proof. intros H. cbn. by rewrite H. Qed.

Lemma strip_no_space l :
  Forall (fun c => is_space c = false) l -> strip l = l.
Proof.
  intros H. unfold strip.
  assert (Hl : forall l, Forall (fun c => is_space c = false) l -> lstrip l = l).
  { intros [|c l'] Hf; [done|]. apply lstrip_head. by inversion Hf. }
  rewrite (Hl l H). rewrite Hl; [apply rev_involutive|].
  by apply Forall_rev.
Qed.

(** The characters of a rendered number: digits, after a sign if any. *)
Lemma uint_chars_digits d :
  Forall (fun c => is_digit c = true)
    (list_ascii_of_string (NilEmpty.string_of_uint d)).
Proof. induction d; cbn; constructor; done. Qed.

Lemma digit_not_space c : is_digit c = true -> is_space c = false.
Proof.
  unfold is_digit, is_space. cbv zeta. intros H.
  apply andb_true_iff in H as [H1 H2].
  apply N.leb_le in H1, H2.
  apply orb_false_iff. split.
  - apply andb_false_iff. right. apply N.leb_gt. lia.
  - apply N.eqb_neq. lia.
Qed.

Lemma py_int_uint d :
  d <> Decimal.Nil ->
  py_int (NilEmpty.string_of_uint d) = Some (Z.of_N (Pos.of_uint d)).
Proof.
  intros Hd. unfold py_int.
  rewrite strip_no_space.
  2:{ eapply Forall_impl; [apply uint_chars_digits|]. apply digit_not_space. }
  rewrite <- (digits_value_uint d false) by (by right).
  destruct d; try done.
Qed.

Lemma py_int_str_of_Z n : py_int (str_of_Z n) = Some n.
Proof.
  unfold str_of_Z. destruct n as [|p|p]; cbn [Z.to_int NilZero.string_of_int].
  - reflexivity.
  - assert (Hp := Unsigned.to_uint_nonnil p).
    unfold NilZero.string_of_uint.
    destruct (Pos.to_uint p) eqn:E; try done;
      rewrite <- E in *; rewrite py_int_uint by done;
      by rewrite DecimalPos.Unsigned.of_to.
  - assert (Hp := Unsigned.to_uint_nonnil p).
    assert (Hs : NilZero.string_of_uint (Pos.to_uint p)
                 = NilEmpty.string_of_uint (Pos.to_uint p)).
    { unfold NilZero.string_of_uint. by destruct (Pos.to_uint p). }
    rewrite Hs. unfold py_int. cbn [list_ascii_of_string].
    rewrite strip_no_space.
    2:{ constructor; [done|].
        eapply Forall_impl; [apply uint_chars_digits|]. apply digit_not_space. }
    rewrite digits_value_uint by (by right).
    by rewrite DecimalPos.Unsigned.of_to.
Qed.

(** The blanks of [int]: a vertical tab and a form feed around a number
    are skipped, the unit separator (code 31) is not, although
    [str.isspace] holds of it. *)
Lemma py_int_blanks :
  py_int (String (ascii_of_N 11) (String "1" (String (ascii_of_N 12) "")))
  = Some 1
  /\ py_int (String "1" (String (ascii_of_N 31) "")) = None
  /\ ~ StateStore.well_formed ("1.0.0" +:+ String (ascii_of_N 31) "").
Proof.
  split; [reflexivity|]. split; [reflexivity|].
  intros (major & minor & patch & H). vm_compute in H. discriminate.
Qed.

Lemma split_on_no_sep sep s :
  sep ∉ list_ascii_of_string s -> split_on sep s = [s].
Proof.
  induction s as [|c s IH]; [done|]. cbn [list_ascii_of_string split_on].
  intros H. apply not_elem_of_cons in H as [Hc Hs].
  rewrite (proj2 (Ascii.eqb_neq c sep)) by done.
  by rewrite IH.
Qed.

Lemma split_on_app sep s rest :
  sep ∉ list_ascii_of_string s ->
  split_on sep (s +:+ String sep rest) = s :: split_on sep rest.
Proof.
  induction s as [|c s IH]; cbn [list_ascii_of_string].
  - intros _. simpl. by rewrite Ascii.eqb_refl.
  - intros H. apply not_elem_of_cons in H as [Hc Hs].
    simpl. rewrite (proj2 (Ascii.eqb_neq c sep)) by done.
    by rewrite IH.
Qed.

Lemma str_of_Z_no_dot n : "."%char ∉ list_ascii_of_string (str_of_Z n).
Proof.
  assert (Hd : forall d, "."%char
                 ∉ list_ascii_of_string (NilEmpty.string_of_uint d)).
  { intros d Hin.
    assert (H := uint_chars_digits d). rewrite Forall_forall in H.
    by apply H in Hin. }
  assert (Hz : forall d, "."%char
                 ∉ list_ascii_of_string (NilZero.string_of_uint d)).
  { intros d. unfold NilZero.string_of_uint.
    destruct d; try apply Hd. cbn. set_solver. }
  unfold str_of_Z.
  destruct n as [|p|p]; cbn [Z.to_int NilZero.string_of_int list_ascii_of_string].
  - cbn. set_solver.
  - apply Hz.
  - apply not_elem_of_cons. split; [done|apply Hz].
Qed.


(* ===================================================================== *)
(** * Properties of the state manager *)
(* ===================================================================== *)

Module StateStoreProps.
Import StateStore.

(** Unfolds the sequencing of a method body. *)
Ltac step_method :=
  cbv [mbind M_bind mret M_ret get modify lift raise utc_now]; cbn beta iota.

(** C9: when [version] has no entry in the history, or the snapshot
    directory of its entry does not exist, [restore_snapshot] returns
    [False] and leaves the manager and the disk as they were: state files,
    snapshot directories, history, current version and clock. *)
Theorem restore_snapshot_failure_is_noop utcnow (v : string) (m : StateManager) :
  (forall e, e ∈ versions m -> version e <> v)
  \/ (exists e, find (fun e => String.eqb (version e) v) (versions m) = Some e
                /\ backups m !! snapshot_dir e = None) ->
  restore_snapshot utcnow v m = (Returns false, m).
Proof.
  intros H. unfold restore_snapshot. step_method.
  destruct (find _ (versions m)) as [e|] eqn:Hfind.
  - destruct H as [H|(e' & He' & Hdir)].
    + apply find_some in Hfind as [Hin Heq].
      apply String.eqb_eq in Heq. apply list_elem_of_In in Hin.
      by apply H in Hin.
    + assert (e' = e) by congruence. subst e'.
      rewrite Hdir. rewrite bool_decide_eq_false_2; [done|].
      by intros [? ?].
  - done.
Qed.

(** An instance of C9: version [2.0.0] is not in the history of [ws2]. *)
Lemma restore_snapshot_failure_is_noop_witness :
  restore_snapshot demo_clock "2.0.0" ws2 = (Returns false, ws2).
Proof.
  apply restore_snapshot_failure_is_noop. left.
  intros e He. vm_compute in He.
  repeat (apply elem_of_cons in He as [->|He]; [by vm_compute|]).
  by apply elem_of_nil in He.
Defined.


Lemma create_snapshot_returns utcnow label increment metadata m nv :
  _increment_version (current_version m) increment = Returns nv ->
  create_snapshot utcnow label increment metadata m
  = (Returns nv,
     let e := new_entry utcnow label increment metadata nv m in
     {| backup_dir := backup_dir m;
        current_version := nv;
        versions := versions m ++ [e];
        state_files :=
          <[versions_file :=
              index_text nv (versions m ++ [e]) (utcnow (S (clock m)))]>
            (state_files m);
        backups :=
          <[snapshot_dir e :=
              state_files m ∪ default ∅ (backups m !! snapshot_dir e)]>
            (backups m);
        clock := S (S (clock m)) |}).
Proof.
  intros Hinc. unfold create_snapshot, _save_version_history. step_method.
  rewrite Hinc. reflexivity.
Qed.

Lemma create_snapshot_raises utcnow label increment metadata m err :
  _increment_version (current_version m) increment = Raises err ->
  create_snapshot utcnow label increment metadata m = (Raises err, m).
Proof.
  intros Hinc. unfold create_snapshot. step_method. by rewrite Hinc.
Qed.


Lemma restore_snapshot_returns utcnow v m e sv :
  find (fun e => String.eqb (version e) v) (versions m) = Some e ->
  is_Some (backups m !! snapshot_dir e) ->
  _increment_version (current_version m) "patch" = Returns sv ->
  restore_snapshot utcnow v m
  = (Returns true,
     let m1 :=
       (create_snapshot utcnow (Some ("Before restore to v" +:+ v)) "patch" []
          m).2 in
     {| backup_dir := backup_dir m;
        current_version := v;
        versions := versions m1;
        state_files :=
          <[versions_file := index_text v (versions m1) (utcnow (clock m1))]>
            (default ∅ (backups m1 !! snapshot_dir e));
        backups := backups m1;
        clock := S (clock m1) |}).
Proof.
  intros Hfind Hdir Hinc. unfold restore_snapshot. step_method.
  rewrite Hfind. rewrite (bool_decide_eq_true_2 _ Hdir). cbn [negb].
  rewrite (create_snapshot_returns _ _ _ _ _ _ Hinc).
  unfold _save_version_history. step_method. cbn.
  by rewrite (right_id_L ∅ (∪)).
Qed.

(** C3, the claim as stated fails: version [1.0.1] has a snapshot, whose
    recorded hash is that of the one state file [a.json];
    [restore_snapshot("1.0.1")] succeeds, and the [create_snapshot] that
    follows records another hash, because [versions.json], rewritten by
    the restore, is hashed with the state files. *)
Lemma restore_then_create_hash_differs :
  let restored := restore_snapshot demo_clock "1.0.1" ws1 in
  let created := create_snapshot demo_clock None "patch" [] restored.2 in
  (state_hash <$> find (fun e => String.eqb (version e) "1.0.1") (versions ws1))
    = Some "44136fa355b3678a1146ad16f7e8649e94fb4fc21fe77e8310c060f61caaff8a"
  /\ restored.1 = Returns true
  /\ created.1 = Returns "1.0.2"
  /\ (state_hash <$> last (versions created.2))
    = Some "8caf6a920cdccb189401f6e54b1f1f39a2a06155a87983f2c4bc52de56647d0e"
  /\ (state_hash <$> last (versions created.2))
     <> (state_hash <$> find (fun e => String.eqb (version e) "1.0.1")
                          (versions ws1)).
Proof. vm_compute. repeat split; try reflexivity. discriminate. Qed.

(** C3 (amended): let [v] have an entry whose snapshot directory exists
    and is not the directory of the next patch version after the current
    one, into which [restore_snapshot] writes the state it replaces (and
    let the version strings parse). Then [restore_snapshot(v)] returns
    [True], and the state files other than [versions.json] are the files
    that the snapshot directory of [v] held when it was called; the
    [create_snapshot] that follows returns a new version whose entry
    records the hash of these files together with the [versions.json] that
    the restore has just written, and its directory holds each of them:
    the files are reproduced, and the recorded hash covers the new
    [versions.json] as well. *)
Theorem restore_then_create_reproduces_files utcnow v m e snap sv nv label
    increment metadata :
  find (fun e => String.eqb (version e) v) (versions m) = Some e ->
  backups m !! snapshot_dir e = Some snap ->
  _increment_version (current_version m) "patch" = Returns sv ->
  snapshot_dir e <> backup_dir m +:+ "/v" +:+ sv ->
  _increment_version v increment = Returns nv ->
  exists m2 m3 idx e',
    restore_snapshot utcnow v m = (Returns true, m2)
    /\ create_snapshot utcnow label increment metadata m2 = (Returns nv, m3)
    /\ state_files m2 = <[versions_file := idx]> snap
    /\ idx = index_text v (versions m2) (utcnow (Nat.pred (clock m2)))
    /\ versions m3 = (versions m2 ++ [e'])%list
    /\ version e' = nv
    /\ state_hash e' = _calculate_state_hash (<[versions_file := idx]> snap)
    /\ (forall p content, p <> versions_file -> snap !! p = Some content ->
        state_files m2 !! p = Some content
        /\ (backups m3 !! snapshot_dir e') ≫= (.!! p) = Some content).
Proof.
  intros Hfind Hdir Hsv Hne Hnv.
  rewrite (restore_snapshot_returns _ _ _ _ _ Hfind (mk_is_Some _ _ Hdir) Hsv).
  rewrite (create_snapshot_returns _ _ _ _ _ _ Hsv). cbn zeta. cbn [snd].
  set (safety := new_entry utcnow _ "patch" [] sv m).
  set (bs := <[snapshot_dir safety := _]> (backups m)).
  assert (Hsnap : bs !! snapshot_dir e = Some snap).
  { unfold bs. rewrite lookup_insert_ne; [done|].
    intros Heq. apply Hne. by rewrite <- Heq. }
  eexists _, _, _, _.
  split; [reflexivity|].
  split; [by apply create_snapshot_returns|].
  cbn [backups state_files versions clock backup_dir Nat.pred].
  rewrite Hsnap. cbn [default].
  split; [reflexivity|].
  split; [reflexivity|].
  split; [reflexivity|].
  split; [reflexivity|].
  split; [reflexivity|].
  intros p content Hp Hcontent. split.
  - by rewrite lookup_insert_ne.
  - cbn [snapshot_dir new_entry backup_dir].
    rewrite lookup_insert_eq. cbn.
    apply lookup_union_Some_l. by rewrite lookup_insert_ne.
Qed.

(** An instance of the amended C3: restoring [1.0.1] in [ws2], where the
    state that the restore replaces goes to the directory of [1.0.3]. *)
Lemma restore_then_create_reproduces_files_witness :
  exists m2 m3 idx e',
    restore_snapshot demo_clock "1.0.1" ws2 = (Returns true, m2)
    /\ create_snapshot demo_clock None "patch" [] m2 = (Returns "1.0.2", m3)
    /\ state_files m2 = <[versions_file := idx]> (state_files ws0)
    /\ idx = index_text "1.0.1" (versions m2) (demo_clock (Nat.pred (clock m2)))
    /\ versions m3 = (versions m2 ++ [e'])%list
    /\ version e' = "1.0.2"
    /\ state_hash e'
       = _calculate_state_hash (<[versions_file := idx]> (state_files ws0))
    /\ (forall p content, p <> versions_file ->
        state_files ws0 !! p = Some content ->
        state_files m2 !! p = Some content
        /\ (backups m3 !! snapshot_dir e') ≫= (.!! p) = Some content).
Proof.
  apply (restore_then_create_reproduces_files demo_clock "1.0.1" ws2
           (new_entry demo_clock None "patch" [] "1.0.1" ws0)
           (state_files ws0) "1.0.3" "1.0.2").
  - vm_compute. reflexivity.
  - vm_compute. reflexivity.
  - vm_compute. reflexivity.
  - vm_compute. discriminate.
  - vm_compute. reflexivity.
Defined.

(** The proviso of the amended C3 is needed: after
    [restore_snapshot("1.0.1")] the current version is [1.0.1], so that
    [restore_snapshot("1.0.2")] writes the state it replaces into the
    directory of [1.0.2] before it reads that directory: the state file
    [a.json], which version [1.0.2] had stored as [[1]], comes back as
    [{}]. *)
Lemma restore_snapshot_reads_overwritten_snapshot :
  let restored := restore_snapshot demo_clock "1.0.2" edited3 in
  current_version edited3 = "1.0.1"
  /\ snapshot_file edited3 "/ws/backups/system/v1.0.2" ["a.json"] = Some "[1]"
  /\ restored.1 = Returns true
  /\ state_files restored.2 !! ["a.json"] = Some "{}".
Proof. vm_compute. repeat split; reflexivity. Qed.


(** C7, evaluated on the code: the second [create_snapshot] stores
    [a.json = [1]] under [v1.0.2]; after [restore_snapshot("1.0.1")] the
    current version is [1.0.1] again, so the next [create_snapshot]
    returns [1.0.2] a second time and copies the restored state files over
    the directory of the first [1.0.2]: its [a.json] and its
    [versions.json] are overwritten, and the hash recorded in its entry no
    longer is the hash of its files. *)
Theorem create_snapshot_overwrites_snapshot :
  let dir := "/ws/backups/system/v1.0.2" in
  (create_snapshot demo_clock None "patch" [] edited1).1 = Returns "1.0.2"
  /\ (snapshot_dir <$> last (versions edited2)) = Some dir
  /\ snapshot_file edited2 dir ["a.json"] = Some "[1]"
  /\ (restore_snapshot demo_clock "1.0.1" edited2).1 = Returns true
  /\ (create_snapshot demo_clock None "patch" [] edited3).1 = Returns "1.0.2"
  /\ snapshot_file edited4 dir ["a.json"] = Some "{}"
  /\ snapshot_file edited4 dir versions_file
     <> snapshot_file edited2 dir versions_file
  /\ (state_hash <$> find (fun e => String.eqb (version e) "1.0.2")
                       (versions edited4))
     <> (_calculate_state_hash <$> backups edited4 !! dir).
Proof.
  vm_compute. repeat split; try reflexivity; discriminate.
Qed.

(** C5, the claim as stated fails: after [restore_snapshot("1.0.1")] the
    current version is [1.0.1], the oldest of three entries;
    [cleanup_old_snapshots(2)] drops its entry and deletes its snapshot
    directory. *)
Lemma cleanup_deletes_current_version :
  let cleaned := (cleanup_old_snapshots demo_clock 2 ws3).2 in
  current_version ws3 = "1.0.1"
  /\ version <$> versions ws3 = ["1.0.1"; "1.0.2"; "1.0.3"]
  /\ is_Some (backups ws3 !! "/ws/backups/system/v1.0.1")
  /\ current_version cleaned = "1.0.1"
  /\ version <$> versions cleaned = ["1.0.3"; "1.0.2"]
  /\ backups cleaned !! "/ws/backups/system/v1.0.1" = None.
Proof.
  vm_compute. repeat split; try reflexivity. by eexists.
Qed.

Lemma lookup_foldl_delete (removed : list VersionEntry)
    (bs : gmap string (gmap (list string) string)) (d : string) :
  foldl (fun bs v => delete (snapshot_dir v) bs) bs removed !! d
  = if bool_decide (d ∈ snapshot_dir <$> removed) then None else bs !! d.
Proof.
  revert bs. induction removed as [|e removed IH]; intros bs;
    cbn [foldl].
  - case_bool_decide as H; [|done]. by apply elem_of_nil in H.
  - rewrite IH, fmap_cons.
    destruct (decide (d = snapshot_dir e)) as [->|Hne].
    + rewrite lookup_delete_eq.
      repeat case_bool_decide; try done; exfalso; set_solver.
    + rewrite lookup_delete_ne by done.
      repeat case_bool_decide; try done; exfalso; set_solver.
Qed.


Lemma by_timestamp_desc_sorted vs :
  StronglySorted (fun a b => String.leb (timestamp b) (timestamp a) = true)
    (by_timestamp_desc vs).
Proof.
  apply py_sorted_sorted.
  - intros a b c Hab Hbc. by eapply string_leb_trans.
  - intros y x. apply string_ltb_leb.
  - intros y x. apply string_ltb_false_leb.
Qed.

(** C5 (amended): [cleanup_old_snapshots(keep)] changes nothing when the
    history has at most [keep] entries. Otherwise it retains the [keep]
    entries with the latest timestamps (for a negative [keep], all but the
    [-keep] oldest), deletes the snapshot directory of every other entry,
    and rewrites the index. The current version is left as it is, and its
    entry is treated like any other: it is retained only when it is among
    the latest ones. *)
Theorem cleanup_old_snapshots_effect utcnow (keep : Z) (m : StateManager) :
  let r := cleanup_old_snapshots utcnow keep m in
  let len := Z.of_nat (length (versions m)) in
  r.1 = Returns tt
  /\ if len <=? keep then r.2 = m
     else exists removed,
         (versions r.2 ++ removed)%list ≡ₚ versions m
         /\ Z.of_nat (length (versions r.2))
            = (if 0 <=? keep then keep else Z.max 0 (len + keep))
         /\ (forall a b, a ∈ versions r.2 -> b ∈ removed ->
             String.leb (timestamp b) (timestamp a) = true)
         /\ (forall d, backups r.2 !! d
             = if bool_decide (d ∈ snapshot_dir <$> removed) then None
               else backups m !! d)
         /\ current_version r.2 = current_version m
         /\ state_files r.2
            = <[versions_file :=
                  index_text (current_version m) (versions r.2)
                    (utcnow (clock m))]> (state_files m).
Proof.
  cbv zeta. unfold cleanup_old_snapshots. step_method.
  destruct (Z.of_nat (length (versions m)) <=? keep) eqn:Hlen; [done|].
  apply Z.leb_gt in Hlen.
  unfold _save_version_history. step_method. cbn.
  fold (by_timestamp_desc (versions m)).
  split; [done|].
  exists (slice_from keep (by_timestamp_desc (versions m))).
  split; [|split; [|split; [|split; [|split]]]].
  - rewrite slice_to_from. apply py_sorted_perm.
  - assert (Hl : length (by_timestamp_desc (versions m)) = length (versions m))
      by (apply Permutation_length, py_sorted_perm).
    unfold slice_to. rewrite Hl.
    destruct (0 <=? keep) eqn:Hk; rewrite length_take, Hl.
    + apply Z.leb_le in Hk. lia.
    + apply Z.leb_gt in Hk. lia.
  - intros a b Ha Hb.
    eapply (sorted_app_ordered
              (fun a b => String.leb (timestamp b) (timestamp a) = true));
      [|exact Ha|exact Hb].
    rewrite slice_to_from. apply by_timestamp_desc_sorted.
  - intros d. apply lookup_foldl_delete.
  - done.
  - done.
Qed.


Lemma version_numbers_rendered a b c :
  version_numbers (str_of_Z a +:+ "." +:+ str_of_Z b +:+ "." +:+ str_of_Z c)
  = [Some a; Some b; Some c].
Proof.
  unfold version_numbers.
  change ("." +:+ ?x) with (String "." x).
  rewrite split_on_app by apply str_of_Z_no_dot.
  change ("." +:+ str_of_Z c) with (String "." (str_of_Z c)).
  rewrite split_on_app by apply str_of_Z_no_dot.
  rewrite split_on_no_sep by apply str_of_Z_no_dot.
  cbn [map]. by rewrite !py_int_str_of_Z.
Qed.

Lemma increment_version_cases version increment :
  match version_numbers version with
  | [Some major; Some minor; Some patch] =>
      let '(major', minor', patch') :=
        incremented increment (major, minor, patch) in
      _increment_version version increment
      = Returns (str_of_Z major' +:+ "." +:+ str_of_Z minor' +:+ "."
                 +:+ str_of_Z patch')
  | _ => _increment_version version increment = Raises ValueError
  end.
Proof.
  unfold _increment_version, version_numbers, incremented.
  destruct (map py_int (split_on "." version)) as [|[a|] [|[b|] [|[c|] [|? ?]]]];
    try done.
  destruct (String.eqb increment "major"); [done|].
  by destruct (String.eqb increment "minor").
Qed.

Lemma increment_version_well_formed version increment :
  well_formed version ->
  exists version', _increment_version version increment = Returns version'
                   /\ well_formed version'.
Proof.
  intros (a & b & c & H).
  assert (Hc := increment_version_cases version increment). rewrite H in Hc.
  destruct (incremented increment (a, b, c)) as [[a' b'] c'].
  eexists. split; [exact Hc|]. eexists _, _, _. apply version_numbers_rendered.
Qed.

Lemma increment_version_raises version increment :
  ~ well_formed version ->
  _increment_version version increment = Raises ValueError.
Proof.
  intros Hn.
  assert (Hc := increment_version_cases version increment).
  destruct (version_numbers version) as [|[a|] [|[b|] [|[c|] [|? ?]]]] eqn:E;
    try done.
  exfalso. apply Hn. by eexists _, _, _.
Qed.

(** X11: whenever [_increment_version] returns, the version it was given
    consists of three numbers, and the version it returns consists of
    three numbers again, which come next in the order of versions: the
    result can always be incremented again, and it is a later version. *)
Theorem increment_version_gives_later_version version increment version' :
  _increment_version version increment = Returns version' ->
  exists n n',
    version_numbers version = [Some n.1.1; Some n.1.2; Some n.2]
    /\ version_numbers version' = [Some n'.1.1; Some n'.1.2; Some n'.2]
    /\ n' = incremented increment n
    /\ version_lt n n'.
Proof.
  intros H.
  assert (Hc := increment_version_cases version increment).
  destruct (version_numbers version) as [|[a|] [|[b|] [|[c|] [|? ?]]]] eqn:E;
    try congruence.
  exists (a, b, c), (incremented increment (a, b, c)).
  destruct (incremented increment (a, b, c)) as [[a' b'] c'] eqn:Ei.
  assert (version' = str_of_Z a' +:+ "." +:+ str_of_Z b' +:+ "." +:+ str_of_Z c')
    as -> by congruence.
  split; [done|]. split; [apply version_numbers_rendered|]. split; [done|].
  unfold incremented in Ei. cbn.
  destruct (String.eqb increment "major"); [injection Ei; lia|].
  destruct (String.eqb increment "minor"); injection Ei; lia.
Qed.

(** An instance of X11. *)
Lemma increment_version_gives_later_version_witness :
  exists n n',
    version_numbers "1.9.4" = [Some n.1.1; Some n.1.2; Some n.2]
    /\ version_numbers "1.10.0" = [Some n'.1.1; Some n'.1.2; Some n'.2]
    /\ n' = incremented "minor" n
    /\ version_lt n n'.
Proof.
  apply (increment_version_gives_later_version "1.9.4" "minor" "1.10.0").
  vm_compute. reflexivity.
Defined.


Lemma create_snapshot_well_versioned utcnow label increment metadata m :
  well_versioned m ->
  exists v, (create_snapshot utcnow label increment metadata m).1 = Returns v
    /\ well_versioned (create_snapshot utcnow label increment metadata m).2.
Proof.
  intros [Hcur Hall].
  destruct (increment_version_well_formed _ increment Hcur) as (nv & Hinc & Hnv).
  rewrite (create_snapshot_returns _ _ _ _ _ _ Hinc). cbn zeta.
  exists nv. split; [done|]. split; cbn [current_version versions]; [done|].
  intros e [He| ->%list_elem_of_singleton]%elem_of_app; [by apply Hall|done].
Qed.

Lemma restore_snapshot_well_versioned utcnow v m :
  well_versioned m ->
  exists b, (restore_snapshot utcnow v m).1 = Returns b
    /\ well_versioned (restore_snapshot utcnow v m).2.
Proof.
  intros Hm.
  destruct (find (fun e => String.eqb (version e) v) (versions m)) as [e|]
    eqn:Hfind.
  - destruct (backups m !! snapshot_dir e) as [snap|] eqn:Hdir.
    + destruct Hm as [Hcur Hall].
      destruct (increment_version_well_formed _ "patch" Hcur)
        as (sv & Hinc & Hsv).
      rewrite (restore_snapshot_returns utcnow v m e sv Hfind) by done.
      rewrite (create_snapshot_returns _ _ _ _ _ _ Hinc). cbn zeta.
      exists true. split; [done|].
      apply find_some in Hfind as [Hin Heq].
      apply String.eqb_eq in Heq. apply list_elem_of_In in Hin.
      split; cbn [current_version versions snd].
      * rewrite <- Heq. by apply Hall.
      * intros e' [He'| ->%list_elem_of_singleton]%elem_of_app;
          [by apply Hall|done].
    + unfold restore_snapshot. step_method. rewrite Hfind, Hdir.
      rewrite bool_decide_eq_false_2 by (by intros [? ?]).
      exists false. done.
  - unfold restore_snapshot. step_method. rewrite Hfind. by exists false.
Qed.

Lemma cleanup_old_snapshots_kept utcnow keep m :
  (cleanup_old_snapshots utcnow keep m).1 = Returns tt
  /\ current_version (cleanup_old_snapshots utcnow keep m).2 = current_version m
  /\ versions (cleanup_old_snapshots utcnow keep m).2
     = (if Z.of_nat (length (versions m)) <=? keep then versions m
        else slice_to keep (by_timestamp_desc (versions m))).
Proof.
  unfold cleanup_old_snapshots. step_method.
  destruct (Z.of_nat (length (versions m)) <=? keep); [done|].
  unfold _save_version_history. step_method. done.
Qed.

Lemma slice_to_elem_of {A} (k : Z) (l : list A) x : x ∈ slice_to k l -> x ∈ l.
Proof.
  intros H. rewrite <- (slice_to_from k l). apply elem_of_app. by left.
Qed.

Lemma cleanup_old_snapshots_well_versioned utcnow keep m :
  well_versioned m ->
  (cleanup_old_snapshots utcnow keep m).1 = Returns tt
  /\ well_versioned (cleanup_old_snapshots utcnow keep m).2.
Proof.
  intros [Hcur Hall].
  destruct (cleanup_old_snapshots_kept utcnow keep m) as (Hr & Hc & Hv).
  split; [done|]. split; [by rewrite Hc|].
  rewrite Hv. intros e He. apply Hall.
  destruct (_ <=? keep); [done|].
  apply slice_to_elem_of in He. unfold by_timestamp_desc in He.
  by rewrite (py_sorted_perm _ (versions m)) in He.
Qed.

Lemma perform_well_versioned utcnow k m :
  well_versioned m ->
  (perform utcnow k m).1 = Returns tt /\ well_versioned (perform utcnow k m).2.
Proof.
  intros Hm. destruct k as [label increment metadata|v|keep]; cbn [perform].
  - destruct (create_snapshot_well_versioned utcnow label increment metadata m Hm)
      as (v & Hr & Hw).
    step_method.
    by destruct (create_snapshot utcnow label increment metadata m)
      as [[?|?] m'].
  - destruct (restore_snapshot_well_versioned utcnow v m Hm) as (b & Hr & Hw).
    step_method.
    by destruct (restore_snapshot utcnow v m) as [[?|?] m'].
  - by apply cleanup_old_snapshots_well_versioned.
Qed.

(** X12: when the current version and the versions of the history are
    made of three numbers each, as in a new workspace, no sequence of
    [create_snapshot], [restore_snapshot] and [cleanup_old_snapshots] calls
    raises, whatever the labels, the kinds of increment, the versions and
    the counts passed, and the versions stay so. The metadata passed are
    dictionaries of strings, as everywhere in this model; [json.dump]
    raises on metadata that are no JSON values. Integers are unbounded:
    CPython's limit on the number of their digits is left out. *)
Theorem snapshot_calls_never_raise utcnow ks m :
  well_versioned m ->
  (perform_all utcnow ks m).1 = Returns tt
  /\ well_versioned (perform_all utcnow ks m).2.
Proof.
  revert m. induction ks as [|k ks IH]; intros m Hm; [done|].
  cbn [perform_all]. step_method.
  destruct (perform_well_versioned utcnow k m Hm) as [Hr Hw].
  destruct (perform utcnow k m) as [[[]|?] m']; [|done].
  by apply IH.
Qed.

(** An instance of X12. *)
Lemma snapshot_calls_never_raise_witness :
  let ks := [CreateSnapshot (Some "nightly") "minor" [];
             RestoreSnapshot "9.9.9";
             CreateSnapshot None "release" [];
             RestoreSnapshot "1.1.0";
             CleanupOldSnapshots (-1)] in
  (perform_all demo_clock ks ws0).1 = Returns tt
  /\ well_versioned (perform_all demo_clock ks ws0).2.
Proof.
  apply (snapshot_calls_never_raise demo_clock
           [CreateSnapshot (Some "nightly") "minor" [];
            RestoreSnapshot "9.9.9";
            CreateSnapshot None "release" [];
            RestoreSnapshot "1.1.0";
            CleanupOldSnapshots (-1)] ws0).
  split.
  - exists 1, 0, 0. reflexivity.
  - intros e He. by apply elem_of_nil in He.
Defined.


(** X13: [create_snapshot] copies every state file into the directory of
    the new version and records their number and hash; it touches no other
    snapshot directory and, apart from the index [versions.json], no state
    file. (Files that an earlier snapshot left in the same directory, and
    that the state no longer has, stay there.) *)
Theorem create_snapshot_copies_state_files utcnow label increment metadata m v :
  (create_snapshot utcnow label increment metadata m).1 = Returns v ->
  let m' := (create_snapshot utcnow label increment metadata m).2 in
  let dir := backup_dir m +:+ "/v" +:+ v in
  current_version m' = v
  /\ (forall p content, state_files m !! p = Some content ->
      snapshot_file m' dir p = Some content)
  /\ (forall d, d <> dir -> backups m' !! d = backups m !! d)
  /\ (forall p, p <> versions_file -> state_files m' !! p = state_files m !! p)
  /\ exists e, versions m' = (versions m ++ [e])%list
       /\ version e = v /\ snapshot_dir e = dir
       /\ file_count e = size (state_files m)
       /\ state_hash e = _calculate_state_hash (state_files m).
Proof.
  destruct (_increment_version (current_version m) increment) as [nv|err]
    eqn:Hinc.
  - rewrite (create_snapshot_returns _ _ _ _ _ _ Hinc). cbn zeta.
    cbn [fst snd]. intros [= <-].
    cbn [current_version backups state_files versions snapshot_dir new_entry].
    split; [done|]. split; [|split; [|split]].
    + intros p content Hp. unfold snapshot_file. cbn [backups].
      rewrite lookup_insert_eq. cbn. by apply lookup_union_Some_l.
    + intros d Hd. by rewrite lookup_insert_ne.
    + intros p Hp. by rewrite lookup_insert_ne.
    + by eexists.
  - by rewrite (create_snapshot_raises _ _ _ _ _ _ Hinc).
Qed.

(** An instance of X13. *)
Lemma create_snapshot_copies_state_files_witness :
  let m' := (create_snapshot demo_clock None "patch" [] ws0).2 in
  let dir := backup_dir ws0 +:+ "/v" +:+ "1.0.1" in
  current_version m' = "1.0.1"
  /\ (forall p content, state_files ws0 !! p = Some content ->
      snapshot_file m' dir p = Some content)
  /\ (forall d, d <> dir -> backups m' !! d = backups ws0 !! d)
  /\ (forall p, p <> versions_file -> state_files m' !! p = state_files ws0 !! p)
  /\ exists e, versions m' = (versions ws0 ++ [e])%list
       /\ version e = "1.0.1" /\ snapshot_dir e = dir
       /\ file_count e = size (state_files ws0)
       /\ state_hash e = _calculate_state_hash (state_files ws0).
Proof.
  apply (create_snapshot_copies_state_files demo_clock None "patch" [] ws0
           "1.0.1").
  vm_compute. reflexivity.
Defined.

Lemma find_app_None {A} (f : A -> bool) (l1 l2 : list A) :
  find f l1 = None -> find f (l1 ++ l2) = find f l2.
Proof.
  induction l1 as [|x l1 IH]; [done|]. cbn. by destruct (f x).
Qed.

Lemma increment_version_result_well_formed version increment version' :
  _increment_version version increment = Returns version' ->
  well_formed version'.
Proof.
  intros H.
  assert (Hc := increment_version_cases version increment).
  destruct (version_numbers version) as [|[a|] [|[b|] [|[c|] [|? ?]]]] eqn:E;
    try congruence.
  destruct (incremented increment (a, b, c)) as [[a' b'] c'].
  rewrite H in Hc. injection Hc as ->.
  eexists _, _, _. apply version_numbers_rendered.
Qed.

Lemma append_inj_r (a x y : string) : a +:+ x = a +:+ y -> x = y.
Proof. induction a as [|c a IH]; simpl; [done|]. intros [= H]. by apply IH. Qed.

Lemma increment_version_differs version increment version' :
  _increment_version version increment = Returns version' ->
  version' <> version.
Proof.
  intros H ->.
  assert (Hc := increment_version_cases version increment).
  destruct (version_numbers version) as [|[a|] [|[b|] [|[c|] [|? ?]]]] eqn:E;
    try congruence.
  destruct (incremented increment (a, b, c)) as [[a' b'] c'] eqn:Ei.
  assert (Hv : version_numbers version = [Some a'; Some b'; Some c']).
  { rewrite H in Hc. injection Hc as ->. apply version_numbers_rendered. }
  rewrite E in Hv. injection Hv as -> -> ->.
  unfold incremented in Ei.
  destruct (String.eqb increment "major"); [injection Ei; lia|].
  destruct (String.eqb increment "minor"); injection Ei; lia.
Qed.

(** X14: point-in-time recovery. A snapshot taken into a new directory
    under a version that the history does not have yet can be restored
    after any change of the state files: [restore_snapshot] of the version
    that [create_snapshot] returned returns [True], makes it the current
    version, and every state file other than the index [versions.json] is
    as it was when the snapshot was taken; files created since are gone. *)
Theorem snapshot_restore_round_trip utcnow label increment metadata m v edited :
  (create_snapshot utcnow label increment metadata m).1 = Returns v ->
  backups m !! (backup_dir m +:+ "/v" +:+ v) = None ->
  (forall e, e ∈ versions m -> version e <> v) ->
  let m1 := (create_snapshot utcnow label increment metadata m).2 in
  let r := restore_snapshot utcnow v (set_state_files edited m1) in
  r.1 = Returns true
  /\ current_version r.2 = v
  /\ forall p, p <> versions_file -> state_files r.2 !! p = state_files m !! p.
Proof.
  destruct (_increment_version (current_version m) increment) as [nv|err]
    eqn:Hinc;
    [|by rewrite (create_snapshot_raises _ _ _ _ _ _ Hinc)].
  rewrite (create_snapshot_returns _ _ _ _ _ _ Hinc). cbn zeta. cbn [fst snd].
  intros [= <-] Hdir Hnew.
  set (e := new_entry utcnow label increment metadata nv m).
  set (m1 := set_state_files edited _).
  assert (Hfind : find (fun e => String.eqb (version e) nv) (versions m1)
                  = Some e).
  { cbn [m1 versions set_state_files]. rewrite find_app_None.
    - cbn. by rewrite String.eqb_refl.
    - destruct (find _ (versions m)) as [e'|] eqn:E; [|done].
      apply find_some in E as [Hin Heq].
      apply String.eqb_eq in Heq. apply list_elem_of_In in Hin.
      by apply Hnew in Hin. }
  assert (Hsnap : backups m1 !! snapshot_dir e = Some (state_files m)).
  { cbn [m1 backups set_state_files]. rewrite lookup_insert_eq.
    cbn [e snapshot_dir new_entry]. rewrite Hdir. cbn.
    by rewrite (right_id_L ∅ (∪)). }
  assert (Hwf := increment_version_result_well_formed _ _ _ Hinc).
  destruct (increment_version_well_formed nv "patch" Hwf) as (sv & Hsv & _).
  assert (Hne := increment_version_differs _ _ _ Hsv).
  rewrite (restore_snapshot_returns utcnow nv m1 e sv Hfind);
    [|by rewrite Hsnap|exact Hsv].
  rewrite (create_snapshot_returns utcnow _ "patch" [] m1 sv Hsv). cbn zeta.
  cbn [fst snd current_version state_files backups].
  split; [done|]. split; [done|].
  intros p Hp. rewrite lookup_insert_ne by done.
  rewrite lookup_insert_ne.
  - by rewrite Hsnap.
  - cbn [snapshot_dir new_entry e m1 backup_dir set_state_files].
    intros Heq. apply append_inj_r in Heq.
    change ("/v" +:+ sv = "/v" +:+ nv) in Heq.
    by apply append_inj_r in Heq.
Qed.

(** An instance of X14. *)
Lemma snapshot_restore_round_trip_witness :
  let edited := {[ ["a.json"] := "[1, 2]"; ["b.json"] := "{}" ]} in
  let m1 := (create_snapshot demo_clock None "patch" [] ws0).2 in
  let r := restore_snapshot demo_clock "1.0.1" (set_state_files edited m1) in
  r.1 = Returns true
  /\ current_version r.2 = "1.0.1"
  /\ forall p, p <> versions_file -> state_files r.2 !! p = state_files ws0 !! p.
Proof.
  apply (snapshot_restore_round_trip demo_clock None "patch" [] ws0 "1.0.1"
           {[ ["a.json"] := "[1, 2]"; ["b.json"] := "{}" ]}).
  - vm_compute. reflexivity.
  - reflexivity.
  - intros e He. by apply elem_of_nil in He.
Defined.


(** X15: a successful [restore_snapshot] first stores the state it is
    about to replace: the history gets one more entry, labelled
    [Before restore to v...], whose snapshot directory holds every state
    file as it was before the call and whose hash is the hash of these
    files. No other snapshot directory is changed; none is removed. *)
Theorem restore_snapshot_keeps_replaced_state utcnow v m :
  (restore_snapshot utcnow v m).1 = Returns true ->
  let r := (restore_snapshot utcnow v m).2 in
  current_version r = v
  /\ exists safety,
      versions r = (versions m ++ [safety])%list
      /\ label safety = Some ("Before restore to v" +:+ v)
      /\ _increment_version (current_version m) "patch"
         = Returns (version safety)
      /\ state_hash safety = _calculate_state_hash (state_files m)
      /\ (forall p content, state_files m !! p = Some content ->
          snapshot_file r (snapshot_dir safety) p = Some content)
      /\ (forall d, d <> snapshot_dir safety ->
          backups r !! d = backups m !! d).
Proof.
  destruct (find (fun e => String.eqb (version e) v) (versions m)) as [e|]
    eqn:Hfind.
  2:{ unfold restore_snapshot. step_method. by rewrite Hfind. }
  destruct (backups m !! snapshot_dir e) as [snap|] eqn:Hdir.
  2:{ unfold restore_snapshot. step_method. rewrite Hfind, Hdir.
      by rewrite bool_decide_eq_false_2 by (by intros [? ?]). }
  destruct (_increment_version (current_version m) "patch") as [sv|err]
    eqn:Hinc.
  2:{ unfold restore_snapshot. step_method. rewrite Hfind, Hdir.
      rewrite bool_decide_eq_true_2 by done. cbn [negb].
      by rewrite (create_snapshot_raises _ _ _ _ _ _ Hinc). }
  rewrite (restore_snapshot_returns utcnow v m e sv Hfind) by done.
  rewrite (create_snapshot_returns _ _ _ _ _ _ Hinc). cbn zeta.
  intros _. cbn [fst snd current_version versions backups].
  split; [done|]. eexists. split; [reflexivity|].
  cbn [label version state_hash snapshot_dir new_entry].
  split; [done|]. split; [done|]. split; [done|]. split.
  - intros p content Hp. unfold snapshot_file. cbn [backups].
    rewrite lookup_insert_eq. cbn. by apply lookup_union_Some_l.
  - intros d Hd. by rewrite lookup_insert_ne.
Qed.

(** An instance of X15. *)
Lemma restore_snapshot_keeps_replaced_state_witness :
  let r := (restore_snapshot demo_clock "1.0.1" edited2).2 in
  current_version r = "1.0.1"
  /\ exists safety,
      versions r = (versions edited2 ++ [safety])%list
      /\ label safety = Some ("Before restore to v" +:+ "1.0.1")
      /\ _increment_version (current_version edited2) "patch"
         = Returns (version safety)
      /\ state_hash safety = _calculate_state_hash (state_files edited2)
      /\ (forall p content, state_files edited2 !! p = Some content ->
          snapshot_file r (snapshot_dir safety) p = Some content)
      /\ (forall d, d <> snapshot_dir safety ->
          backups r !! d = backups edited2 !! d).
Proof.
  apply (restore_snapshot_keeps_replaced_state demo_clock "1.0.1" edited2).
  vm_compute. reflexivity.
Defined.

(** X16: when the current version is ASCII text that does not consist of
    three numbers as [int] reads them (an index file may say so),
    [create_snapshot] raises [ValueError] before it has changed anything,
    in every manager and for every argument; and so does every
    [restore_snapshot] that has found its entry and its snapshot directory:
    nothing is restored, and no file, directory or history entry is
    touched. *)
Theorem malformed_version_blocks_snapshots utcnow m label increment metadata :
  isascii (current_version m) = true ->
  ~ well_formed (current_version m) ->
  create_snapshot utcnow label increment metadata m = (Raises ValueError, m)
  /\ forall v e,
       find (fun e => String.eqb (version e) v) (versions m) = Some e ->
       is_Some (backups m !! snapshot_dir e) ->
       restore_snapshot utcnow v m = (Raises ValueError, m).
Proof.
  intros _ Hwf.
  assert (Hinc : forall increment,
            _increment_version (current_version m) increment = Raises ValueError)
    by (intros i; by apply increment_version_raises).
  split; [by apply create_snapshot_raises|].
  intros v e Hfind Hdir.
  unfold restore_snapshot. step_method. rewrite Hfind.
  rewrite bool_decide_eq_true_2 by done. cbn [negb].
  by rewrite (create_snapshot_raises _ _ _ _ _ _ (Hinc "patch")).
Qed.

(** An instance of X16. *)
Lemma malformed_version_blocks_snapshots_witness :
  let m := set_current_version "1.0" (fresh "/ws/backups/system") in
  create_snapshot demo_clock None "patch" [] m = (Raises ValueError, m)
  /\ forall v e,
       find (fun e => String.eqb (version e) v) (versions m) = Some e ->
       is_Some (backups m !! snapshot_dir e) ->
       restore_snapshot demo_clock v m = (Raises ValueError, m).
Proof.
  apply (malformed_version_blocks_snapshots demo_clock
           (set_current_version "1.0" (fresh "/ws/backups/system"))
           None "patch" []).
  - vm_compute. reflexivity.
  - intros (a & b & c & H). vm_compute in H. discriminate.
Defined.

Lemma slice_to_length {A} (k : Z) (l : list A) :
  0 <= k -> Z.of_nat (length (slice_to k l)) <= k.
Proof.
  intros Hk. unfold slice_to. rewrite (proj2 (Z.leb_le 0 k)) by done.
  rewrite length_take. lia.
Qed.

(** X17: for a count that is not negative, [cleanup_old_snapshots] is
    idempotent: a second call with the same count returns at once and
    changes nothing, not even the index file. (With a negative count every
    call removes entries.) *)
Theorem cleanup_old_snapshots_idempotent utcnow keep m :
  0 <= keep ->
  let m' := (cleanup_old_snapshots utcnow keep m).2 in
  Z.of_nat (length (versions m')) <= keep
  /\ cleanup_old_snapshots utcnow keep m' = (Returns tt, m').
Proof.
  intros Hk. cbv zeta.
  destruct (cleanup_old_snapshots_kept utcnow keep m) as (_ & _ & Hv).
  assert (Hlen : Z.of_nat (length (versions (cleanup_old_snapshots utcnow keep m).2))
                 <= keep).
  { rewrite Hv. destruct (_ <=? keep) eqn:E; [by apply Z.leb_le|].
    by apply slice_to_length. }
  split; [done|].
  generalize dependent (cleanup_old_snapshots utcnow keep m).2.
  intros m' _ Hlen. unfold cleanup_old_snapshots. step_method.
  by rewrite (proj2 (Z.leb_le _ _) Hlen).
Qed.

(** An instance of X17. *)
Lemma cleanup_old_snapshots_idempotent_witness :
  let m' := (cleanup_old_snapshots demo_clock 1 ws3).2 in
  Z.of_nat (length (versions m')) <= 1
  /\ cleanup_old_snapshots demo_clock 1 m' = (Returns tt, m').
Proof.
  apply (cleanup_old_snapshots_idempotent demo_clock 1 ws3). lia.
Defined.

Lemma sorted_app_l {A} (R : A -> A -> Prop) (l1 l2 : list A) :
  StronglySorted R (l1 ++ l2) -> StronglySorted R l1.
Proof.
  induction l1 as [|x l1 IH]; cbn; [constructor|].
  intros [Hs Hx]%StronglySorted_inv. constructor; [by apply IH|].
  apply Forall_app in Hx. tauto.
Qed.

(** X18: a [cleanup_old_snapshots] that removes entries leaves the
    history in the order of its ranking, latest timestamp first, whereas
    [create_snapshot] appends at the end: the order of
    [get_version_history] turns round. *)
Theorem cleanup_old_snapshots_reorders_history utcnow keep m :
  keep < Z.of_nat (length (versions m)) ->
  StronglySorted (fun a b => String.leb (timestamp b) (timestamp a) = true)
    (get_version_history (cleanup_old_snapshots utcnow keep m).2).
Proof.
  intros Hlen. unfold get_version_history.
  destruct (cleanup_old_snapshots_kept utcnow keep m) as (_ & _ & ->).
  rewrite (proj2 (Z.leb_gt _ _)) by done.
  apply (sorted_app_l _ _ (slice_from keep (by_timestamp_desc (versions m)))).
  rewrite slice_to_from. apply by_timestamp_desc_sorted.
Qed.

(** An instance of X18. *)
Lemma cleanup_old_snapshots_reorders_history_witness :
  StronglySorted (fun a b => String.leb (timestamp b) (timestamp a) = true)
    (get_version_history (cleanup_old_snapshots demo_clock 2 ws3).2).
Proof.
  apply (cleanup_old_snapshots_reorders_history demo_clock 2 ws3).
  vm_compute. reflexivity.
Defined.

End StateStoreProps.
(* ===================================================================== *)
(** * Properties of the orchestrator *)
(* ===================================================================== *)

Module OrchestratorProps.
Import Orchestrator.

(** Unfolds the sequencing of a method body. *)
Ltac step_method :=
  cbv [mbind M_bind mret M_ret get modify lift raise utc_now uuid4
       execute_task queue_put queue_get];
  cbn beta iota.

(** [try_except] leaves the state as the body leaves it. *)
Lemma try_except_snd {S} (c : M S unit) (s : S) : (try_except c s).2 = (c s).2.
Proof.
  unfold try_except. destruct (c s) as [[[]|e] s']; [done|].
  by destruct (bool_decide (e = SystemExit)).
Qed.

(** ** The heap operations keep the entries *)

Lemma swap_elem_of {A} (i j : nat) (l : list A) (e : A) :
  e ∈ swap i j l <-> e ∈ l.
Proof.
  unfold swap.
  destruct (l !! i) as [x|] eqn:Hi; [|done].
  destruct (l !! j) as [y|] eqn:Hj; [|done].
  assert (Hil := lookup_lt_Some _ _ _ Hi).
  assert (Hjl := lookup_lt_Some _ _ _ Hj).
  rewrite !list_elem_of_lookup. split.
  - intros [k Hk]. apply list_lookup_insert_Some in Hk as [(-> & -> & _)|[_ Hk]].
    { eauto. }
    apply list_lookup_insert_Some in Hk as [(-> & -> & _)|[_ Hk]]; eauto.
  - intros [k Hk].
    destruct (decide (k = i)) as [->|Hki].
    { exists j. rewrite list_lookup_insert_eq by (by rewrite length_insert).
      congruence. }
    destruct (decide (k = j)) as [->|Hkj].
    { exists i. rewrite list_lookup_insert_ne by done.
      rewrite list_lookup_insert_eq by done. congruence. }
    exists k. by rewrite !list_lookup_insert_ne.
Qed.

Lemma swap_length {A} (i j : nat) (l : list A) : length (swap i j l) = length l.
Proof.
  unfold swap. destruct (l !! i); [|done]. destruct (l !! j); [|done].
  by rewrite !length_insert.
Qed.

Lemma siftdown_loop_elem_of fuel heap startpos pos e :
  e ∈ (siftdown_loop fuel heap startpos pos).2 <-> e ∈ heap.
Proof.
  revert heap pos. induction fuel as [|fuel IH]; intros heap pos; [done|].
  cbn [siftdown_loop]. destruct (startpos <? pos)%nat; [|done].
  destruct (heap !! pos) as [newitem|]; [|done].
  destruct (heap !! ((pos - 1) / 2)%nat) as [parent|]; [|done].
  destruct (entry_lt newitem parent) as [[|]|]; try done.
  rewrite IH. apply swap_elem_of.
Qed.

Lemma siftup_loop_elem_of fuel heap pos e :
  e ∈ (siftup_loop fuel heap pos).2 <-> e ∈ heap.
Proof.
  revert heap pos. induction fuel as [|fuel IH]; intros heap pos; [done|].
  cbn [siftup_loop]. destruct (pos <? length heap / 2)%nat; [|done].
  match goal with |- context [match ?c with Returns _ => _ | Raises _ => _ end] =>
    destruct c as [childpos|] end; [|done].
  rewrite IH. apply swap_elem_of.
Qed.

Lemma siftup_elem_of heap pos e : e ∈ (_siftup heap pos).2 <-> e ∈ heap.
Proof.
  unfold _siftup.
  destruct (siftup_loop (length heap) heap pos) as [[pos'|err] heap'] eqn:E;
    assert (He := siftup_loop_elem_of (length heap) heap pos e);
    rewrite E in He; [|done].
  unfold _siftdown. by rewrite siftdown_loop_elem_of.
Qed.

(** After [heappush], whether it returned or raised, the heap holds the
    old entries and the new one. *)
Lemma heappush_elem_of heap item e :
  e ∈ (heappush heap item).2 <-> e ∈ heap \/ e = item.
Proof.
  unfold heappush, _siftdown. rewrite siftdown_loop_elem_of.
  rewrite elem_of_app, list_elem_of_singleton. done.
Qed.

Lemma removelast_last {A} (l : list A) (x : A) :
  last l = Some x -> l = (removelast l ++ [x])%list.
Proof.
  induction l as [|a l IH]; [done|]. destruct l as [|b l]; cbn.
  - by intros [= ->].
  - intros H. f_equal. by apply IH.
Qed.

(** [heappop] takes its result from the heap and leaves no entry that was
    not there. *)
Lemma heappop_elem_of heap r heap' :
  heappop heap = Some (r, heap') ->
  (forall e, e ∈ heap' -> e ∈ heap)
  /\ (forall item, r = Returns item -> item ∈ heap).
Proof.
  unfold heappop. destruct (last heap) as [lastelt|] eqn:Hlast; [|done].
  apply removelast_last in Hlast.
  destruct (removelast heap) as [|returnitem rest] eqn:Hrem.
  - intros [= <- <-]. split; [by intros e He%elem_of_nil|].
    intros item [= <-]. rewrite Hlast. set_solver.
  - assert (Hsub : forall e,
      e ∈ (_siftup (<[0%nat:=lastelt]> (returnitem :: rest)) 0).2 -> e ∈ heap).
    { intros e. rewrite siftup_elem_of. cbn. rewrite Hlast. set_solver. }
    destruct (_siftup _ 0) as [[[]|err] h] eqn:E; intros [= <- <-];
      (split; [exact Hsub|]); [|done].
    intros item [= <-]. rewrite Hlast. set_solver.
Qed.

Lemma heappop_is_Some heap : heap <> [] -> is_Some (heappop heap).
Proof.
  intros Hne. unfold heappop.
  destruct (last heap) eqn:Hlast.
  - destruct (removelast heap); [by eexists|].
    destruct (_siftup _ 0) as [[|] ?]; by eexists.
  - by apply last_None in Hlast.
Qed.

Lemma swap_lookup {A} (i j k : nat) (l : list A) (x y : A) :
  l !! i = Some x -> l !! j = Some y ->
  swap i j l !! k
  = if decide (k = j) then Some x else if decide (k = i) then Some y else l !! k.
Proof.
  intros Hi Hj. unfold swap. rewrite Hi, Hj.
  assert (Hil := lookup_lt_Some _ _ _ Hi).
  assert (Hjl := lookup_lt_Some _ _ _ Hj).
  destruct (decide (k = j)) as [->|Hkj].
  { by rewrite list_lookup_insert_eq by (by rewrite length_insert). }
  rewrite list_lookup_insert_ne by done.
  destruct (decide (k = i)) as [->|Hki].
  { by rewrite list_lookup_insert_eq. }
  by rewrite list_lookup_insert_ne.
Qed.

(** A comparison of two entries raises only on equal numbers. *)
Lemma entry_lt_raises a b err : entry_lt a b = Raises err -> a.1 = b.1.
Proof.
  unfold entry_lt. destruct (a.1 =? b.1) eqn:E; [|done].
  intros _. by apply Z.eqb_eq.
Qed.

Lemma siftdown_loop_no_tie fuel heap startpos pos item :
  heap !! pos = Some item ->
  (forall k e, k <> pos -> heap !! k = Some e -> e.1 <> item.1) ->
  (siftdown_loop fuel heap startpos pos).1 = Returns tt.
Proof.
  revert heap pos. induction fuel as [|fuel IH]; intros heap pos Hpos Hother;
    [done|].
  cbn [siftdown_loop]. destruct (startpos <? pos)%nat eqn:Hlt; [|done].
  apply Nat.ltb_lt in Hlt. rewrite Hpos.
  assert (Hparent : ((pos - 1) / 2 <> pos)%nat).
  { assert ((pos - 1) / 2 <= pos - 1)%nat by (apply Nat.Div0.div_le_upper_bound; lia).
    lia. }
  destruct (heap !! ((pos - 1) / 2)%nat) as [parent|] eqn:Hp; [|done].
  destruct (entry_lt item parent) as [[|]|err] eqn:Hcmp; [|done|].
  - apply IH.
    + rewrite (swap_lookup _ _ _ _ _ _ Hpos Hp). by rewrite decide_True.
    + intros k e Hk. rewrite (swap_lookup _ _ _ _ _ _ Hpos Hp).
      rewrite decide_False by done.
      destruct (decide (k = pos)) as [->|Hkp].
      * intros [= <-]. by eapply Hother.
      * by apply Hother.
  - apply entry_lt_raises in Hcmp. symmetry in Hcmp.
    by apply Hother in Hp.
Qed.

(** [heappush] returns when no entry of the heap carries the number of the
    new entry. *)
Lemma heappush_no_tie heap item :
  (forall e, e ∈ heap -> e.1 <> item.1) -> (heappush heap item).1 = Returns tt.
Proof.
  intros Hne. unfold heappush, _siftdown.
  apply (siftdown_loop_no_tie _ _ _ _ item).
  - rewrite lookup_app_r by done. by rewrite Nat.sub_diag.
  - intros k e Hk He. apply Hne.
    apply lookup_app_Some in He as [He|[Hge He]].
    + by eapply list_elem_of_lookup_2.
    + destruct (k - length heap)%nat as [|n] eqn:Hn; [lia|]. done.
Qed.

(** ** The loops of the heap operations run to their end

    The fuel of the two loops is never what stops them: any larger amount
    gives the same result. *)

Lemma siftdown_loop_fuel fuel1 fuel2 heap startpos pos :
  (pos <= fuel1)%nat -> (pos <= fuel2)%nat ->
  siftdown_loop fuel1 heap startpos pos = siftdown_loop fuel2 heap startpos pos.
Proof.
  revert fuel2 heap pos.
  induction fuel1 as [|fuel1 IH]; intros [|fuel2] heap pos H1 H2;
    cbn [siftdown_loop]; try done.
  - assert (pos = 0)%nat as -> by lia. by destruct startpos.
  - assert (pos = 0)%nat as -> by lia. by destruct startpos.
  - destruct (startpos <? pos)%nat eqn:Hlt; [|done].
    apply Nat.ltb_lt in Hlt.
    destruct (heap !! pos); [|done].
    destruct (heap !! ((pos - 1) / 2)%nat); [|done].
    destruct (entry_lt _ _) as [[|]|]; try done.
    assert ((pos - 1) / 2 <= pos - 1)%nat
      by (apply Nat.Div0.div_le_upper_bound; lia).
    apply IH; lia.
Qed.

Lemma siftup_loop_fuel fuel1 fuel2 heap pos :
  (length heap - pos <= fuel1)%nat -> (length heap - pos <= fuel2)%nat ->
  siftup_loop fuel1 heap pos = siftup_loop fuel2 heap pos.
Proof.
  revert fuel2 heap pos.
  assert (Hhalf : forall n : nat, (n / 2 <= n)%nat)
    by (intros n; apply Nat.Div0.div_le_upper_bound; lia).
  assert (Hend : forall (heap : list (Z * TaskWrapper)) pos,
            (length heap - pos = 0)%nat -> (pos <? length heap / 2)%nat = false).
  { intros heap pos H. apply Nat.ltb_ge. specialize (Hhalf (length heap)). lia. }
  induction fuel1 as [|fuel1 IH]; intros [|fuel2] heap pos H1 H2;
    cbn [siftup_loop]; try done.
  - rewrite Hend by lia. done.
  - rewrite Hend by lia. done.
  - destruct (pos <? length heap / 2)%nat eqn:Hlt; [|done].
    apply Nat.ltb_lt in Hlt. specialize (Hhalf (length heap)).
    match goal with |- context [match ?c with Returns _ => _ | Raises _ => _ end] =>
      destruct c as [childpos|] eqn:Hc end; [|done].
    assert (pos < childpos)%nat.
    { destruct (2 * pos + 1 + 1 <? length heap)%nat; [|injection Hc; lia].
      destruct (heap !! (2 * pos + 1)%nat); [|injection Hc; lia].
      destruct (heap !! (2 * pos + 1 + 1)%nat); [|injection Hc; lia].
      destruct (entry_lt _ _) as [[|]|]; [injection Hc; lia..|done]. }
    apply IH; rewrite swap_length; lia.
Qed.

(** The queue hands out the smaller number first, whatever the order in
    which two entries were put. *)
Lemma heap_pops_smaller_number_first (a b : Z * TaskWrapper) :
  a.1 < b.1 ->
  heappush [] a = (Returns tt, [a])
  /\ heappush [a] b = (Returns tt, [a; b])
  /\ heappush [] b = (Returns tt, [b])
  /\ heappush [b] a = (Returns tt, [a; b])
  /\ heappop [a; b] = Some (Returns a, [b])
  /\ heappop [b] = Some (Returns b, []).
Proof.
  intros Hlt.
  assert (Hba : entry_lt b a = Returns false).
  { unfold entry_lt. rewrite (proj2 (Z.eqb_neq _ _)) by lia.
    by rewrite (proj2 (Z.ltb_ge _ _)) by lia. }
  assert (Hab : entry_lt a b = Returns true).
  { unfold entry_lt. rewrite (proj2 (Z.eqb_neq _ _)) by lia.
    by rewrite (proj2 (Z.ltb_lt _ _)) by lia. }
  repeat split; try done; cbv [heappush _siftdown]; cbn; by rewrite ?Hba, ?Hab.
Qed.

(** ** Saving the state *)

Lemma wrapper_not_serializable w : json_serializable (wrapper_obj w) = false.
Proof.
  unfold wrapper_obj, wrapper_members. cbn [json_serializable forallb snd].
  by rewrite andb_false_r.
Qed.

Lemma wrappers_not_serializable (ws : list TaskWrapper) :
  ws <> [] -> forallb json_serializable (map wrapper_obj ws) = false.
Proof.
  destruct ws as [|w ws]; [done|]. intros _. cbn [map forallb].
  by rewrite wrapper_not_serializable.
Qed.

Lemma agents_serializable (l : list (string * Agent)) :
  forallb (fun kv : string * pyobj => json_serializable kv.2)
    (map (fun ka : string * Agent =>
            (ka.1, ODict [("name", OStr (agent_label ka.2));
                          ("type", OStr (agent_type ka.2))])) l) = true.
Proof. induction l as [|a l IH]; [done|]. cbn. exact IH. Qed.

(** [json.dump] gets through exactly when no task wrapper is in the
    state to save. *)
Lemma state_data_serializable s stamp :
  json_serializable (state_data s stamp)
  = bool_decide (active_tasks s = ∅ /\ completed_tasks s = []
                 /\ pending_approval s = []).
Proof.
  unfold state_data. cbn [json_serializable forallb snd].
  rewrite agents_serializable. cbn [andb].
  destruct (decide (active_tasks s = ∅)) as [Ha|Ha].
  - rewrite Ha, map_to_list_empty. cbn [map forallb andb].
    destruct (completed_tasks s) as [|c cs] eqn:Hc.
    + cbn [length drop map forallb andb Nat.sub].
      destruct (pending_approval s) as [|p ps] eqn:Hp.
      * cbn. by rewrite bool_decide_eq_true_2.
      * rewrite wrappers_not_serializable by done. cbn.
        rewrite bool_decide_eq_false_2; [done|]. naive_solver.
    + rewrite wrappers_not_serializable.
      * cbn. rewrite bool_decide_eq_false_2; [done|]. naive_solver.
      * intros Hnil. apply (f_equal length) in Hnil.
        rewrite length_drop in Hnil. cbn [length] in Hnil. lia.
  - destruct (map_to_list (active_tasks s)) as [|[k w] l] eqn:Hl.
    + by apply map_to_list_empty_iff in Hl.
    + cbn [map forallb snd]. rewrite wrapper_not_serializable. cbn.
      rewrite bool_decide_eq_false_2; [done|]. naive_solver.
Qed.

Section Environment.
Variable utcnow : nat -> string.
Variable uuid4_hex8 : nat -> string.
Variable agent_execute : nat -> Agent -> Task -> agent_outcome.

Lemma save_state_raises s :
  active_tasks s <> ∅ \/ completed_tasks s <> [] \/ pending_approval s <> [] ->
  _save_state utcnow s
  = (Raises TypeError, set_state_file Truncated (set_clock (S (clock s)) s)).
Proof.
  intros H. unfold _save_state. step_method.
  rewrite state_data_serializable.
  rewrite bool_decide_eq_false_2; [done|].
  cbn. naive_solver.
Qed.

Lemma save_state_returns s :
  active_tasks s = ∅ -> completed_tasks s = [] -> pending_approval s = [] ->
  _save_state utcnow s
  = (Returns tt,
     set_state_file
       (Document (state_data (set_clock (S (clock s)) s) (utcnow (clock s))))
       (set_clock (S (clock s)) s)).
Proof.
  intros Ha Hc Hp. unfold _save_state. step_method.
  rewrite state_data_serializable.
  by rewrite bool_decide_eq_true_2.
Qed.

(** C2: whenever [submit_task] is called with [requires_approval=True], or
    while the autonomy level is [MANUAL], the wrapper is appended to
    [pending_approval] with status [WAITING_APPROVAL] and its priority (two
    enumeration members); [_save_state] then hands it to [json.dump],
    which raises [TypeError]: the call raises and returns no task id. The
    state file is left cut short. *)
Theorem submit_task_approval_path_raises (s : Orchestrator)
    (agent_name : string) (task : Task) (priority : AgentPriority)
    (dependencies : option (list string)) (requires_approval : bool) :
  requires_approval = true \/ autonomy_level s = MANUAL ->
  let r := submit_task utcnow uuid4_hex8 agent_name task priority dependencies
             requires_approval s in
  let w := set_status WAITING_APPROVAL
             (new_wrapper utcnow uuid4_hex8 agent_name task priority dependencies
                requires_approval s) in
  r.1 = Raises TypeError
  /\ pending_approval r.2 = (pending_approval s ++ [w])%list
  /\ ("status", OStatus WAITING_APPROVAL) ∈ wrapper_members w
  /\ ("priority", OPriority priority) ∈ wrapper_members w
  /\ json_serializable (wrapper_obj w) = false
  /\ task_queue r.2 = task_queue s
  /\ state_file r.2 = Truncated.
Proof.
  intros Happroval. cbv zeta.
  assert (Hgate : requires_approval || bool_decide (autonomy_level s = MANUAL)
                  = true).
  { destruct Happroval as [->|Hm]; [done|].
    rewrite (bool_decide_eq_true_2 _ Hm). apply orb_true_r. }
  assert (Hmembers : forall w : TaskWrapper,
            ("status", OStatus (status w)) ∈ wrapper_members w
            /\ ("priority", OPriority (Orchestrator.priority w))
               ∈ wrapper_members w).
  { intros w. unfold wrapper_members. split; set_solver. }
  destruct (Hmembers (set_status WAITING_APPROVAL
              (new_wrapper utcnow uuid4_hex8 agent_name task priority
                 dependencies requires_approval s))) as [Hst Hpr].
  split; [|split; [|split; [exact Hst|split; [exact Hpr
    |split; [apply wrapper_not_serializable|]]]]].
  all: unfold submit_task, new_wrapper; step_method;
    cbn [autonomy_level set_draws set_clock]; rewrite !Hgate;
    destruct dependencies as [[|d ds]|]; step_method;
    (rewrite save_state_raises;
     [ repeat split; reflexivity
     | right; right; cbn; by destruct (pending_approval s) ]).
Qed.

(** C8 (amended): [submit_task] hands back the ["id"] entry of the
    caller's dictionary when there is one, and otherwise [task_] followed
    by the first eight hexadecimal digits of a new [uuid4]; it does not
    compare the id with the ids of earlier tasks. It returns (rather than
    raises) on the path without approval when no task wrapper is in the
    state to save and no queued entry has the number of the new
    priority. *)
Theorem submit_task_returns_given_or_generated_id (s : Orchestrator)
    (agent_name : string) (task : Task) (priority : AgentPriority)
    (dependencies : option (list string)) :
  autonomy_level s <> MANUAL ->
  active_tasks s = ∅ -> completed_tasks s = [] -> pending_approval s = [] ->
  (forall e, e ∈ task_queue s -> e.1 <> value priority) ->
  (submit_task utcnow uuid4_hex8 agent_name task priority dependencies false s).1
  = Returns (default ("task_" +:+ uuid4_hex8 (draws s)) (id task)).
Proof.
  intros Hlevel Ha Hc Hp Hq.
  unfold submit_task. step_method. cbn [autonomy_level set_draws set_clock].
  rewrite (bool_decide_eq_false_2 _ Hlevel). cbn [orb].
  set (w := {| task_id := _ |}).
  assert (Hpush : forall heap, (forall e, e ∈ heap -> e.1 <> value priority) ->
            exists heap', heappush heap (value priority, w) = (Returns tt, heap')).
  { intros heap Hheap. destruct (heappush heap _) as [r heap'] eqn:E.
    assert (Hr := heappush_no_tie heap (value priority, w) Hheap).
    rewrite E in Hr. cbn in Hr. subst r. by eexists. }
  destruct dependencies as [[|d ds]|]; step_method;
    cbn [task_queue set_task_graph set_clock set_draws];
    destruct (Hpush _ Hq) as [heap' ->];
    by rewrite save_state_returns.
Qed.

End Environment.

(** An instance of C2: a task submitted with [requires_approval=True]. *)
Lemma submit_task_approval_path_raises_witness :
  let s := started in
  let r := submit_task demo_clock demo_uuid "coder"
             (mkTask None (Some "build") ∅) MEDIUM None true s in
  let w := set_status WAITING_APPROVAL
             (new_wrapper demo_clock demo_uuid "coder"
                (mkTask None (Some "build") ∅) MEDIUM None true s) in
  r.1 = Raises TypeError
  /\ pending_approval r.2 = (pending_approval s ++ [w])%list
  /\ ("status", OStatus WAITING_APPROVAL) ∈ wrapper_members w
  /\ ("priority", OPriority MEDIUM) ∈ wrapper_members w
  /\ json_serializable (wrapper_obj w) = false
  /\ task_queue r.2 = task_queue s
  /\ state_file r.2 = Truncated.
Proof.
  apply (submit_task_approval_path_raises demo_clock demo_uuid started "coder"
           (mkTask None (Some "build") ∅) MEDIUM None true).
  left. reflexivity.
Defined.

(** C8, the claim as stated fails: two calls of [submit_task] whose task
    dictionaries carry the same ["id"] both return that id. *)
Lemma submit_task_repeats_given_id :
  let job := mkTask (Some "job") (Some "build") ∅ in
  let first := submit_task demo_clock demo_uuid "coder" job HIGH None false
                 started in
  let second := submit_task demo_clock demo_uuid "coder" job CRITICAL None false
                  first.2 in
  first.1 = Returns "job" /\ second.1 = Returns "job".
Proof. vm_compute. split; reflexivity. Qed.

(** An instance of the amended C8: a dictionary without ["id"]. *)
Lemma submit_task_returns_given_or_generated_id_witness :
  (submit_task demo_clock demo_uuid "coder" (mkTask None (Some "build") ∅) HIGH
     None false started).1
  = Returns "task_a3f0c1d0".
Proof.
  apply (submit_task_returns_given_or_generated_id demo_clock demo_uuid started
           "coder" (mkTask None (Some "build") ∅) HIGH None).
  - vm_compute. discriminate.
  - reflexivity.
  - reflexivity.
  - reflexivity.
  - intros e He. vm_compute in He. by apply elem_of_nil in He.
Defined.

(** ** The order of dispatch *)

(** C1, evaluated on the code: T1 is submitted with priority [HIGH], then
    T2 with priority [CRITICAL], neither with dependencies; the queue
    entries are [(3, T1)] and [(4, T2)], the heap hands out the smallest
    number first, and the two worker turns dispatch T1, then T2. A third
    task submitted with priority [HIGH] while T1 is queued makes
    [submit_task] raise [TypeError], since the two wrappers of the tie have
    no order. *)
Theorem worker_dispatches_high_before_critical :
  let T1 := mkTask None (Some "T1") ∅ in
  let T2 := mkTask None (Some "T2") ∅ in
  let T3 := mkTask None (Some "T3") ∅ in
  let queued :=
    execution demo_clock demo_uuid demo_agents
      [SubmitTask "coder" T1 HIGH None false;
       SubmitTask "coder" T2 CRITICAL None false] started in
  let final :=
    execution demo_clock demo_uuid demo_agents [WorkerTurn; WorkerTurn] queued in
  (fun e => (e.1, name (task e.2))) <$> task_queue queued
    = [(3, Some "T1"); (4, Some "T2")]
  /\ (fun w => (name (task w), priority w)) <$> dispatched final
    = [(Some "T1", HIGH); (Some "T2", CRITICAL)]
  /\ (submit_task demo_clock demo_uuid "coder" T3 HIGH None false queued).1
    = Raises TypeError.
Proof. vm_compute. repeat split; reflexivity. Qed.

(** ** Tasks that wait for their dependencies *)

Lemma consistent_initial oid level : consistent [] (initial oid level).
Proof.
  split; cbn.
  - by intros e ?%elem_of_nil.
  - by intros w ?%elem_of_nil.
  - by intros w d ?%elem_of_nil.
Qed.

Lemma consistent_mono ids ids' s :
  ids ⊆ ids' -> consistent ids s -> consistent ids' s.
Proof.
  intros Hsub [Hq Hp Hd]. split; [| |done].
  - intros e He. destruct (Hq e He). split; [done|]. by apply Hsub.
  - intros w Hw. destruct (Hp w Hw). split; [done|]. by apply Hsub.
Qed.

(** [consistent] only reads five fields. *)
Lemma consistent_frame ids s s' :
  task_queue s' = task_queue s ->
  pending_approval s' = pending_approval s ->
  task_graph s' = task_graph s ->
  completed_tasks s' = completed_tasks s ->
  dispatched s' = dispatched s ->
  consistent ids s -> consistent ids s'.
Proof.
  intros Hq Hp Hg Hc Hd [H1 H2 H3].
  assert (Hids : completed_ids s' = completed_ids s)
    by (unfold completed_ids; by rewrite Hc).
  assert (Hreg : forall w, registered s' w <-> registered s w)
    by (intros w; unfold registered; by rewrite Hg).
  split.
  - intros e He. rewrite Hq in He. rewrite Hreg. by apply H1.
  - intros w Hw. rewrite Hp in Hw. rewrite Hreg. by apply H2.
  - intros w d Hw Hdep. rewrite Hd in Hw. rewrite Hids. by eapply H3.
Qed.

Lemma completed_ids_app s (ws : list TaskWrapper) d :
  d ∈ completed_ids s ->
  d ∈ completed_ids (set_completed_tasks (completed_tasks s ++ ws) s).
Proof.
  unfold completed_ids. cbn [completed_tasks set_completed_tasks].
  rewrite !elem_of_list_to_set, filter_app, fmap_app, elem_of_app. by left.
Qed.

Section Invariant.
Variable utcnow : nat -> string.
Variable uuid4_hex8 : nat -> string.
Variable agent_execute : nat -> Agent -> Task -> agent_outcome.

Lemma save_state_frame s :
  let s' := (_save_state utcnow s).2 in
  task_queue s' = task_queue s /\ pending_approval s' = pending_approval s
  /\ task_graph s' = task_graph s /\ completed_tasks s' = completed_tasks s
  /\ dispatched s' = dispatched s /\ active_tasks s' = active_tasks s
  /\ agents s' = agents s /\ autonomy_level s' = autonomy_level s
  /\ draws s' = draws s.
Proof.
  unfold _save_state. step_method. by destruct (json_serializable _).
Qed.

Lemma consistent_save_state ids s :
  consistent ids s -> consistent ids (_save_state utcnow s).2.
Proof.
  destruct (save_state_frame s) as (?&?&?&?&?&_). by apply consistent_frame.
Qed.

Lemma consistent_queue_put ids s priority w :
  consistent ids s -> registered s w -> task_id w ∈ ids ->
  consistent ids (queue_put (priority, w) s).2.
Proof.
  intros [Hq Hp Hd] Hw Hid. unfold queue_put.
  destruct (heappush (task_queue s) (priority, w)) as [r heap] eqn:E.
  assert (Hin := fun e => heappush_elem_of (task_queue s) (priority, w) e).
  rewrite E in Hin. cbn [snd] in *.
  split; cbn; [|done|done].
  intros e [He| ->]%Hin; [by apply Hq|done].
Qed.

Lemma consistent_queue_get ids s :
  consistent ids s ->
  consistent ids (queue_get s).2
  /\ forall item, (queue_get s).1 = Returns item ->
       registered (queue_get s).2 item.2 /\ task_id item.2 ∈ ids.
Proof.
  intros [Hq Hp Hd]. unfold queue_get.
  destruct (heappop (task_queue s)) as [[r heap]|] eqn:E; [|done].
  apply heappop_elem_of in E as [Hsub Hitem]. cbn [fst snd].
  split.
  - split; cbn; [|done|done]. intros e He. by apply Hq, Hsub.
  - intros item ->. by apply Hq, Hitem.
Qed.

(** A state that differs from a consistent one by more completed tasks
    and by dispatched wrappers whose dependencies were completed. *)
Lemma consistent_step ids s s' :
  consistent ids s ->
  task_queue s' = task_queue s ->
  pending_approval s' = pending_approval s ->
  task_graph s' = task_graph s ->
  (exists ws, completed_tasks s' = (completed_tasks s ++ ws)%list) ->
  (forall w d, w ∈ dispatched s' -> d ∈ dependencies w ->
     w ∈ dispatched s \/ d ∈ completed_ids s) ->
  consistent ids s'.
Proof.
  intros [H1 H2 H3] Hq Hp Hg [ws Hc] Hd.
  assert (Hids : forall d, d ∈ completed_ids s -> d ∈ completed_ids s').
  { intros d Hin. apply (completed_ids_app s ws) in Hin.
    unfold completed_ids in *. by rewrite Hc. }
  assert (Hreg : forall w, registered s' w <-> registered s w)
    by (intros w; unfold registered; by rewrite Hg).
  split.
  - intros e He. rewrite Hq in He. rewrite Hreg. by apply H1.
  - intros w Hw. rewrite Hp in Hw. rewrite Hreg. by apply H2.
  - intros w d Hw Hdep. apply Hids.
    destruct (Hd w d Hw Hdep) as [Hold|Hdone]; [by eapply H3|done].
Qed.

Ltac step_seq :=
  cbv [mbind M_bind mret M_ret get modify lift raise try_except utc_now uuid4
       execute_task];
  cbn beta iota.

Lemma consistent_execute_task ids s w :
  consistent ids s ->
  (forall d, d ∈ dependencies w -> d ∈ completed_ids s) ->
  consistent ids (_execute_task utcnow agent_execute w s).2.
Proof.
  intros Hs Hdeps. unfold _execute_task. step_seq.
  destruct (_find_agent_by_name (agent_name w) s) as [agent|].
  - cbn [calls task clock set_clock set_active_tasks].
    assert (Hnew : forall s' finished started,
      task_queue s' = task_queue s -> pending_approval s' = pending_approval s ->
      task_graph s' = task_graph s ->
      completed_tasks s' = (completed_tasks s ++ [finished])%list ->
      dispatched s'
        = (dispatched s ++ [set_started_at started (set_status RUNNING w)])%list ->
      consistent ids (_save_state utcnow s').2).
    { intros s' finished started Hq Hp Hg Hc Hd.
      apply consistent_save_state.
      apply (consistent_step ids s); try done; [by eexists|].
      intros w' d. rewrite Hd, elem_of_app, list_elem_of_singleton.
      intros [Hold| ->] Hdep; [by left|]. right. by apply Hdeps. }
    destruct (agent_execute _ agent _) as [r|message|];
      [destruct (r !! "status") as [st|]| |]; step_seq;
      match goal with |- context [_save_state utcnow ?x] =>
        assert (H : consistent ids (_save_state utcnow x).2)
          by (by eapply Hnew);
        by destruct (_save_state utcnow x) as [[[]|?] ?]
      end.
  - cbn [snd]. apply (consistent_step ids s); try done; [by eexists|].
    intros w' d Hw' _. by left.
Qed.

Lemma dependencies_met_registered s w d :
  registered s w -> _dependencies_met (task_id w) s = true ->
  d ∈ dependencies w -> d ∈ completed_ids s.
Proof.
  intros [Hnil|Hreg] Hmet Hd.
  - rewrite Hnil in Hd. by apply elem_of_nil in Hd.
  - unfold _dependencies_met in Hmet. rewrite Hreg in Hmet.
    apply bool_decide_eq_true_1 in Hmet. apply Hmet.
    by apply elem_of_list_to_set.
Qed.

Lemma consistent_worker_turn ids s :
  consistent ids s ->
  consistent ids (_worker_loop_turn utcnow agent_execute s).2.
Proof.
  intros Hs. unfold _worker_loop_turn. rewrite try_except_snd. step_seq.
  destruct (negb (bool_decide (task_queue s = []))); [|done].
  destruct (consistent_queue_get ids s Hs) as [Hs1 Hitem].
  destruct (queue_get s) as [[[priority w]|err] s1]; [|done].
  cbn [fst snd] in *. destruct (Hitem _ eq_refl) as [Hreg Hid].
  destruct (_dependencies_met (task_id w) s1) eqn:Hmet; cbn [negb].
  - apply consistent_execute_task; [done|].
    intros d. by apply dependencies_met_registered.
  - by apply consistent_queue_put.
Qed.

Lemma consistent_approve_task ids s wanted :
  consistent ids s -> consistent ids (approve_task utcnow wanted s).2.
Proof.
  intros Hs. unfold approve_task. step_seq.
  destruct (list_find _ (pending_approval s)) as [[i w]|] eqn:Hfind; [|done].
  apply list_find_Some in Hfind as (Hi & _ & _).
  apply list_elem_of_lookup_2 in Hi.
  destruct Hs as [H1 H2 H3]. destruct (H2 w Hi) as [Hreg Hid].
  set (s1 := set_pending_approval _ s).
  assert (Hs1 : consistent ids s1).
  { split; [done| |done]. intros w' Hw'. apply H2.
    by apply (list_subseteq_delete i (pending_approval s)). }
  assert (Hput := consistent_queue_put ids s1 (value (priority w))
                    (set_status APPROVED w) Hs1 Hreg Hid).
  cbn [priority set_status].
  destruct (queue_put _ s1) as [[[]|err] s2]; [|done].
  cbn [snd] in Hput.
  apply (consistent_save_state ids) in Hput.
  by destruct (_save_state utcnow s2) as [[[]|err] s3].
Qed.

Lemma consistent_reject_task ids s wanted reason :
  consistent ids s -> consistent ids (reject_task utcnow wanted reason s).2.
Proof.
  intros Hs. unfold reject_task. step_seq.
  destruct (list_find _ (pending_approval s)) as [[i w]|] eqn:Hfind; [|done].
  match goal with |- context [_save_state utcnow ?s1] =>
    assert (Hs1 : consistent ids s1) end.
  { destruct Hs as [H1 H2 H3]. split; cbn.
    - done.
    - intros w' Hw'. apply H2.
      by apply (list_subseteq_delete i (pending_approval s)).
    - intros w' d Hw' Hd.
      by apply (completed_ids_app s), (H3 w'). }
  apply (consistent_save_state ids) in Hs1.
  by destruct (_save_state utcnow _) as [[[]|err] s3].
Qed.

Lemma consistent_register_agent ids s agent :
  consistent ids s -> consistent ids (register_agent utcnow agent s).2.
Proof.
  intros Hs. unfold register_agent. step_seq.
  match goal with |- context [_save_state utcnow ?s1] =>
    assert (Hs1 : consistent ids s1) by (by apply (consistent_frame ids s)) end.
  apply (consistent_save_state ids) in Hs1.
  by destruct (_save_state utcnow _) as [[[]|err] s3].
Qed.

Lemma consistent_unregister_agent ids s agent_id :
  consistent ids s -> consistent ids (unregister_agent utcnow agent_id s).2.
Proof.
  intros Hs. unfold unregister_agent. step_seq.
  destruct (existsb _ (agents s)); [|done].
  match goal with |- context [_save_state utcnow ?s1] =>
    assert (Hs1 : consistent ids s1) by (by apply (consistent_frame ids s)) end.
  apply (consistent_save_state ids) in Hs1.
  by destruct (_save_state utcnow _) as [[[]|err] s3].
Qed.

Lemma consistent_set_autonomy_level ids s level :
  consistent ids s -> consistent ids (set_autonomy_level utcnow level s).2.
Proof.
  intros Hs. unfold set_autonomy_level. step_seq.
  match goal with |- context [_save_state utcnow ?s1] =>
    assert (Hs1 : consistent ids s1) by (by apply (consistent_frame ids s)) end.
  apply (consistent_save_state ids) in Hs1.
  by destruct (_save_state utcnow _) as [[[]|err] s3].
Qed.

Lemma consistent_monitor_turn ids s :
  consistent ids s -> consistent ids (_monitor_loop_turn utcnow s).2.
Proof.
  intros Hs. unfold _monitor_loop_turn. rewrite try_except_snd. step_seq.
  by apply consistent_save_state.
Qed.

Lemma consistent_pending_append ids s w :
  consistent ids s -> registered s w -> task_id w ∈ ids ->
  consistent ids (set_pending_approval (pending_approval s ++ [w])%list s).
Proof.
  intros [H1 H2 H3] Hreg Hid. split; cbn; [done| |done].
  intros w' [Hw'| ->%list_elem_of_singleton]%elem_of_app; [by apply H2|done].
Qed.

(** Recording the dependencies of a new id leaves the wrappers that wait
    as they were. *)
Lemma consistent_set_task_graph ids s i deps :
  i ∉ ids -> consistent ids s ->
  consistent ids (set_task_graph (<[i := deps]> (task_graph s)) s).
Proof.
  intros Hi [H1 H2 H3].
  assert (Hreg : forall w, task_id w ∈ ids -> registered s w ->
            registered (set_task_graph (<[i := deps]> (task_graph s)) s) w).
  { intros w Hw [Hnil|Hg]; [by left|right]. cbn.
    rewrite lookup_insert_ne; [done|]. intros ->. done. }
  split; cbn.
  - intros e He. destruct (H1 e He). split; [by apply Hreg|done].
  - intros w Hw. destruct (H2 w Hw). split; [by apply Hreg|done].
  - done.
Qed.

(** Whenever [submit_task] returns, it returns the assigned id. *)
Lemma submit_task_result_id s agent_name task priority dependencies
    requires_approval tid :
  (submit_task utcnow uuid4_hex8 agent_name task priority dependencies
     requires_approval s).1 = Returns tid ->
  tid = assigned_id uuid4_hex8 s task.
Proof.
  unfold submit_task, assigned_id. step_seq.
  cbn [draws clock autonomy_level set_draws set_clock].
  destruct dependencies as [[|d ds]|]; step_seq;
    (destruct (requires_approval || bool_decide (autonomy_level s = MANUAL));
     [|destruct (queue_put _ _) as [[[]|err] s2]; [|done]];
     destruct (_save_state utcnow _) as [[[]|err'] s3]; cbn; congruence).
Qed.

Lemma consistent_submit_task ids s agent_name task priority dependencies
    requires_approval :
  consistent ids s ->
  assigned_id uuid4_hex8 s task ∉ ids ->
  consistent (ids ++ [assigned_id uuid4_hex8 s task])
    (submit_task utcnow uuid4_hex8 agent_name task priority dependencies
       requires_approval s).2.
Proof.
  intros Hs Hfresh. unfold submit_task. step_seq.
  cbn [draws clock autonomy_level set_draws set_clock].
  fold (assigned_id uuid4_hex8 s task).
  set (i := assigned_id uuid4_hex8 s task) in *.
  set (w := {| task_id := i |}).
  set (s0 := set_clock _ (set_draws _ s)).
  assert (Hs0 : consistent ids s0) by (by apply (consistent_frame ids s)).
  assert (Hmono : consistent (ids ++ [i]) s0)
    by (eapply consistent_mono; [|done]; set_solver).
  assert (Hgraph : forall deps,
    consistent (ids ++ [i]) (set_task_graph (<[i := deps]> (task_graph s0)) s0)).
  { intros deps. eapply consistent_mono;
      [|by apply consistent_set_task_graph]. set_solver. }
  assert (Hid : i ∈ (ids ++ [i])%list) by set_solver.
  destruct dependencies as [[|d ds]|]; step_seq;
    (destruct (requires_approval || bool_decide (autonomy_level s = MANUAL));
     [ match goal with |- context [_save_state utcnow ?s2] =>
         assert (Hs2 : consistent (ids ++ [i]) s2)
       end;
       [ apply consistent_pending_append;
         [ done | first [by left | right; cbn; by rewrite lookup_insert_eq]
         | done ]
       | apply (consistent_save_state _) in Hs2;
         by destruct (_save_state utcnow _) as [[[]|err] s3] ]
     | match goal with |- context [queue_put ?e ?s1] =>
         assert (Hput : consistent (ids ++ [i]) (queue_put e s1).2);
         [ apply consistent_queue_put;
           [ done | first [by left | right; cbn; by rewrite lookup_insert_eq]
           | done ]
         | destruct (queue_put e s1) as [[[]|err] s2]; [|done];
           cbn [snd] in Hput; apply (consistent_save_state _) in Hput;
           by destruct (_save_state utcnow s2) as [[[]|err] s3] ]
       end ]).
Qed.

Lemma consistent_perform ids s a :
  consistent ids s ->
  (forall i, i ∈ action_ids uuid4_hex8 a s -> i ∉ ids) ->
  consistent (ids ++ action_ids uuid4_hex8 a s)
    (perform utcnow uuid4_hex8 agent_execute a s).
Proof.
  intros Hs Hfresh.
  destruct a; cbn [perform action_ids]; rewrite ?app_nil_r.
  - by apply consistent_register_agent.
  - by apply consistent_unregister_agent.
  - apply consistent_submit_task; [done|]. apply Hfresh. cbn. set_solver.
  - by apply consistent_approve_task.
  - by apply consistent_reject_task.
  - by apply consistent_set_autonomy_level.
  - by apply consistent_worker_turn.
  - by apply consistent_monitor_turn.
Qed.

Lemma consistent_execution actions ids s :
  consistent ids s ->
  NoDup (ids ++ submitted_ids utcnow uuid4_hex8 agent_execute actions s) ->
  consistent (ids ++ submitted_ids utcnow uuid4_hex8 agent_execute actions s)
    (execution utcnow uuid4_hex8 agent_execute actions s).
Proof.
  revert ids s. induction actions as [|a rest IH]; intros ids s Hs Hnodup.
  - cbn. by rewrite app_nil_r.
  - cbn [submitted_ids execution foldl] in *.
    rewrite app_assoc in *.
    apply IH; [|done].
    apply consistent_perform; [done|].
    intros i Hi Hin.
    apply NoDup_app in Hnodup as [Hnodup _].
    apply NoDup_app in Hnodup as (_ & Hdisj & _).
    by apply (Hdisj i).
Qed.

(** C10 (amended): in every execution whose [submit_task] calls assign
    pairwise different task ids, a task whose dependency list contains an
    id that has no [COMPLETED] entry in [completed_tasks] has not been
    handed to an agent. (The dependencies are recorded per task id, so the
    proviso is needed.) *)
Theorem unmet_dependency_blocks_dispatch (oid : string) (level : AutonomyLevel)
    (actions : list action) (w : TaskWrapper) (d : string) :
  NoDup (submitted_ids utcnow uuid4_hex8 agent_execute actions (initial oid level)) ->
  d ∈ dependencies w ->
  d ∉ completed_ids
        (execution utcnow uuid4_hex8 agent_execute actions (initial oid level)) ->
  w ∉ dispatched
        (execution utcnow uuid4_hex8 agent_execute actions (initial oid level)).
Proof.
  intros Hnodup Hd Hnot Hw.
  destruct (consistent_execution actions [] (initial oid level)
              (consistent_initial oid level) Hnodup) as [_ _ H3].
  by apply Hnot, (H3 w).
Qed.

End Invariant.

(** C10, the claim as stated fails: the task "first" is submitted under
    the id [T] with the dependency [X], which is never submitted; a second
    task is submitted under the same id [T] with the dependency [Y], and
    [task_graph["T"]] now is [{Y}]. Once [Y] has completed, the worker
    dispatches "first", although [X] has not completed. *)
Lemma reused_id_dispatches_with_unmet_dependency :
  let final :=
    execution demo_clock demo_uuid demo_agents
      [SubmitTask "coder" (mkTask (Some "Y") (Some "fetch") ∅) LOW None false;
       SubmitTask "coder" (mkTask (Some "T") (Some "first") ∅) MEDIUM
         (Some ["X"]) false;
       SubmitTask "coder" (mkTask (Some "T") (Some "second") ∅) HIGH
         (Some ["Y"]) false;
       WorkerTurn; WorkerTurn]
      started in
  (fun w => (name (task w), dependencies w)) <$> dispatched final
    = [(Some "fetch", []); (Some "first", ["X"])]
  /\ (fun w => (task_id w, status w)) <$> completed_tasks final
    = [("Y", COMPLETED); ("T", COMPLETED)]
  /\ "X" ∉ completed_ids final.
Proof.
  split; [by vm_compute|]. split; [by vm_compute|].
  apply (bool_decide_unpack _). by vm_compute.
Qed.

(** An instance of the amended C10: a task that depends on an id that is
    never submitted is requeued by both worker turns. *)
Lemma unmet_dependency_blocks_dispatch_witness :
  mkWrapper "task_a3f0c1d0" "coder"
    (mkTask (Some "task_a3f0c1d0") (Some "deploy") ∅) HIGH ["task_missing"]
    false RUNNING "2024-01-01T00:00:01" (Some "2024-01-01T00:00:03") None None
  ∉ dispatched
      (execution demo_clock demo_uuid demo_agents
         [RegisterAgent coder;
          SubmitTask "coder" (mkTask None (Some "deploy") ∅) HIGH
            (Some ["task_missing"]) false;
          WorkerTurn; WorkerTurn]
         (initial "orchestrator_0" SEMI_AUTO)).
Proof.
  apply (unmet_dependency_blocks_dispatch demo_clock demo_uuid demo_agents
           "orchestrator_0" SEMI_AUTO _ _ "task_missing").
  - apply (bool_decide_unpack _). by vm_compute.
  - apply (bool_decide_unpack _). by vm_compute.
  - apply (bool_decide_unpack _). by vm_compute.
Defined.


(** ** The heap operations only rearrange the entries *)

Lemma insert_perm_cons {A} (l : list A) (j : nat) (a y : A) :
  l !! j = Some y -> y :: <[j := a]> l ≡ₚ a :: l.
Proof.
  revert j. induction l as [|b l IH]; intros [|j] H; try done.
  - cbn in H. injection H as ->. cbn. apply Permutation_swap.
  - cbn in *. rewrite (Permutation_swap b y). rewrite (IH j H).
    apply Permutation_swap.
Qed.

Lemma swap_perm {A} (i j : nat) (l : list A) : swap i j l ≡ₚ l.
Proof.
  unfold swap.
  destruct (l !! i) as [x|] eqn:Hi; [|done].
  destruct (l !! j) as [y|] eqn:Hj; [|done].
  revert i j Hi Hj. induction l as [|a l IH]; intros [|i] [|j] Hi Hj; try done.
  - cbn in *. by simplify_eq.
  - cbn in *. simplify_eq. by apply insert_perm_cons.
  - cbn in *. simplify_eq. by apply insert_perm_cons.
  - cbn in *. by rewrite IH.
Qed.

Lemma siftdown_loop_perm fuel heap startpos pos :
  (siftdown_loop fuel heap startpos pos).2 ≡ₚ heap.
Proof.
  revert heap pos. induction fuel as [|fuel IH]; intros heap pos; [done|].
  cbn [siftdown_loop]. destruct (startpos <? pos)%nat; [|done].
  destruct (heap !! pos) as [newitem|]; [|done].
  destruct (heap !! ((pos - 1) / 2)%nat) as [parent|]; [|done].
  destruct (entry_lt newitem parent) as [[|]|]; try done.
  rewrite IH. apply swap_perm.
Qed.

Lemma siftup_loop_perm fuel heap pos :
  (siftup_loop fuel heap pos).2 ≡ₚ heap.
Proof.
  revert heap pos. induction fuel as [|fuel IH]; intros heap pos; [done|].
  cbn [siftup_loop]. destruct (pos <? length heap / 2)%nat; [|done].
  match goal with |- context [match ?c with Returns _ => _ | Raises _ => _ end] =>
    destruct c as [childpos|] end; [|done].
  rewrite IH. apply swap_perm.
Qed.

Lemma siftup_perm heap pos : (_siftup heap pos).2 ≡ₚ heap.
Proof.
  unfold _siftup.
  assert (H := siftup_loop_perm (length heap) heap pos).
  destruct (siftup_loop (length heap) heap pos) as [[pos'|err] heap'];
    cbn [snd] in *; [|done].
  unfold _siftdown. by rewrite siftdown_loop_perm.
Qed.

(** Whether [heappush] returns or raises, the heap then holds the old
    entries and the new one, each as often as before. *)
Lemma heappush_perm heap item : (heappush heap item).2 ≡ₚ item :: heap.
Proof.
  unfold heappush, _siftdown. rewrite siftdown_loop_perm.
  by rewrite Permutation_app_comm.
Qed.

(** [heappop] hands out an entry and keeps the others; when a comparison
    raises, it keeps all entries but the first, which is handed to
    nobody. *)
Lemma heappop_perm heap r heap' :
  heappop heap = Some (r, heap') ->
  match r with
  | Returns item => item :: heap' ≡ₚ heap
  | Raises _ => exists root rest, heap = root :: rest /\ heap' ≡ₚ rest
  end.
Proof.
  unfold heappop. destruct (last heap) as [lastelt|] eqn:Hlast; [|done].
  apply removelast_last in Hlast.
  destruct (removelast heap) as [|returnitem rest] eqn:Hrem.
  - intros [= <- <-]. by rewrite Hlast.
  - assert (Hp := siftup_perm (<[0%nat:=lastelt]> (returnitem :: rest)) 0).
    destruct (_siftup _ 0) as [[[]|err] h] eqn:E; intros [= <- <-];
      cbn [snd] in Hp; cbn [insert list_insert] in Hp.
    + rewrite Hp, Hlast. cbn.
      apply perm_skip, Permutation_cons_append.
    + exists returnitem, (rest ++ [lastelt])%list. split; [by rewrite Hlast|].
      rewrite Hp. apply Permutation_cons_append.
Qed.


Lemma siftdown_loop_raises fuel heap startpos pos e :
  (siftdown_loop fuel heap startpos pos).1 = Raises e -> e = TypeError.
Proof.
  revert heap pos. induction fuel as [|fuel IH]; intros heap pos; [done|].
  cbn [siftdown_loop]. destruct (startpos <? pos)%nat; [|done].
  destruct (heap !! pos) as [newitem|]; [|done].
  destruct (heap !! ((pos - 1) / 2)%nat) as [parent|]; [|done].
  unfold entry_lt.
  destruct (newitem.1 =? parent.1).
  - destruct (wrapper_eqb _ _); [done|]. cbn. congruence.
  - destruct (newitem.1 <? parent.1); [apply IH|done].
Qed.

Lemma heappush_raises heap item e :
  (heappush heap item).1 = Raises e -> e = TypeError.
Proof. apply siftdown_loop_raises. Qed.

Section Extra.
Variable utcnow : nat -> string.
Variable uuid4_hex8 : nat -> string.
Variable agent_execute : nat -> Agent -> Task -> agent_outcome.

Ltac step_seq :=
  cbv [mbind M_bind mret M_ret get modify lift raise try_except utc_now uuid4
       execute_task];
  cbn beta iota.

(** X19: [reject_task] never returns [True]. On an id that is not
    waiting for approval it returns [False] and changes nothing. Otherwise
    it takes the first waiting wrapper with the id out of
    [pending_approval] and appends it, with status [CANCELLED] and the
    reason as its result, to [completed_tasks]; [_save_state] then meets
    this wrapper and raises [TypeError]. *)
Theorem reject_task_cancels_then_raises s wanted reason :
  let r := reject_task utcnow wanted reason s in
  match list_find (fun w => task_id w = wanted) (pending_approval s) with
  | None => r = (Returns false, s)
  | Some (i, w) =>
      r.1 = Raises TypeError
      /\ pending_approval r.2 = delete i (pending_approval s)
      /\ completed_tasks r.2
         = (completed_tasks s
            ++ [set_result {["error" := PStr reason]} (set_status CANCELLED w)])%list
      /\ task_queue r.2 = task_queue s
      /\ state_file r.2 = Truncated
  end.
Proof.
  cbv zeta. unfold reject_task. step_seq.
  destruct (list_find _ (pending_approval s)) as [[i w]|]; [|done].
  rewrite save_state_raises; [done|].
  right. left. cbn. by destruct (completed_tasks s).
Qed.

(** X20: [approve_task] on an id that is not waiting for approval
    returns [False] and changes nothing. Otherwise it takes the first
    waiting wrapper with the id out of [pending_approval] and puts it,
    with status [APPROVED], into the queue under the number of its
    priority, whether the call then returns or raises; it returns [True]
    only when no other task wrapper is left in the state to save. *)
Theorem approve_task_queues_the_task s wanted :
  let r := approve_task utcnow wanted s in
  match list_find (fun w => task_id w = wanted) (pending_approval s) with
  | None => r = (Returns false, s)
  | Some (i, w) =>
      task_queue r.2 ≡ₚ (value (priority w), set_status APPROVED w) :: task_queue s
      /\ pending_approval r.2 = delete i (pending_approval s)
      /\ completed_tasks r.2 = completed_tasks s
      /\ (r.1 = Returns true \/ r.1 = Raises TypeError)
      /\ (r.1 = Returns true ->
          active_tasks s = ∅ /\ completed_tasks s = []
          /\ delete i (pending_approval s) = [])
  end.
Proof.
  cbv zeta. unfold approve_task. step_seq.
  destruct (list_find _ (pending_approval s)) as [[i w]|]; [|done].
  unfold queue_put. cbn [priority set_status task_queue set_pending_approval].
  assert (Hp := heappush_perm (task_queue s)
                  (value (priority w), set_status APPROVED w)).
  assert (Ht := heappush_raises (task_queue s)
                  (value (priority w), set_status APPROVED w)).
  destruct (heappush _ _) as [[[]|err] heap] eqn:E; cbn [fst snd] in *.
  - match goal with |- context [_save_state utcnow ?x] => set (s1 := x) end.
    destruct (decide (active_tasks s1 = ∅ /\ completed_tasks s1 = []
                      /\ pending_approval s1 = [])) as [(Ha & Hc & Hq)|Hn].
    + rewrite save_state_returns by done. cbn.
      split; [done|]. split; [done|]. split; [done|]. split; [by left|done].
    + rewrite save_state_raises.
      * cbn. split; [done|]. split; [done|]. split; [done|].
        split; [by right|]. intros [=].
      * destruct (decide (active_tasks s1 = ∅)); [|tauto].
        destruct (decide (completed_tasks s1 = [])); [|tauto].
        destruct (decide (pending_approval s1 = [])); tauto.
  - rewrite (Ht err eq_refl). cbn.
    split; [done|]. split; [done|]. split; [done|].
    split; [by right|]. intros [=].
Qed.


(** What [_execute_task] does when an agent has the name asked for. *)
Lemma execute_task_known_agent w s agent :
  _find_agent_by_name (agent_name w) s = Some agent ->
  exists s',
    _execute_task utcnow agent_execute w s = (Raises TypeError, s')
    /\ task_queue s' = task_queue s
    /\ pending_approval s' = pending_approval s
    /\ task_graph s' = task_graph s
    /\ agents s' = agents s
    /\ autonomy_level s' = autonomy_level s
    /\ draws s' = draws s
    /\ active_tasks s' = delete (task_id w) (active_tasks s)
    /\ completed_tasks s'
       = (completed_tasks s ++ [finished_wrapper utcnow agent_execute agent w s])%list
    /\ dispatched s' = (dispatched s ++ [running_wrapper utcnow w s])%list
    /\ calls s' = S (calls s)
    /\ state_file s' = Truncated.
Proof.
  intros Hfind. unfold _execute_task, finished_wrapper, running_wrapper.
  step_seq. rewrite Hfind.
  cbn [calls task clock set_clock set_active_tasks set_started_at set_status
       task_id].
  destruct (agent_execute (calls s) agent (task w)) as [r|message|];
    [destruct (r !! "status") as [st|]| |]; step_seq;
    (rewrite save_state_raises;
     [ eexists; split; [reflexivity|];
       cbn; rewrite delete_insert_eq; repeat split; reflexivity
     | right; left; cbn; by destruct (completed_tasks s) ]).
Qed.

Lemma execute_task_unknown_agent w s :
  _find_agent_by_name (agent_name w) s = None ->
  _execute_task utcnow agent_execute w s
  = (Returns tt,
     set_completed_tasks
       (completed_tasks s
        ++ [set_result
              {["error" := PStr ("Agent not found: " +:+ agent_name w)]}
              (set_status FAILED w)]) s).
Proof. intros Hfind. unfold _execute_task. step_seq. by rewrite Hfind. Qed.

(** X21: [_execute_task] records every task it is given. When no
    registered agent has the name asked for, the wrapper is recorded as
    [FAILED] without any agent being called and without saving. Otherwise
    the agent is called once and the wrapper is recorded as [COMPLETED]
    exactly when the agent returned a result whose ["status"] is
    ["success"]; as [RUNNING], the status it had during the call, when the
    agent raised an exception outside [Exception] ([SystemExit],
    [KeyboardInterrupt]), which [except Exception] does not catch; and as
    [FAILED] in every other case. The entry of the task in [active_tasks]
    is removed, and the [_save_state] at the end raises [TypeError], since
    the record it has just appended is a task wrapper. *)
Theorem execute_task_records_outcome w s :
  let r := _execute_task utcnow agent_execute w s in
  match _find_agent_by_name (agent_name w) s with
  | None =>
      r.1 = Returns tt
      /\ (exists finished,
            completed_tasks r.2 = (completed_tasks s ++ [finished])%list
            /\ task_id finished = task_id w /\ status finished = FAILED)
      /\ calls r.2 = calls s /\ dispatched r.2 = dispatched s
      /\ state_file r.2 = state_file s
  | Some agent =>
      r.1 = Raises TypeError
      /\ (exists finished,
            completed_tasks r.2 = (completed_tasks s ++ [finished])%list
            /\ task_id finished = task_id w
            /\ status finished
               = match agent_execute (calls s) agent (task w) with
                 | AgentReturns result =>
                     if bool_decide (result !! "status" = Some (PStr "success"))
                     then COMPLETED else FAILED
                 | AgentRaises _ => FAILED
                 | AgentExits => RUNNING
                 end)
      /\ active_tasks r.2 !! task_id w = None
      /\ calls r.2 = S (calls s)
      /\ state_file r.2 = Truncated
  end.
Proof.
  cbv zeta.
  destruct (_find_agent_by_name (agent_name w) s) as [agent|] eqn:Hfind.
  - destruct (execute_task_known_agent w s agent Hfind)
      as (s' & -> & _ & _ & _ & _ & _ & _ & Ha & Hc & _ & Hcalls & Hfile).
    cbn [fst snd]. split; [done|]. split.
    + eexists. split; [exact Hc|]. unfold finished_wrapper, running_wrapper.
      destruct (agent_execute (calls s) agent (task w)) as [result|message|].
      * destruct (result !! "status") as [st|] eqn:Hst.
        -- cbn [task_id status set_completed_at set_status set_result
                set_started_at].
           split; [done|]. repeat case_bool_decide; congruence.
        -- cbn. split; [done|]. by rewrite bool_decide_eq_false_2.
      * done.
      * done.
    + split; [|done]. rewrite Ha. apply lookup_delete_eq.
  - rewrite (execute_task_unknown_agent w s Hfind). cbn.
    split; [done|]. split; [|done]. by eexists.
Qed.


(** X22: on the path without approval [submit_task] has put the task in
    the queue by the time it saves the state: whether the call returns the
    task id or raises [TypeError] (from the comparison of two entries with
    the same priority number, or from [_save_state]), the queue holds the
    new entry, so that a caller who repeats a call that raised queues the
    task twice. [get_task_status] does not look into the queue: its answer
    for the id is the same as before the call. *)
Theorem submit_task_queues_before_saving s agent_name task priority dependencies :
  autonomy_level s <> MANUAL ->
  let r := submit_task utcnow uuid4_hex8 agent_name task priority dependencies
             false s in
  let w := new_wrapper utcnow uuid4_hex8 agent_name task priority dependencies
             false s in
  task_queue r.2 ≡ₚ (value priority, w) :: task_queue s
  /\ (r.1 = Returns (task_id w) \/ r.1 = Raises TypeError)
  /\ forall wanted, get_task_status wanted r.2 = get_task_status wanted s.
Proof.
  intros Hlevel. cbv zeta.
  unfold submit_task, new_wrapper. step_seq.
  cbn [draws clock autonomy_level set_draws set_clock].
  rewrite (bool_decide_eq_false_2 _ Hlevel). cbn [orb].
  set (w := {| task_id := _ |}).
  assert (Hp := heappush_perm (task_queue s) (value priority, w)).
  assert (Ht := heappush_raises (task_queue s) (value priority, w)).
  destruct dependencies as [[|d ds]|]; step_seq; unfold queue_put;
    cbn [task_queue set_task_graph set_clock set_draws];
    (destruct (heappush _ _) as [[[]|err] heap] eqn:E; cbn [fst snd] in *;
     [ match goal with |- context [_save_state utcnow ?x] =>
         destruct (save_state_frame utcnow x)
           as (Hq & Hpe & _ & Hc & _ & Ha & _);
         assert (Hs : (_save_state utcnow x).1 = Returns tt
                      \/ (_save_state utcnow x).1 = Raises TypeError)
           by (unfold _save_state; step_seq;
               destruct (json_serializable _); cbn; tauto);
         destruct (_save_state utcnow x) as [[[]|err] s'] eqn:Es
       end;
       cbn [fst snd] in *;
       (split; [by rewrite Hq|]);
       (split; [destruct Hs as [Hs|Hs]; first [by left | right; congruence
                                               | congruence]|]);
       intros wanted; unfold get_task_status; by rewrite Ha, Hc, Hpe
     | rewrite (Ht err eq_refl); cbn;
       split; [done|]; split; [by right|]; done ]).
Qed.


Lemma set_task_queue_same s q : task_queue s = q -> set_task_queue q s = s.
Proof. destruct s. cbn. by intros ->. Qed.

Lemma worker_turn_requeues s p w :
  task_queue s = [(p, w)] ->
  _dependencies_met (task_id w) s = false ->
  (_worker_loop_turn utcnow agent_execute s).2 = set_task_queue [(p + 1, w)] s.
Proof.
  intros Hq Hdep. unfold _worker_loop_turn. rewrite try_except_snd. step_seq.
  rewrite Hq. rewrite bool_decide_eq_false_2 by done. cbn [negb].
  unfold queue_get. rewrite Hq. cbn [heappop last removelast].
  unfold queue_put. cbn [task_queue set_task_queue].
  change (_dependencies_met (task_id w) (set_task_queue [] s))
    with (_dependencies_met (task_id w) s).
  rewrite Hdep. cbn [negb]. reflexivity.
Qed.

(** X23: a task whose dependencies are not met holds up nothing but
    itself, and for ever: while it is the only entry of the queue, each
    turn of the worker loop takes it out and puts it back under the next
    higher number; after [n] turns its number has grown by [n], no agent
    was called, and nothing else has changed, not even the state file. *)
Theorem unmet_dependency_requeues_forever (n : nat) s p w :
  task_queue s = [(p, w)] ->
  _dependencies_met (task_id w) s = false ->
  execution utcnow uuid4_hex8 agent_execute (repeat WorkerTurn n) s
  = set_task_queue [(p + Z.of_nat n, w)] s.
Proof.
  revert s p. induction n as [|n IH]; intros s p Hq Hdep.
  - cbn [repeat execution foldl]. rewrite Z.add_0_r.
    symmetry. by apply set_task_queue_same.
  - cbn [repeat execution foldl perform].
    rewrite (worker_turn_requeues s p w Hq Hdep).
    fold (execution utcnow uuid4_hex8 agent_execute (repeat WorkerTurn n)
            (set_task_queue [(p + 1, w)] s)).
    rewrite (IH _ (p + 1)) by done.
    cbn [set_task_queue orchestrator_id autonomy_level agents pending_approval
         active_tasks completed_tasks task_graph state_file clock draws calls
         dispatched].
    by replace (p + 1 + Z.of_nat n) with (p + Z.of_nat (S n)) by lia.
Qed.

(** X24: when a comparison of two queue entries raises while the worker
    loop takes the next task from the queue, the turn ends there, and the
    entry at the head of the queue, the task whose turn it was, is gone: it
    is in the queue no more and was neither run nor recorded. All other
    entries stay in the queue, and nothing else changes. *)
Theorem worker_turn_loses_task_on_tie s e :
  task_queue s <> [] ->
  (queue_get s).1 = Raises e ->
  let s' := (_worker_loop_turn utcnow agent_execute s).2 in
  exists root rest,
    task_queue s = root :: rest
    /\ task_queue s' ≡ₚ rest
    /\ s' = set_task_queue (task_queue s') s.
Proof.
  intros Hne Hget. cbv zeta. unfold _worker_loop_turn.
  rewrite try_except_snd. step_seq.
  rewrite bool_decide_eq_false_2 by done. cbn [negb].
  unfold queue_get in *.
  destruct (heappop (task_queue s)) as [[r heap]|] eqn:E.
  - cbn [fst] in Hget. subst r. apply heappop_perm in E as (root & rest & Hq & Hp).
    exists root, rest. cbn. split; [done|]. split; [done|].
    by destruct s.
  - destruct (heappop_is_Some (task_queue s) Hne) as [? H]. congruence.
Qed.


(** ** Completed tasks stay, and the state file with them *)

Lemma later_refl s : later agent_execute s s.
Proof.
  split; [|by left]. exists []. split; [by rewrite app_nil_r|].
  by intros w ?%elem_of_nil.
Qed.

Lemma later_trans s1 s2 s3 : later agent_execute s1 s2 -> later agent_execute s2 s3 -> later agent_execute s1 s3.
Proof.
  intros [(ws & Hc & Hws) Hf] [(ws' & Hc' & Hws') Hf']. split.
  - exists (ws ++ ws')%list. split; [by rewrite Hc', Hc, app_assoc|].
    intros w [?|?]%elem_of_app; auto.
  - intros Hne.
    assert (Hne2 : completed_tasks s2 <> [])
      by (rewrite Hc; by destruct (completed_tasks s1)).
    destruct (Hf Hne) as [H|H], (Hf' Hne2) as [H'|H'];
      first [left; congruence | right; congruence].
Qed.

(** A state with the same completed tasks and the same state file. *)
Lemma later_frame s s' :
  completed_tasks s' = completed_tasks s -> state_file s' = state_file s ->
  later agent_execute s s'.
Proof.
  intros Hc Hf. split; [|by left]. exists [].
  split; [by rewrite app_nil_r|]. by intros w ?%elem_of_nil.
Qed.

Lemma later_save_state s : later agent_execute s (_save_state utcnow s).2.
Proof.
  destruct (save_state_frame utcnow s) as (_ & _ & _ & Hc & _).
  split.
  - exists []. split; [by rewrite app_nil_r|]. by intros w ?%elem_of_nil.
  - intros Hne. right. rewrite save_state_raises by tauto. done.
Qed.

Lemma later_append s w :
  terminal (status w) ->
  later agent_execute s (set_completed_tasks (completed_tasks s ++ [w]) s).
Proof.
  intros Hw. split; [|by left]. exists [w]. split; [done|].
  intros w' ->%list_elem_of_singleton. by left.
Qed.

Lemma later_queue_put s item : later agent_execute s (queue_put item s).2.
Proof. unfold queue_put. destruct (heappush _ _). by apply later_frame. Qed.

Lemma later_queue_get s : later agent_execute s (queue_get s).2.
Proof.
  unfold queue_get. destruct (heappop _) as [[? ?]|]; [|apply later_refl].
  by apply later_frame.
Qed.

Lemma finished_wrapper_recorded agent w s :
  recorded agent_execute (finished_wrapper utcnow agent_execute agent w s).
Proof.
  unfold recorded, terminal, finished_wrapper, running_wrapper.
  destruct (agent_execute _ _ _) as [r|message|] eqn:E.
  - destruct (r !! "status"); cbn; [case_bool_decide|]; tauto.
  - cbn. tauto.
  - right. split; [done|]. by eexists _, _.
Qed.

Lemma later_execute_task s w :
  later agent_execute s (_execute_task utcnow agent_execute w s).2.
Proof.
  destruct (_find_agent_by_name (agent_name w) s) as [agent|] eqn:Hfind.
  - destruct (execute_task_known_agent w s agent Hfind)
      as (s' & -> & _ & _ & _ & _ & _ & _ & _ & Hc & _ & _ & Hfile).
    cbn [snd]. split; [|by right].
    eexists. split; [exact Hc|]. intros w' ->%list_elem_of_singleton.
    apply finished_wrapper_recorded.
  - rewrite (execute_task_unknown_agent w s Hfind). cbn [snd].
    apply later_append. right. by left.
Qed.

(** A method that ends with [_save_state]. *)
Lemma later_then_save s s1 :
  later agent_execute s s1 -> later agent_execute s (_save_state utcnow s1).2.
Proof. intros H. eapply later_trans; [exact H|apply later_save_state]. Qed.

Lemma later_perform a s :
  later agent_execute s (perform utcnow uuid4_hex8 agent_execute a s).
Proof.
  destruct a as [agent|agent_id|agent_name task priority dependencies approval
                |wanted|wanted reason|level| |]; cbn [perform].
  - unfold register_agent. step_seq.
    match goal with |- context [_save_state utcnow ?x] =>
      assert (H : later agent_execute s (_save_state utcnow x).2)
        by (by apply later_then_save, later_frame);
      by destruct (_save_state utcnow x) as [[[]|?] ?] end.
  - unfold unregister_agent. step_seq.
    destruct (existsb _ (agents s)); [|apply later_refl].
    match goal with |- context [_save_state utcnow ?x] =>
      assert (H : later agent_execute s (_save_state utcnow x).2)
        by (by apply later_then_save, later_frame);
      by destruct (_save_state utcnow x) as [[[]|?] ?] end.
  - unfold submit_task. step_seq.
    cbn [draws clock autonomy_level set_draws set_clock].
    destruct dependencies as [[|d ds]|]; step_seq;
      (destruct (approval || bool_decide (autonomy_level s = MANUAL));
       [ match goal with |- context [_save_state utcnow ?x] =>
           assert (H : later agent_execute s (_save_state utcnow x).2)
             by (by apply later_then_save, later_frame);
           by destruct (_save_state utcnow x) as [[[]|?] ?] end
       | match goal with |- context [queue_put ?e ?x] =>
           assert (H : later agent_execute s (queue_put e x).2)
             by (eapply later_trans; [|apply later_queue_put];
                 by apply later_frame);
           destruct (queue_put e x) as [[[]|?] s2]; [|done];
           cbn [snd] in H; apply later_then_save in H;
           by destruct (_save_state utcnow s2) as [[[]|?] ?] end ]).
  - unfold approve_task. step_seq.
    destruct (list_find _ (pending_approval s)) as [[i w]|]; [|apply later_refl].
    match goal with |- context [queue_put ?e ?x] =>
      assert (H : later agent_execute s (queue_put e x).2)
        by (eapply later_trans; [|apply later_queue_put];
            by apply later_frame);
      destruct (queue_put e x) as [[[]|?] s2]; [|done];
      cbn [snd] in H; apply later_then_save in H;
      by destruct (_save_state utcnow s2) as [[[]|?] ?] end.
  - unfold reject_task. step_seq.
    destruct (list_find _ (pending_approval s)) as [[i w]|]; [|apply later_refl].
    match goal with |- context [_save_state utcnow ?x] =>
      assert (H : later agent_execute s (_save_state utcnow x).2);
      [ apply later_then_save;
        apply (later_trans _
                 (set_pending_approval (delete i (pending_approval s)) s));
        [ by apply later_frame | apply later_append; right; by right ]
      | by destruct (_save_state utcnow x) as [[[]|?] ?] ] end.
  - unfold set_autonomy_level. step_seq.
    match goal with |- context [_save_state utcnow ?x] =>
      assert (H : later agent_execute s (_save_state utcnow x).2)
        by (by apply later_then_save, later_frame);
      by destruct (_save_state utcnow x) as [[[]|?] ?] end.
  - unfold _worker_loop_turn. rewrite try_except_snd. step_seq.
    destruct (negb (bool_decide (task_queue s = []))); [|apply later_refl].
    assert (H := later_queue_get s).
    destruct (queue_get s) as [[[p w]|?] s1]; [|done]. cbn [snd] in H.
    destruct (negb (_dependencies_met (task_id w) s1)).
    + eapply later_trans; [exact H|apply later_queue_put].
    + eapply later_trans; [exact H|apply later_execute_task].
  - unfold _monitor_loop_turn. rewrite try_except_snd. step_seq.
    apply later_save_state.
Qed.

Lemma later_execution actions s :
  later agent_execute s (execution utcnow uuid4_hex8 agent_execute actions s).
Proof.
  revert s. induction actions as [|a actions IH]; intros s; [apply later_refl|].
  cbn [execution foldl].
  eapply later_trans; [apply later_perform|apply IH].
Qed.

(** X25: [completed_tasks] only grows. Whatever is called and however
    the loops turn, the records of the completed tasks stay as they are
    and in their order. Each record that is added has one of the statuses
    [COMPLETED], [FAILED] and [CANCELLED], or it has the status [RUNNING]
    and is the record of a task on which an agent raised an exception
    outside [Exception]: [_execute_task] does not catch it, and its
    [finally] records the wrapper as it is. *)
Theorem completed_tasks_only_grow actions s :
  exists ws,
    completed_tasks (execution utcnow uuid4_hex8 agent_execute actions s)
    = (completed_tasks s ++ ws)%list
    /\ forall w, w ∈ ws ->
         status w = COMPLETED \/ status w = FAILED \/ status w = CANCELLED
         \/ (status w = RUNNING
             /\ exists n agent, agent_execute n agent (task w) = AgentExits).
Proof.
  destruct (later_execution actions s) as [(ws & Hc & Hws) _].
  exists ws. split; [done|]. intros w Hw.
  destruct (Hws w Hw) as [[H|[H|H]]|H]; tauto.
Qed.

(** X26: once a task has come to its end, the state file is never
    written completely again: after whatever calls and turns, it is as it
    was or it is cut short, because every [_save_state] meets a record of
    [completed_tasks] that [json.dump] cannot write. *)
Theorem state_file_never_complete_again actions s :
  completed_tasks s <> [] ->
  state_file (execution utcnow uuid4_hex8 agent_execute actions s) = state_file s
  \/ state_file (execution utcnow uuid4_hex8 agent_execute actions s) = Truncated.
Proof. intros Hne. by destruct (later_execution actions s) as [_ H]; apply H. Qed.


(** ** Approval comes before dispatch *)

Lemma gated_mono (P Q : string -> Prop) s :
  (forall i, P i -> Q i) -> gated P s -> gated Q s.
Proof. intros HPQ [H1 H2]. split; eauto. Qed.

Lemma gated_frame P s s' :
  task_queue s' = task_queue s -> dispatched s' = dispatched s ->
  gated P s -> gated P s'.
Proof. intros Hq Hd [H1 H2]. split; rewrite ?Hq, ?Hd; done. Qed.

Lemma gated_save_state P s : gated P s -> gated P (_save_state utcnow s).2.
Proof.
  destruct (save_state_frame utcnow s) as (?&_&_&_&?&_). by apply gated_frame.
Qed.

Lemma gated_queue_put P s p w :
  gated P s -> (requires_approval w = true -> P (task_id w)) ->
  gated P (queue_put (p, w) s).2.
Proof.
  intros [H1 H2] Hw. unfold queue_put.
  destruct (heappush (task_queue s) (p, w)) as [r heap] eqn:E.
  assert (Hin := fun e => heappush_elem_of (task_queue s) (p, w) e).
  rewrite E in Hin. cbn [snd] in *.
  split; cbn; [|done].
  intros e [He| ->]%Hin; [by apply H1|done].
Qed.

Lemma gated_queue_get P s :
  gated P s ->
  gated P (queue_get s).2
  /\ forall item, (queue_get s).1 = Returns item ->
       requires_approval item.2 = true -> P (task_id item.2).
Proof.
  intros [H1 H2]. unfold queue_get.
  destruct (heappop (task_queue s)) as [[r heap]|] eqn:E; [|done].
  apply heappop_elem_of in E as [Hsub Hitem]. cbn [fst snd].
  split.
  - split; cbn; [|done]. intros e He. by apply H1, Hsub.
  - intros item ->. by apply H1, Hitem.
Qed.

Lemma gated_execute_task P s w :
  gated P s -> (requires_approval w = true -> P (task_id w)) ->
  gated P (_execute_task utcnow agent_execute w s).2.
Proof.
  intros [H1 H2] Hw.
  destruct (_find_agent_by_name (agent_name w) s) as [agent|] eqn:Hfind.
  - destruct (execute_task_known_agent w s agent Hfind)
      as (s' & -> & Hq & _ & _ & _ & _ & _ & _ & _ & Hd & _).
    cbn [snd]. split; rewrite ?Hq, ?Hd; [done|].
    intros w' [Hw'| ->%list_elem_of_singleton]%elem_of_app; [by apply H2|].
    exact Hw.
  - rewrite (execute_task_unknown_agent w s Hfind). by split.
Qed.

Lemma gated_perform P a s :
  gated P s ->
  gated (fun i => P i \/ a = ApproveTask i)
    (perform utcnow uuid4_hex8 agent_execute a s).
Proof.
  intros Hs.
  destruct a as [agent|agent_id|agent_name task priority dependencies approval
                |wanted|wanted reason|level| |]; cbn [perform].
  - eapply gated_mono; [intros ? ?; left; eassumption|].
    unfold register_agent. step_seq.
    match goal with |- context [_save_state utcnow ?x] =>
      assert (H : gated P (_save_state utcnow x).2)
        by (by apply gated_save_state, (gated_frame P s));
      by destruct (_save_state utcnow x) as [[[]|?] ?] end.
  - eapply gated_mono; [intros ? ?; left; eassumption|].
    unfold unregister_agent. step_seq.
    destruct (existsb _ (agents s)); [|done].
    match goal with |- context [_save_state utcnow ?x] =>
      assert (H : gated P (_save_state utcnow x).2)
        by (by apply gated_save_state, (gated_frame P s));
      by destruct (_save_state utcnow x) as [[[]|?] ?] end.
  - eapply gated_mono; [intros ? ?; left; eassumption|].
    unfold submit_task. step_seq.
    cbn [draws clock autonomy_level set_draws set_clock].
    destruct dependencies as [[|d ds]|]; step_seq;
      (destruct (approval || bool_decide (autonomy_level s = MANUAL)) eqn:Hgate;
       [ match goal with |- context [_save_state utcnow ?x] =>
           assert (H : gated P (_save_state utcnow x).2)
             by (by apply gated_save_state, (gated_frame P s));
           by destruct (_save_state utcnow x) as [[[]|?] ?] end
       | match goal with |- context [queue_put ?e ?x] =>
           assert (H : gated P (queue_put e x).2)
             by (apply gated_queue_put;
                 [by apply (gated_frame P s)|cbn; congruence]);
           destruct (queue_put e x) as [[[]|?] s2]; [|done];
           cbn [snd] in H; apply gated_save_state in H;
           by destruct (_save_state utcnow s2) as [[[]|?] ?] end ]).
  - unfold approve_task. step_seq.
    destruct (list_find _ (pending_approval s)) as [[i w]|] eqn:Hfind.
    2:{ eapply gated_mono; [|exact Hs]. tauto. }
    apply list_find_Some in Hfind as (_ & Hid & _).
    match goal with |- context [queue_put ?e ?x] =>
      assert (H : gated (fun i => P i \/ ApproveTask wanted = ApproveTask i)
                    (queue_put e x).2)
        by (apply gated_queue_put;
            [ eapply gated_mono; [|by apply (gated_frame P s)]; tauto
            | intros _; right; cbn; by rewrite Hid ]);
      destruct (queue_put e x) as [[[]|?] s2]; [|done];
      cbn [snd] in H; apply gated_save_state in H;
      by destruct (_save_state utcnow s2) as [[[]|?] ?] end.
  - eapply gated_mono; [intros ? ?; left; eassumption|].
    unfold reject_task. step_seq.
    destruct (list_find _ (pending_approval s)) as [[i w]|]; [|done].
    match goal with |- context [_save_state utcnow ?x] =>
      assert (H : gated P (_save_state utcnow x).2)
        by (by apply gated_save_state, (gated_frame P s));
      by destruct (_save_state utcnow x) as [[[]|?] ?] end.
  - eapply gated_mono; [intros ? ?; left; eassumption|].
    unfold set_autonomy_level. step_seq.
    match goal with |- context [_save_state utcnow ?x] =>
      assert (H : gated P (_save_state utcnow x).2)
        by (by apply gated_save_state, (gated_frame P s));
      by destruct (_save_state utcnow x) as [[[]|?] ?] end.
  - eapply gated_mono; [intros ? ?; left; eassumption|].
    unfold _worker_loop_turn. rewrite try_except_snd. step_seq.
    destruct (negb (bool_decide (task_queue s = []))); [|done].
    destruct (gated_queue_get P s Hs) as [Hs1 Hitem].
    destruct (queue_get s) as [[[p w]|?] s1]; [|done].
    cbn [fst snd] in *. specialize (Hitem _ eq_refl). cbn [snd] in Hitem.
    destruct (negb (_dependencies_met (task_id w) s1)).
    + by apply gated_queue_put.
    + by apply gated_execute_task.
  - eapply gated_mono; [intros ? ?; left; eassumption|].
    unfold _monitor_loop_turn. rewrite try_except_snd. step_seq.
    by apply gated_save_state.
Qed.

Lemma gated_execution actions done s :
  gated (fun i => ApproveTask i ∈ done) s ->
  gated (fun i => ApproveTask i ∈ (done ++ actions)%list)
    (execution utcnow uuid4_hex8 agent_execute actions s).
Proof.
  revert done s. induction actions as [|a actions IH]; intros done s Hs.
  - cbn. by rewrite app_nil_r.
  - cbn [execution foldl].
    replace (done ++ a :: actions)%list with ((done ++ [a]) ++ actions)%list
      by (by rewrite <- app_assoc).
    apply IH. eapply gated_mono; [|by apply gated_perform].
    intros i [Hi| ->]; apply elem_of_app; [by left|right]. by left.
Qed.

(** X27: a task that was submitted as requiring approval (by its flag,
    or because the level was [MANUAL]) is handed to an agent only after
    [approve_task] was called with its id: in every execution, each
    dispatched wrapper that requires approval carries an id for which the
    execution has an [approve_task] call. *)
Theorem dispatch_follows_approval oid level actions w :
  w ∈ dispatched
        (execution utcnow uuid4_hex8 agent_execute actions (initial oid level)) ->
  requires_approval w = true ->
  ApproveTask (task_id w) ∈ actions.
Proof.
  intros Hw Hreq.
  assert (H0 : gated (fun i => ApproveTask i ∈ @nil action) (initial oid level)).
  { split; cbn; by intros ? ?%elem_of_nil. }
  destruct (gated_execution actions [] _ H0) as [_ H]. by apply (H w).
Qed.

End Extra.

(** An instance of X22. *)
Lemma submit_task_queues_before_saving_witness :
  let task := mkTask None (Some "build") ∅ in
  let r := submit_task demo_clock demo_uuid "coder" task HIGH None false started in
  let w := new_wrapper demo_clock demo_uuid "coder" task HIGH None false started in
  task_queue r.2 ≡ₚ (value HIGH, w) :: task_queue started
  /\ (r.1 = Returns (task_id w) \/ r.1 = Raises TypeError)
  /\ forall wanted, get_task_status wanted r.2 = get_task_status wanted started.
Proof.
  apply (submit_task_queues_before_saving demo_clock demo_uuid started "coder"
           (mkTask None (Some "build") ∅) HIGH None).
  vm_compute. discriminate.
Defined.

(** An instance of X23. *)
Lemma unmet_dependency_requeues_forever_witness :
  let w := new_wrapper demo_clock demo_uuid "coder"
             (mkTask (Some "deploy") None ∅) HIGH (Some ["build"]) false started in
  let s := set_task_graph {["deploy" := {["build"]}]}
             (set_task_queue [(3, w)] started) in
  execution demo_clock demo_uuid demo_agents (repeat WorkerTurn 5) s
  = set_task_queue [(3 + Z.of_nat 5, w)] s.
Proof.
  apply (unmet_dependency_requeues_forever demo_clock demo_uuid demo_agents 5).
  - reflexivity.
  - vm_compute. reflexivity.
Defined.

(** An instance of X24. *)
Lemma worker_turn_loses_task_on_tie_witness :
  let s := execution demo_clock demo_uuid demo_agents
             [SubmitTask "coder" (mkTask None (Some "first") ∅) LOW None false;
              SubmitTask "coder" (mkTask None (Some "second") ∅) MEDIUM None false;
              SubmitTask "coder" (mkTask None (Some "third") ∅) MEDIUM None false]
             started in
  let s' := (_worker_loop_turn demo_clock demo_agents s).2 in
  exists root rest,
    task_queue s = root :: rest
    /\ task_queue s' ≡ₚ rest
    /\ s' = set_task_queue (task_queue s') s.
Proof.
  apply (worker_turn_loses_task_on_tie demo_clock demo_agents _ TypeError).
  - vm_compute. discriminate.
  - vm_compute. reflexivity.
Defined.

(** An instance of X26. *)
Lemma state_file_never_complete_again_witness :
  let s := execution demo_clock demo_uuid demo_agents
             [SubmitTask "coder" (mkTask None (Some "build") ∅) HIGH None false;
              WorkerTurn] started in
  let actions := [RegisterAgent (mkAgent "agent_2" "tester" "TestingAgent");
                  MonitorTurn] in
  state_file (execution demo_clock demo_uuid demo_agents actions s) = state_file s
  \/ state_file (execution demo_clock demo_uuid demo_agents actions s) = Truncated.
Proof.
  apply (state_file_never_complete_again demo_clock demo_uuid demo_agents).
  vm_compute. discriminate.
Defined.

(** An instance of X27. *)
Lemma dispatch_follows_approval_witness :
  ApproveTask
    (task_id
       (mkWrapper "task_a3f0c1d0" "coder"
          (mkTask (Some "task_a3f0c1d0") (Some "deploy") ∅) HIGH [] true RUNNING
          "2024-01-01T00:00:01" (Some "2024-01-01T00:00:04") None None))
  ∈ [RegisterAgent coder;
     SubmitTask "coder" (mkTask None (Some "deploy") ∅) HIGH None true;
     ApproveTask "task_a3f0c1d0"; WorkerTurn].
Proof.
  apply (dispatch_follows_approval demo_clock demo_uuid demo_agents
           "orchestrator_0" SEMI_AUTO).
  - assert (E : dispatched
                  (execution demo_clock demo_uuid demo_agents
                     [RegisterAgent coder;
                      SubmitTask "coder" (mkTask None (Some "deploy") ∅) HIGH
                        None true;
                      ApproveTask "task_a3f0c1d0"; WorkerTurn]
                     (initial "orchestrator_0" SEMI_AUTO))
                = [mkWrapper "task_a3f0c1d0" "coder"
                     (mkTask (Some "task_a3f0c1d0") (Some "deploy") ∅) HIGH []
                     true RUNNING "2024-01-01T00:00:01"
                     (Some "2024-01-01T00:00:04") None None])
      by (vm_compute; reflexivity).
    rewrite E. by left.
  - reflexivity.
Defined.


End OrchestratorProps.
